(** * Mia Croft: the gameplay simulation of [mia-croft/game.js]

    A shallow embedding of the [MiaCroftGame] class.  The one mutable game
    object becomes the record [Game]; every method that touches simulation
    state becomes a function on it, named as in the source; the callbacks
    the class hands to the browser ([setTimeout], [requestAnimationFrame])
    are kept in a queue inside the state.  Scene-graph, DOM and HUD calls
    have no counterpart here.

    Numbers.  JavaScript numbers that only ever hold integers in the program
    (health, ammo, damage, level numbers) are [Z]; times and coordinates are
    exact rationals [Q], so rounding of doubles is not modelled.
    [a.distanceTo(b) < r] is decided on squares.

    The clock.  [THREE.Clock] belongs to the library: a method that reads it
    takes the reading as an argument ([now] for [getElapsedTime()],
    [rawDelta] for [getDelta()]), one reading per call.

    Failure.  A method that runs into a property access on [null] or
    [undefined] throws; such a method returns [option Game], with [None] for
    the throw. *)

From Stdlib Require Import ZArith QArith Qround Lqa Lia.
From stdpp Require Import base option list gmap strings sorting.

Set Default Proof Using "Type".

(** ** Numbers *)

Definition Qltb (a b : Q) : bool := negb (Qle_bool b a).
Definition Qgtb (a b : Q) : bool := Qltb b a.

(** [Math.min] on numbers, [Math.max] likewise. *)
Definition Math_min (a b : Q) : Q := if Qle_bool a b then a else b.
Definition Math_max (a b : Q) : Q := if Qle_bool a b then b else a.

(** [Math.PI], the double [0x400921FB54442D18]. *)
Definition Math_PI : Q := 884279719003555 # 281474976710656.

(** JavaScript truthiness of a number that may be [undefined]. *)
Definition truthy (x : option Q) : bool :=
  match x with
  | None => false
  | Some q => negb (Qeq_bool q 0)
  end.

(** ** THREE.Vector3 *)

Record Vec3 : Type := mkVec3 { vx : Q; vy : Q; vz : Q }.

Module Vector3.
Definition zero : Vec3 := mkVec3 0 0 0.

Definition add (a b : Vec3) : Vec3 :=
  mkVec3 (vx a + vx b) (vy a + vy b) (vz a + vz b).

Definition subVectors (a b : Vec3) : Vec3 :=
  mkVec3 (vx a - vx b) (vy a - vy b) (vz a - vz b).

Definition multiplyScalar (a : Vec3) (k : Q) : Vec3 :=
  mkVec3 (vx a * k) (vy a * k) (vz a * k).

Definition lengthSq (a : Vec3) : Q :=
  vx a * vx a + vy a * vy a + vz a * vz a.

Definition distanceToSquared (a b : Vec3) : Q := lengthSq (subVectors a b).

(** [a.distanceTo(b) < r]: a distance is never negative, and below a
    positive [r] exactly when its square is below [r * r]. *)
Definition distanceTo_lt (a b : Vec3) (r : Q) : bool :=
  Qltb 0 r && Qltb (distanceToSquared a b) (r * r).

(** [a.distanceTo(b) > r]. *)
Definition distanceTo_gt (a b : Vec3) (r : Q) : bool :=
  Qltb r 0 || Qltb (r * r) (distanceToSquared a b).

(** [a.length() > 0]. *)
Definition length_pos (a : Vec3) : bool := Qltb 0 (lengthSq a).

Definition set_x (x : Q) (a : Vec3) : Vec3 := mkVec3 x (vy a) (vz a).
Definition set_y (y : Q) (a : Vec3) : Vec3 := mkVec3 (vx a) y (vz a).
Definition set_z (z : Q) (a : Vec3) : Vec3 := mkVec3 (vx a) (vy a) z.
End Vector3.

(** ** The host: what the class calls but does not define

    [Math.sin], [Math.cos], [Vector3.normalize] and
    [Vector3.applyAxisAngle] need square roots and trigonometry, which have
    no exact value in [Q].  The embedding takes them from a [Host]. *)

Class Host : Type := mkHost {
  Math_sin : Q -> Q;
  Math_cos : Q -> Q;
  normalize : Vec3 -> Vec3;
  applyAxisAngle : Vec3 -> Vec3 -> Q -> Vec3
}.

(** ** Data model *)

(** The [GameState] table. *)
Inductive GameState : Type :=
  | MENU | PLAYING | PAUSED | PUZZLE | LEVEL_TRANSITION | GAME_OVER | VICTORY.

Global Instance GameState_eq_dec : EqDecision GameState.
Proof. solve_decision. Defined.

(** The [type] strings of collectibles and inventory items. *)
Inductive ItemType : Type := type_health | type_ammo | type_key.

Global Instance ItemType_eq_dec : EqDecision ItemType.
Proof. solve_decision. Defined.

(** An inventory entry [{ type, icon }]; a slot holds one or [null]. *)
Record Item : Type := mkItem { item_type : ItemType; item_icon : string }.

Record Collectible : Type := mkCollectible {
  collectible_position : Vec3;
  collectible_type : ItemType
}.

(** [userData.bounds] of a box platform. *)
Record Bounds : Type := mkBounds { width : Q; height : Q; depth : Q }.

(** A mesh in [this.platforms] with the [userData] tags the collision test
    reads; an absent tag reads as [false] or [None]. *)
Record Platform : Type := mkPlatform {
  platform_position : Vec3;
  isGround : bool;
  isArena : bool;
  bounds : option Bounds
}.

Inductive EnemyType : Type := wolf | spirit.

(** An enemy group with its [userData].  A wolf carries neither [canShoot]
    nor [lastShot]; [lastAttack] is absent until the first bite. *)
Record Enemy : Type := mkEnemy {
  enemy_position : Vec3;
  enemy_health : Z;
  enemy_maxHealth : Z;
  enemy_speed : Q;
  enemy_damage : Z;
  attackRange : Q;
  aggroRange : Q;
  enemy_type : EnemyType;
  canShoot : bool;
  lastShot : option Q;
  enemy_lastAttack : option Q
}.

Record Boss : Type := mkBoss {
  boss_position : Vec3;
  boss_lastAttack : option Q
}.

Record Projectile : Type := mkProjectile {
  projectile_position : Vec3;
  velocity : Vec3;
  isPlayerProjectile : bool;
  isEnemyProjectile : bool;
  damage : Z;
  lifetime : Q;
  spawnTime : Q
}.

(** The two closures stored as [action] of an interactable. *)
Inductive Action : Type := action_tryOpenGate | action_openPuzzle.

Inductive InteractableType : Type := type_gate | type_puzzle.

Record Interactable : Type := mkInteractable {
  interactable_position : Vec3;
  radius : Q;
  interactable_type : InteractableType;
  action : Action
}.

(** The gate door mesh held in [this.exitGate]. *)
Record Gate : Type := mkGate { gate_position : Vec3 }.

(** The player group held in [this.player]. *)
Record Player : Type := mkPlayer { player_position : Vec3 }.

Record CameraRotation : Type := mkCameraRotation { rot_x : Q; rot_y : Q }.

Inductive AnimState : Type := idle | walk.

(** Callbacks the class hands to the browser and that write simulation
    state when they run: the [animate] closure and the two-second timer of
    [openGateAnimation], the one-second timer of a solved puzzle, and the
    game loop itself.  Callbacks that only touch the page (prompts, flashes,
    the level intro) are left out. *)
Inductive Callback : Type :=
  | cb_nextLevel
  | cb_animate (targetY : Q)
  | cb_closePuzzle
  | cb_gameLoop.

(** An entry of the browser's queue; nothing in the class ever cancels
    one. *)
Inductive Deferred : Type :=
  | Timeout (cb : Callback) (ms : Z)
  | AnimationFrame (cb : Callback).

Definition deferred_callback (d : Deferred) : Callback :=
  match d with
  | Timeout cb _ => cb
  | AnimationFrame cb => cb
  end.

(** The [MiaCroftGame] object.  [pending] is the browser's queue of the
    callbacks above, in the order they were handed over. *)
Record Game : Type := mkGame {
  state : GameState;
  currentLevel : Z;
  maxLevels : Z;
  health : Z;
  maxHealth : Z;
  ammo : Z;
  maxAmmo : Z;
  inventory : list (option Item);
  player : option Player;
  playerVelocity : Vec3;
  playerOnGround : bool;
  playerSpeed : Q;
  runMultiplier : Q;
  jumpForce : Q;
  gravity : Q;
  cameraRotation : CameraRotation;
  mouseSensitivity : Q;
  keys : gmap string bool;
  mouseDown : bool;
  pointerLocked : bool;
  platforms : list Platform;
  collectibles : list Collectible;
  enemies : list Enemy;
  interactables : list Interactable;
  projectiles : list Projectile;
  boss : option Boss;
  bossHealth : Z;
  bossMaxHealth : Z;
  puzzleSolved : bool;
  exitGate : option Gate;
  gateOpen : bool;
  animationTime : Q;
  playerAnimState : AnimState;
  shootCooldown : Q;
  lastShootTime : Q;
  pending : list Deferred
}.

Definition set_state (v : GameState) (s : Game) : Game :=
  mkGame v (currentLevel s) (maxLevels s) (health s) (maxHealth s) (ammo s)
    (maxAmmo s) (inventory s) (player s) (playerVelocity s) (playerOnGround s)
    (playerSpeed s) (runMultiplier s) (jumpForce s) (gravity s)
    (cameraRotation s) (mouseSensitivity s) (keys s) (mouseDown s)
    (pointerLocked s) (platforms s) (collectibles s) (enemies s)
    (interactables s) (projectiles s) (boss s) (bossHealth s)
    (bossMaxHealth s) (puzzleSolved s) (exitGate s) (gateOpen s)
    (animationTime s) (playerAnimState s) (shootCooldown s) (lastShootTime s)
    (pending s).

Definition set_currentLevel (v : Z) (s : Game) : Game :=
  mkGame (state s) v (maxLevels s) (health s) (maxHealth s) (ammo s)
    (maxAmmo s) (inventory s) (player s) (playerVelocity s) (playerOnGround s)
    (playerSpeed s) (runMultiplier s) (jumpForce s) (gravity s)
    (cameraRotation s) (mouseSensitivity s) (keys s) (mouseDown s)
    (pointerLocked s) (platforms s) (collectibles s) (enemies s)
    (interactables s) (projectiles s) (boss s) (bossHealth s)
    (bossMaxHealth s) (puzzleSolved s) (exitGate s) (gateOpen s)
    (animationTime s) (playerAnimState s) (shootCooldown s) (lastShootTime s)
    (pending s).

Definition set_health (v : Z) (s : Game) : Game :=
  mkGame (state s) (currentLevel s) (maxLevels s) v (maxHealth s) (ammo s)
    (maxAmmo s) (inventory s) (player s) (playerVelocity s) (playerOnGround s)
    (playerSpeed s) (runMultiplier s) (jumpForce s) (gravity s)
    (cameraRotation s) (mouseSensitivity s) (keys s) (mouseDown s)
    (pointerLocked s) (platforms s) (collectibles s) (enemies s)
    (interactables s) (projectiles s) (boss s) (bossHealth s)
    (bossMaxHealth s) (puzzleSolved s) (exitGate s) (gateOpen s)
    (animationTime s) (playerAnimState s) (shootCooldown s) (lastShootTime s)
    (pending s).

Definition set_ammo (v : Z) (s : Game) : Game :=
  mkGame (state s) (currentLevel s) (maxLevels s) (health s) (maxHealth s) v
    (maxAmmo s) (inventory s) (player s) (playerVelocity s) (playerOnGround s)
    (playerSpeed s) (runMultiplier s) (jumpForce s) (gravity s)
    (cameraRotation s) (mouseSensitivity s) (keys s) (mouseDown s)
    (pointerLocked s) (platforms s) (collectibles s) (enemies s)
    (interactables s) (projectiles s) (boss s) (bossHealth s)
    (bossMaxHealth s) (puzzleSolved s) (exitGate s) (gateOpen s)
    (animationTime s) (playerAnimState s) (shootCooldown s) (lastShootTime s)
    (pending s).

Definition set_inventory (v : list (option Item)) (s : Game) : Game :=
  mkGame (state s) (currentLevel s) (maxLevels s) (health s) (maxHealth s)
    (ammo s) (maxAmmo s) v (player s) (playerVelocity s) (playerOnGround s)
    (playerSpeed s) (runMultiplier s) (jumpForce s) (gravity s)
    (cameraRotation s) (mouseSensitivity s) (keys s) (mouseDown s)
    (pointerLocked s) (platforms s) (collectibles s) (enemies s)
    (interactables s) (projectiles s) (boss s) (bossHealth s)
    (bossMaxHealth s) (puzzleSolved s) (exitGate s) (gateOpen s)
    (animationTime s) (playerAnimState s) (shootCooldown s) (lastShootTime s)
    (pending s).

Definition set_player (v : option Player) (s : Game) : Game :=
  mkGame (state s) (currentLevel s) (maxLevels s) (health s) (maxHealth s)
    (ammo s) (maxAmmo s) (inventory s) v (playerVelocity s) (playerOnGround s)
    (playerSpeed s) (runMultiplier s) (jumpForce s) (gravity s)
    (cameraRotation s) (mouseSensitivity s) (keys s) (mouseDown s)
    (pointerLocked s) (platforms s) (collectibles s) (enemies s)
    (interactables s) (projectiles s) (boss s) (bossHealth s)
    (bossMaxHealth s) (puzzleSolved s) (exitGate s) (gateOpen s)
    (animationTime s) (playerAnimState s) (shootCooldown s) (lastShootTime s)
    (pending s).

Definition set_playerVelocity (v : Vec3) (s : Game) : Game :=
  mkGame (state s) (currentLevel s) (maxLevels s) (health s) (maxHealth s)
    (ammo s) (maxAmmo s) (inventory s) (player s) v (playerOnGround s)
    (playerSpeed s) (runMultiplier s) (jumpForce s) (gravity s)
    (cameraRotation s) (mouseSensitivity s) (keys s) (mouseDown s)
    (pointerLocked s) (platforms s) (collectibles s) (enemies s)
    (interactables s) (projectiles s) (boss s) (bossHealth s)
    (bossMaxHealth s) (puzzleSolved s) (exitGate s) (gateOpen s)
    (animationTime s) (playerAnimState s) (shootCooldown s) (lastShootTime s)
    (pending s).

Definition set_playerOnGround (v : bool) (s : Game) : Game :=
  mkGame (state s) (currentLevel s) (maxLevels s) (health s) (maxHealth s)
    (ammo s) (maxAmmo s) (inventory s) (player s) (playerVelocity s) v
    (playerSpeed s) (runMultiplier s) (jumpForce s) (gravity s)
    (cameraRotation s) (mouseSensitivity s) (keys s) (mouseDown s)
    (pointerLocked s) (platforms s) (collectibles s) (enemies s)
    (interactables s) (projectiles s) (boss s) (bossHealth s)
    (bossMaxHealth s) (puzzleSolved s) (exitGate s) (gateOpen s)
    (animationTime s) (playerAnimState s) (shootCooldown s) (lastShootTime s)
    (pending s).

Definition set_cameraRotation (v : CameraRotation) (s : Game) : Game :=
  mkGame (state s) (currentLevel s) (maxLevels s) (health s) (maxHealth s)
    (ammo s) (maxAmmo s) (inventory s) (player s) (playerVelocity s)
    (playerOnGround s) (playerSpeed s) (runMultiplier s) (jumpForce s)
    (gravity s) v (mouseSensitivity s) (keys s) (mouseDown s)
    (pointerLocked s) (platforms s) (collectibles s) (enemies s)
    (interactables s) (projectiles s) (boss s) (bossHealth s)
    (bossMaxHealth s) (puzzleSolved s) (exitGate s) (gateOpen s)
    (animationTime s) (playerAnimState s) (shootCooldown s) (lastShootTime s)
    (pending s).

Definition set_keys (v : gmap string bool) (s : Game) : Game :=
  mkGame (state s) (currentLevel s) (maxLevels s) (health s) (maxHealth s)
    (ammo s) (maxAmmo s) (inventory s) (player s) (playerVelocity s)
    (playerOnGround s) (playerSpeed s) (runMultiplier s) (jumpForce s)
    (gravity s) (cameraRotation s) (mouseSensitivity s) v (mouseDown s)
    (pointerLocked s) (platforms s) (collectibles s) (enemies s)
    (interactables s) (projectiles s) (boss s) (bossHealth s)
    (bossMaxHealth s) (puzzleSolved s) (exitGate s) (gateOpen s)
    (animationTime s) (playerAnimState s) (shootCooldown s) (lastShootTime s)
    (pending s).

Definition set_mouseDown (v : bool) (s : Game) : Game :=
  mkGame (state s) (currentLevel s) (maxLevels s) (health s) (maxHealth s)
    (ammo s) (maxAmmo s) (inventory s) (player s) (playerVelocity s)
    (playerOnGround s) (playerSpeed s) (runMultiplier s) (jumpForce s)
    (gravity s) (cameraRotation s) (mouseSensitivity s) (keys s) v
    (pointerLocked s) (platforms s) (collectibles s) (enemies s)
    (interactables s) (projectiles s) (boss s) (bossHealth s)
    (bossMaxHealth s) (puzzleSolved s) (exitGate s) (gateOpen s)
    (animationTime s) (playerAnimState s) (shootCooldown s) (lastShootTime s)
    (pending s).

Definition set_pointerLocked (v : bool) (s : Game) : Game :=
  mkGame (state s) (currentLevel s) (maxLevels s) (health s) (maxHealth s)
    (ammo s) (maxAmmo s) (inventory s) (player s) (playerVelocity s)
    (playerOnGround s) (playerSpeed s) (runMultiplier s) (jumpForce s)
    (gravity s) (cameraRotation s) (mouseSensitivity s) (keys s) (mouseDown s)
    v (platforms s) (collectibles s) (enemies s) (interactables s)
    (projectiles s) (boss s) (bossHealth s) (bossMaxHealth s) (puzzleSolved s)
    (exitGate s) (gateOpen s) (animationTime s) (playerAnimState s)
    (shootCooldown s) (lastShootTime s) (pending s).

Definition set_platforms (v : list Platform) (s : Game) : Game :=
  mkGame (state s) (currentLevel s) (maxLevels s) (health s) (maxHealth s)
    (ammo s) (maxAmmo s) (inventory s) (player s) (playerVelocity s)
    (playerOnGround s) (playerSpeed s) (runMultiplier s) (jumpForce s)
    (gravity s) (cameraRotation s) (mouseSensitivity s) (keys s) (mouseDown s)
    (pointerLocked s) v (collectibles s) (enemies s) (interactables s)
    (projectiles s) (boss s) (bossHealth s) (bossMaxHealth s) (puzzleSolved s)
    (exitGate s) (gateOpen s) (animationTime s) (playerAnimState s)
    (shootCooldown s) (lastShootTime s) (pending s).

Definition set_collectibles (v : list Collectible) (s : Game) : Game :=
  mkGame (state s) (currentLevel s) (maxLevels s) (health s) (maxHealth s)
    (ammo s) (maxAmmo s) (inventory s) (player s) (playerVelocity s)
    (playerOnGround s) (playerSpeed s) (runMultiplier s) (jumpForce s)
    (gravity s) (cameraRotation s) (mouseSensitivity s) (keys s) (mouseDown s)
    (pointerLocked s) (platforms s) v (enemies s) (interactables s)
    (projectiles s) (boss s) (bossHealth s) (bossMaxHealth s) (puzzleSolved s)
    (exitGate s) (gateOpen s) (animationTime s) (playerAnimState s)
    (shootCooldown s) (lastShootTime s) (pending s).

Definition set_enemies (v : list Enemy) (s : Game) : Game :=
  mkGame (state s) (currentLevel s) (maxLevels s) (health s) (maxHealth s)
    (ammo s) (maxAmmo s) (inventory s) (player s) (playerVelocity s)
    (playerOnGround s) (playerSpeed s) (runMultiplier s) (jumpForce s)
    (gravity s) (cameraRotation s) (mouseSensitivity s) (keys s) (mouseDown s)
    (pointerLocked s) (platforms s) (collectibles s) v (interactables s)
    (projectiles s) (boss s) (bossHealth s) (bossMaxHealth s) (puzzleSolved s)
    (exitGate s) (gateOpen s) (animationTime s) (playerAnimState s)
    (shootCooldown s) (lastShootTime s) (pending s).

Definition set_interactables (v : list Interactable) (s : Game) : Game :=
  mkGame (state s) (currentLevel s) (maxLevels s) (health s) (maxHealth s)
    (ammo s) (maxAmmo s) (inventory s) (player s) (playerVelocity s)
    (playerOnGround s) (playerSpeed s) (runMultiplier s) (jumpForce s)
    (gravity s) (cameraRotation s) (mouseSensitivity s) (keys s) (mouseDown s)
    (pointerLocked s) (platforms s) (collectibles s) (enemies s) v
    (projectiles s) (boss s) (bossHealth s) (bossMaxHealth s) (puzzleSolved s)
    (exitGate s) (gateOpen s) (animationTime s) (playerAnimState s)
    (shootCooldown s) (lastShootTime s) (pending s).

Definition set_projectiles (v : list Projectile) (s : Game) : Game :=
  mkGame (state s) (currentLevel s) (maxLevels s) (health s) (maxHealth s)
    (ammo s) (maxAmmo s) (inventory s) (player s) (playerVelocity s)
    (playerOnGround s) (playerSpeed s) (runMultiplier s) (jumpForce s)
    (gravity s) (cameraRotation s) (mouseSensitivity s) (keys s) (mouseDown s)
    (pointerLocked s) (platforms s) (collectibles s) (enemies s)
    (interactables s) v (boss s) (bossHealth s) (bossMaxHealth s)
    (puzzleSolved s) (exitGate s) (gateOpen s) (animationTime s)
    (playerAnimState s) (shootCooldown s) (lastShootTime s) (pending s).

Definition set_boss (v : option Boss) (s : Game) : Game :=
  mkGame (state s) (currentLevel s) (maxLevels s) (health s) (maxHealth s)
    (ammo s) (maxAmmo s) (inventory s) (player s) (playerVelocity s)
    (playerOnGround s) (playerSpeed s) (runMultiplier s) (jumpForce s)
    (gravity s) (cameraRotation s) (mouseSensitivity s) (keys s) (mouseDown s)
    (pointerLocked s) (platforms s) (collectibles s) (enemies s)
    (interactables s) (projectiles s) v (bossHealth s) (bossMaxHealth s)
    (puzzleSolved s) (exitGate s) (gateOpen s) (animationTime s)
    (playerAnimState s) (shootCooldown s) (lastShootTime s) (pending s).

Definition set_bossHealth (v : Z) (s : Game) : Game :=
  mkGame (state s) (currentLevel s) (maxLevels s) (health s) (maxHealth s)
    (ammo s) (maxAmmo s) (inventory s) (player s) (playerVelocity s)
    (playerOnGround s) (playerSpeed s) (runMultiplier s) (jumpForce s)
    (gravity s) (cameraRotation s) (mouseSensitivity s) (keys s) (mouseDown s)
    (pointerLocked s) (platforms s) (collectibles s) (enemies s)
    (interactables s) (projectiles s) (boss s) v (bossMaxHealth s)
    (puzzleSolved s) (exitGate s) (gateOpen s) (animationTime s)
    (playerAnimState s) (shootCooldown s) (lastShootTime s) (pending s).

Definition set_puzzleSolved (v : bool) (s : Game) : Game :=
  mkGame (state s) (currentLevel s) (maxLevels s) (health s) (maxHealth s)
    (ammo s) (maxAmmo s) (inventory s) (player s) (playerVelocity s)
    (playerOnGround s) (playerSpeed s) (runMultiplier s) (jumpForce s)
    (gravity s) (cameraRotation s) (mouseSensitivity s) (keys s) (mouseDown s)
    (pointerLocked s) (platforms s) (collectibles s) (enemies s)
    (interactables s) (projectiles s) (boss s) (bossHealth s)
    (bossMaxHealth s) v (exitGate s) (gateOpen s) (animationTime s)
    (playerAnimState s) (shootCooldown s) (lastShootTime s) (pending s).

Definition set_exitGate (v : option Gate) (s : Game) : Game :=
  mkGame (state s) (currentLevel s) (maxLevels s) (health s) (maxHealth s)
    (ammo s) (maxAmmo s) (inventory s) (player s) (playerVelocity s)
    (playerOnGround s) (playerSpeed s) (runMultiplier s) (jumpForce s)
    (gravity s) (cameraRotation s) (mouseSensitivity s) (keys s) (mouseDown s)
    (pointerLocked s) (platforms s) (collectibles s) (enemies s)
    (interactables s) (projectiles s) (boss s) (bossHealth s)
    (bossMaxHealth s) (puzzleSolved s) v (gateOpen s) (animationTime s)
    (playerAnimState s) (shootCooldown s) (lastShootTime s) (pending s).

Definition set_gateOpen (v : bool) (s : Game) : Game :=
  mkGame (state s) (currentLevel s) (maxLevels s) (health s) (maxHealth s)
    (ammo s) (maxAmmo s) (inventory s) (player s) (playerVelocity s)
    (playerOnGround s) (playerSpeed s) (runMultiplier s) (jumpForce s)
    (gravity s) (cameraRotation s) (mouseSensitivity s) (keys s) (mouseDown s)
    (pointerLocked s) (platforms s) (collectibles s) (enemies s)
    (interactables s) (projectiles s) (boss s) (bossHealth s)
    (bossMaxHealth s) (puzzleSolved s) (exitGate s) v (animationTime s)
    (playerAnimState s) (shootCooldown s) (lastShootTime s) (pending s).

Definition set_animationTime (v : Q) (s : Game) : Game :=
  mkGame (state s) (currentLevel s) (maxLevels s) (health s) (maxHealth s)
    (ammo s) (maxAmmo s) (inventory s) (player s) (playerVelocity s)
    (playerOnGround s) (playerSpeed s) (runMultiplier s) (jumpForce s)
    (gravity s) (cameraRotation s) (mouseSensitivity s) (keys s) (mouseDown s)
    (pointerLocked s) (platforms s) (collectibles s) (enemies s)
    (interactables s) (projectiles s) (boss s) (bossHealth s)
    (bossMaxHealth s) (puzzleSolved s) (exitGate s) (gateOpen s) v
    (playerAnimState s) (shootCooldown s) (lastShootTime s) (pending s).

Definition set_playerAnimState (v : AnimState) (s : Game) : Game :=
  mkGame (state s) (currentLevel s) (maxLevels s) (health s) (maxHealth s)
    (ammo s) (maxAmmo s) (inventory s) (player s) (playerVelocity s)
    (playerOnGround s) (playerSpeed s) (runMultiplier s) (jumpForce s)
    (gravity s) (cameraRotation s) (mouseSensitivity s) (keys s) (mouseDown s)
    (pointerLocked s) (platforms s) (collectibles s) (enemies s)
    (interactables s) (projectiles s) (boss s) (bossHealth s)
    (bossMaxHealth s) (puzzleSolved s) (exitGate s) (gateOpen s)
    (animationTime s) v (shootCooldown s) (lastShootTime s) (pending s).

Definition set_lastShootTime (v : Q) (s : Game) : Game :=
  mkGame (state s) (currentLevel s) (maxLevels s) (health s) (maxHealth s)
    (ammo s) (maxAmmo s) (inventory s) (player s) (playerVelocity s)
    (playerOnGround s) (playerSpeed s) (runMultiplier s) (jumpForce s)
    (gravity s) (cameraRotation s) (mouseSensitivity s) (keys s) (mouseDown s)
    (pointerLocked s) (platforms s) (collectibles s) (enemies s)
    (interactables s) (projectiles s) (boss s) (bossHealth s)
    (bossMaxHealth s) (puzzleSolved s) (exitGate s) (gateOpen s)
    (animationTime s) (playerAnimState s) (shootCooldown s) v (pending s).

Definition set_pending (v : list Deferred) (s : Game) : Game :=
  mkGame (state s) (currentLevel s) (maxLevels s) (health s) (maxHealth s)
    (ammo s) (maxAmmo s) (inventory s) (player s) (playerVelocity s)
    (playerOnGround s) (playerSpeed s) (runMultiplier s) (jumpForce s)
    (gravity s) (cameraRotation s) (mouseSensitivity s) (keys s) (mouseDown s)
    (pointerLocked s) (platforms s) (collectibles s) (enemies s)
    (interactables s) (projectiles s) (boss s) (bossHealth s)
    (bossMaxHealth s) (puzzleSolved s) (exitGate s) (gateOpen s)
    (animationTime s) (playerAnimState s) (shootCooldown s) (lastShootTime s)
    v.

Local Open Scope Q_scope.

(** ** Construction *)

(** The field initialisers of [constructor]; the queue starts empty. *)
Definition constructor : Game :=
  mkGame MENU 1 3 100 100 30 30 [None; None; None]
    None Vector3.zero false 8 1.8 12 25
    (mkCameraRotation 0 0) 0.002 ∅ false false
    [] [] [] [] []
    None 100 100
    false None false
    0 idle 0.25 0
    [].

(** [setTimeout(cb, ms)] and [requestAnimationFrame(cb)]. *)
Definition setTimeout (cb : Callback) (ms : Z) (s : Game) : Game :=
  set_pending (pending s ++ [Timeout cb ms]) s.

Definition requestAnimationFrame (cb : Callback) (s : Game) : Game :=
  set_pending (pending s ++ [AnimationFrame cb]) s.

(** ** End states and damage *)

Definition gameOver (s : Game) : Game := set_state GAME_OVER s.

Definition victory (s : Game) : Game := set_state VICTORY s.

Definition takeDamage (amount : Z) (s : Game) : Game :=
  let s := set_health (health s - amount) s in
  if (health s <=? 0)%Z then gameOver s else s.

Definition resetPlayer (s : Game) : Game :=
  let s := set_health (maxHealth s) s in
  let s := set_playerVelocity Vector3.zero s in
  set_playerOnGround false s.

(** ** Inventory and pickups *)

(** [item && item.type === 'key'] *)
Definition is_key (slot : option Item) : bool :=
  match slot with
  | Some item => bool_decide (item_type item = type_key)
  | None => false
  end.

(** [Array.prototype.findIndex], with [None] for [-1]. *)
Fixpoint findIndex {A : Type} (f : A -> bool) (l : list A) : option nat :=
  match l with
  | [] => None
  | x :: l' => if f x then Some 0%nat else S <$> findIndex f l'
  end.

(** The slot loop of [collectItem]: the key goes into the first empty slot,
    and nowhere when there is none. *)
Fixpoint store_key (slots : list (option Item)) : list (option Item) :=
  match slots with
  | [] => []
  | None :: rest => Some (mkItem type_key "K") :: rest
  | Some item :: rest => Some item :: store_key rest
  end.

(** [collectItem(collectible)].  The argument is given by its index in
    [this.collectibles], which is what [indexOf] recovers; an object that is
    not in the array ([indexOf] = -1) changes nothing here, the only caller
    passes [this.collectibles[i]]. *)
Definition collectItem (idx : nat) (s : Game) : Game :=
  match collectibles s !! idx with
  | None => s
  | Some collectible =>
      let s :=
        match collectible_type collectible with
        | type_health => set_health (Z.min (health s + 25) (maxHealth s)) s
        | type_ammo => set_ammo (Z.min (ammo s + 10) (maxAmmo s)) s
        | type_key => set_inventory (store_key (inventory s)) s
        end in
      set_collectibles (delete idx (collectibles s)) s
  end.

(** ** The exit gate *)

(** The [animate] closure of [openGateAnimation].  It reads
    [this.exitGate] when it runs, not when it was created; on [null] the
    property access throws ([None]). *)
Definition animate (targetY : Q) (s : Game) : option Game :=
  gate ← exitGate s;
  if Qltb (vy (gate_position gate)) targetY then
    let gate' :=
      mkGate (Vector3.set_y (vy (gate_position gate) + 0.1)
                (gate_position gate)) in
    Some (requestAnimationFrame (cb_animate targetY)
            (set_exitGate (Some gate') s))
  else Some s.

Definition openGateAnimation (s : Game) : option Game :=
  match exitGate s with
  | Some gate =>
      let targetY := vy (gate_position gate) + 5 in
      s ← animate targetY s;
      Some (setTimeout cb_nextLevel 2000 s)
  | None => Some s
  end.

Definition tryOpenGate (s : Game) : option Game :=
  if (currentLevel s =? 1)%Z then
    let hasKey := existsb is_key (inventory s) in
    if hasKey then
      let s := set_gateOpen true s in
      s ← openGateAnimation s;
      let keyIndex := findIndex is_key (inventory s) in
      Some match keyIndex with
           | Some k => set_inventory (<[k := None]> (inventory s)) s
           | None => s
           end
    else Some s
  else if (currentLevel s =? 2)%Z then
    if puzzleSolved s then
      let s := set_gateOpen true s in
      openGateAnimation s
    else Some s
  else Some s.

(** ** The puzzle, as far as the simulation sees it *)

Definition openPuzzle (s : Game) : Game :=
  if puzzleSolved s then s else set_state PUZZLE s.

Definition closePuzzle (s : Game) : Game := set_state PLAYING s.

(** The click that completes the right pattern in the puzzle grid. *)
Definition puzzle_click_correct (s : Game) : Game :=
  setTimeout cb_closePuzzle 1000 (set_puzzleSolved true s).

Definition run_action (a : Action) (s : Game) : option Game :=
  match a with
  | action_tryOpenGate => tryOpenGate s
  | action_openPuzzle => Some (openPuzzle s)
  end.

Definition tryInteract (s : Game) : option Game :=
  p ← player s;
  let playerPos := player_position p in
  match List.find (fun i => Vector3.distanceTo_lt playerPos
                              (interactable_position i) (radius i))
          (interactables s) with
  | Some interactable => run_action (action interactable) s
  | None => Some s
  end.

(** ** Level content *)

Definition clearLevel (s : Game) : Game :=
  let s := set_platforms [] s in
  let s := set_collectibles [] s in
  let s := set_enemies [] s in
  let s := set_interactables [] s in
  let s := set_projectiles [] s in
  let s := set_player None s in
  let s := set_boss None s in
  set_exitGate None s.

Definition createSnowGround (s : Game) : Game :=
  set_platforms (platforms s ++ [mkPlatform Vector3.zero true false None]) s.

Definition createPlayer (s : Game) : Game :=
  set_player (Some (mkPlayer (mkVec3 0 1 0))) s.

(** [this.player.position.set(x, y, z)] in the level builders; [loadLevel]
    has run [createPlayer] just before, so the player is there. *)
Definition player_position_set (x y z : Q) (s : Game) : Game :=
  match player s with
  | Some _ => set_player (Some (mkPlayer (mkVec3 x y z))) s
  | None => s
  end.

Definition createIcePlatform (x y z w h d : Q) (s : Game) : Game :=
  set_platforms
    (platforms s ++
     [mkPlatform (mkVec3 x y z) false false (Some (mkBounds w h d))]) s.

Definition createCollectible (x y z : Q) (type : ItemType) (s : Game) : Game :=
  set_collectibles (collectibles s ++ [mkCollectible (mkVec3 x y z) type]) s.

Definition createSnowWolf (x y z : Q) (s : Game) : Game :=
  set_enemies
    (enemies s ++
     [mkEnemy (mkVec3 x y z) 30 30 4 10 2 15 wolf false None None]) s.

Definition createIceSpirit (x y z : Q) (s : Game) : Game :=
  set_enemies
    (enemies s ++
     [mkEnemy (mkVec3 x y z) 20 20 3 15 8 20 spirit true (Some 0) None]) s.

Definition createExitGate (x y z : Q) (s : Game) : Game :=
  let s := set_exitGate (Some (mkGate (mkVec3 x (y + 2.5) z))) s in
  set_interactables
    (interactables s ++
     [mkInteractable (mkVec3 x (y + 2) z) 3 type_gate action_tryOpenGate]) s.

Definition createKeyArea (s : Game) : Game :=
  let s := createIcePlatform (-10) 2 5 3 0.5 3 s in
  let s := createIcePlatform (-18) 3.5 8 3 0.5 3 s in
  let s := createIcePlatform (-25) 5 5 4 0.5 4 s in
  let s := createCollectible (-25) 6.5 5 type_key s in
  createSnowWolf (-22) 1 8 s.

Definition createLevel1 (s : Game) : Game :=
  let s := player_position_set 0 1 0 s in
  let s := createIcePlatform 5 1.5 (-10) 4 0.5 4 s in
  let s := createIcePlatform 12 3 (-15) 4 0.5 4 s in
  let s := createIcePlatform 18 4.5 (-10) 4 0.5 4 s in
  let s := createIcePlatform 25 6 (-15) 5 0.5 5 s in
  let s := createCollectible 5 3 (-10) type_ammo s in
  let s := createCollectible 12 4.5 (-15) type_health s in
  let s := createCollectible 18 6 (-10) type_ammo s in
  let s := createKeyArea s in
  let s := createExitGate 35 0 (-15) s in
  let s := createSnowWolf (-8) 1 (-5) s in
  createSnowWolf 10 1 5 s.

(** The base slab of [createTemple] is the only part that is a platform. *)
Definition createTemple (s : Game) : Game :=
  set_platforms
    (platforms s ++
     [mkPlatform (mkVec3 0 3.5 (-30)) false false (Some (mkBounds 20 1 30))])
    s.

Definition createPuzzleAltar (x y z : Q) (s : Game) : Game :=
  set_interactables
    (interactables s ++
     [mkInteractable (mkVec3 x (y + 1) z) 3 type_puzzle action_openPuzzle]) s.

Definition createLevel2 (s : Game) : Game :=
  let s := player_position_set 0 1 0 s in
  let s := createTemple s in
  let s := createIcePlatform 0 1 (-8) 6 0.5 6 s in
  let s := createIcePlatform 8 2.5 (-15) 5 0.5 5 s in
  let s := createIcePlatform 0 4 (-25) 8 0.5 8 s in
  let s := createCollectible 0 2.5 (-8) type_ammo s in
  let s := createCollectible 8 4 (-15) type_health s in
  let s := createIceSpirit (-10) 2 (-20) s in
  let s := createIceSpirit 15 2 (-30) s in
  let s := createPuzzleAltar 0 4.5 (-25) s in
  createExitGate 0 4 (-40) s.

Definition createBoss (s : Game) : Game :=
  let s := set_boss (Some (mkBoss (mkVec3 0 1 (-10)) None)) s in
  set_bossHealth (bossMaxHealth s) s.

(** ** In-place updates of the objects held in the arrays *)

Definition set_enemy_position (v : Vec3) (e : Enemy) : Enemy :=
  mkEnemy v (enemy_health e) (enemy_maxHealth e) (enemy_speed e)
    (enemy_damage e) (attackRange e) (aggroRange e) (enemy_type e)
    (canShoot e) (lastShot e) (enemy_lastAttack e).

Definition set_enemy_health (v : Z) (e : Enemy) : Enemy :=
  mkEnemy (enemy_position e) v (enemy_maxHealth e) (enemy_speed e)
    (enemy_damage e) (attackRange e) (aggroRange e) (enemy_type e)
    (canShoot e) (lastShot e) (enemy_lastAttack e).

Definition set_lastShot (v : option Q) (e : Enemy) : Enemy :=
  mkEnemy (enemy_position e) (enemy_health e) (enemy_maxHealth e)
    (enemy_speed e) (enemy_damage e) (attackRange e) (aggroRange e)
    (enemy_type e) (canShoot e) v (enemy_lastAttack e).

Definition set_enemy_lastAttack (v : option Q) (e : Enemy) : Enemy :=
  mkEnemy (enemy_position e) (enemy_health e) (enemy_maxHealth e)
    (enemy_speed e) (enemy_damage e) (attackRange e) (aggroRange e)
    (enemy_type e) (canShoot e) (lastShot e) v.

Definition set_projectile_position (v : Vec3) (p : Projectile) : Projectile :=
  mkProjectile v (velocity p) (isPlayerProjectile p) (isEnemyProjectile p)
    (damage p) (lifetime p) (spawnTime p).

Definition set_collectible_position (v : Vec3) (c : Collectible)
  : Collectible :=
  mkCollectible v (collectible_type c).

(** [this.keys[code]] read as a condition.  [this.keys] is a plain object:
    this is its reading for a [code] that is not a property name of
    [Object.prototype], as the codes of keyboard events are. *)
Definition key_down (code : string) (s : Game) : bool :=
  match keys s !! code with
  | Some b => b
  | None => false
  end.

(** ** Platform collision *)

(** [checkPlatformCollision(platform)]: the returned flag and the state it
    leaves.  The player is only read after the tag tests. *)
Definition checkPlatformCollision (platform : Platform) (s : Game)
  : option (bool * Game) :=
  if isGround platform then Some (false, s) else
  if isArena platform then
    p ← player s;
    let pos := player_position p in
    (* Math.sqrt(x ** 2 + z ** 2) < 25 *)
    if Qltb (vx pos * vx pos + vz pos * vz pos) (25 * 25)
       && Qltb (vy pos) 2 && Qgtb (vy pos) 0 then
      if Qltb (vy (playerVelocity s)) 0 then
        let s := set_player (Some (mkPlayer (Vector3.set_y 2 pos))) s in
        let s := set_playerVelocity (Vector3.set_y 0 (playerVelocity s)) s in
        let s := set_playerOnGround true s in
        Some (true, s)
      else Some (false, s)
    else Some (false, s)
  else
  match bounds platform with
  | None => Some (false, s)
  | Some bounds =>
      let pPos := platform_position platform in
      p ← player s;
      let playerPos := player_position p in
      let halfWidth := width bounds / 2 in
      let halfDepth := depth bounds / 2 in
      let platformTop := vy pPos + height bounds / 2 in
      if Qgtb (vx playerPos) (vx pPos - halfWidth)
         && Qltb (vx playerPos) (vx pPos + halfWidth)
         && Qgtb (vz playerPos) (vz pPos - halfDepth)
         && Qltb (vz playerPos) (vz pPos + halfDepth) then
        if Qltb (vy playerPos) (platformTop + 1)
           && Qgtb (vy playerPos) (platformTop - 0.5) then
          if Qltb (vy (playerVelocity s)) 0 then
            let s :=
              set_player
                (Some (mkPlayer (Vector3.set_y (platformTop + 1) playerPos)))
                s in
            let s :=
              set_playerVelocity (Vector3.set_y 0 (playerVelocity s)) s in
            let s := set_playerOnGround true s in
            Some (true, s)
          else Some (false, s)
        else Some (false, s)
      else Some (false, s)
  end.

(** The platform loop of [updatePlayer]:
    [for (const platform of this.platforms)
       if (this.checkPlatformCollision(platform)) break;] *)
Fixpoint platform_loop (ps : list Platform) (s : Game) : option Game :=
  match ps with
  | [] => Some s
  | platform :: rest =>
      match checkPlatformCollision platform s with
      | None => None
      | Some (landed, s) => if landed then Some s else platform_loop rest s
      end
  end.

(** ** Projectiles *)

(** One turn of the loop of [updateProjectiles], at index [i].  [proj] is
    the object read at the top of the turn; the later tests keep using it
    after it has been spliced out. *)
Definition updateProjectiles_turn (delta now : Q) (i : nat) (s : Game)
  : option Game :=
  proj ← projectiles s !! i;
  (* Move projectile *)
  let proj :=
    set_projectile_position
      (Vector3.add (projectile_position proj)
         (Vector3.multiplyScalar (velocity proj) delta)) proj in
  let s := set_projectiles (<[i := proj]> (projectiles s)) s in
  (* Check lifetime *)
  if Qgtb (now - spawnTime proj) (lifetime proj) then
    Some (set_projectiles (delete i (projectiles s)) s)
  else
  (* Player projectile hits *)
  let s :=
    if isPlayerProjectile proj then
      let s :=
        match findIndex
                (fun enemy => Vector3.distanceTo_lt (projectile_position proj)
                                (enemy_position enemy) 1.5)
                (enemies s) with
        | Some j =>
            let s :=
              set_enemies
                (alter (fun enemy =>
                          set_enemy_health
                            (enemy_health enemy - damage proj) enemy)
                   j (enemies s)) s in
            set_projectiles (delete i (projectiles s)) s
        | None => s
        end in
      match boss s with
      | Some b =>
          if Vector3.distanceTo_lt (projectile_position proj)
               (boss_position b) 3 then
            let s := set_bossHealth (bossHealth s - damage proj) s in
            set_projectiles (delete i (projectiles s)) s
          else s
      | None => s
      end
    else s in
  (* Enemy projectile hits player *)
  if isEnemyProjectile proj then
    p ← player s;
    if Vector3.distanceTo_lt (projectile_position proj) (player_position p) 1
    then
      let s := takeDamage (damage proj) s in
      Some (set_projectiles (delete i (projectiles s)) s)
    else Some s
  else Some s.

(** [for (let i = n - 1; i >= 0; i--)] with the given turn. *)
Fixpoint downward (turn : nat -> Game -> option Game) (n : nat) (s : Game)
  : option Game :=
  match n with
  | O => Some s
  | S i => s ← turn i s; downward turn i s
  end.

Definition updateProjectiles (delta now : Q) (s : Game) : option Game :=
  downward (updateProjectiles_turn delta now) (length (projectiles s)) s.

(** ** Pickups in range *)

Section WithHost.
Context `{Host}.

Definition updateCollectibles_turn (playerPos : Vec3) (i : nat) (s : Game)
  : option Game :=
  collectible ← collectibles s !! i;
  let pos := collectible_position collectible in
  let collectible :=
    set_collectible_position
      (Vector3.set_y
         (vy pos + Math_sin (animationTime s * 3 + inject_Z (Z.of_nat i))
                   * 0.002) pos) collectible in
  let s := set_collectibles (<[i := collectible]> (collectibles s)) s in
  if Vector3.distanceTo_lt playerPos (collectible_position collectible) 1.5
  then Some (collectItem i s)
  else Some s.

Definition updateCollectibles (s : Game) : option Game :=
  p ← player s;
  downward (updateCollectibles_turn (player_position p))
    (length (collectibles s)) s.

(** ** Levels *)

Definition createBossArena (s : Game) : Game :=
  let s :=
    set_platforms (platforms s ++ [mkPlatform Vector3.zero false true None])
      s in
  let cover (i : Z) (s : Game) : Game :=
    let angle := (inject_Z i / 4) * Math_PI * 2 + Math_PI / 4 in
    createIcePlatform (Math_cos angle * 12) 1.5 (Math_sin angle * 12)
      4 3 4 s in
  cover 3%Z (cover 2%Z (cover 1%Z (cover 0%Z s))).

Definition createLevel3 (s : Game) : Game :=
  let s := player_position_set 0 1 30 s in
  let s :=
    set_cameraRotation
      (mkCameraRotation (rot_x (cameraRotation s)) Math_PI) s in
  let s := createBossArena s in
  let s := createBoss s in
  let s := createCollectible (-15) 1.5 0 type_health s in
  let s := createCollectible 15 1.5 0 type_health s in
  let s := createCollectible (-10) 1.5 15 type_ammo s in
  let s := createCollectible 10 1.5 15 type_ammo s in
  createCollectible 0 1.5 (-15) type_ammo s.

Definition loadLevel (levelNum : Z) (s : Game) : Game :=
  let s := clearLevel s in
  let s := set_puzzleSolved false s in
  let s := set_gateOpen false s in
  let s := createSnowGround s in
  let s := createPlayer s in
  if (levelNum =? 1)%Z then createLevel1 s
  else if (levelNum =? 2)%Z then createLevel2 s
  else if (levelNum =? 3)%Z then createLevel3 s
  else s.

Definition nextLevel (s : Game) : Game :=
  let s := set_currentLevel (currentLevel s + 1) s in
  if (currentLevel s >? maxLevels s)%Z then victory s
  else loadLevel (currentLevel s) s.

Definition checkLevelCompletion (s : Game) : option Game :=
  match exitGate s with
  | None => Some s
  | Some gate =>
      if negb (gateOpen s) then Some s else
      let gatePos := gate_position gate in
      p ← player s;
      let playerPos := player_position p in
      if Vector3.distanceTo_lt playerPos gatePos 3
      then Some (nextLevel s)
      else Some s
  end.

(** ** Shooting *)

Definition shoot (now : Q) (s : Game) : option Game :=
  if Qltb (now - lastShootTime s) (shootCooldown s) then Some s else
  if (ammo s <=? 0)%Z then Some s else
  let s := set_lastShootTime now s in
  let s := set_ammo (ammo s - 1) s in
  (* Shoot from player position in camera direction *)
  let direction :=
    applyAxisAngle
      (applyAxisAngle (mkVec3 0 0 (-1)) (mkVec3 1 0 0)
         (rot_x (cameraRotation s)))
      (mkVec3 0 1 0) (rot_y (cameraRotation s)) in
  p ← player s;
  let pos := player_position p in
  let projectile :=
    mkProjectile (Vector3.set_y (vy pos + 1.5) pos)
      (Vector3.multiplyScalar direction 50) true false 10 2 now in
  Some (set_projectiles (projectiles s ++ [projectile]) s).

(** ** The player *)

Definition updatePlayer (delta : Q) (s : Game) : option Game :=
  match player s with
  | None => Some s
  | Some p =>
      (* Movement input *)
      let mz := (if key_down "KeyW" s then - (1) else 0)
                + (if key_down "KeyS" s then 1 else 0) in
      let mx := (if key_down "KeyA" s then - (1) else 0)
                + (if key_down "KeyD" s then 1 else 0) in
      let moveDir :=
        applyAxisAngle (mkVec3 mx 0 mz) (mkVec3 0 1 0)
          (rot_y (cameraRotation s)) in
      (* Running *)
      let speed :=
        if key_down "ShiftLeft" s || key_down "ShiftRight" s
        then playerSpeed s * runMultiplier s
        else playerSpeed s in
      (* Apply movement *)
      let v := playerVelocity s in
      let s :=
        if Vector3.length_pos moveDir then
          let moveDir := normalize moveDir in
          let s :=
            set_playerVelocity
              (mkVec3 (vx moveDir * speed) (vy v) (vz moveDir * speed)) s in
          set_playerAnimState walk s
        else
          let s :=
            set_playerVelocity (mkVec3 (vx v * 0.8) (vy v) (vz v * 0.8)) s in
          set_playerAnimState idle s in
      (* Jump *)
      let s :=
        if key_down "Space" s && playerOnGround s then
          let s :=
            set_playerVelocity
              (Vector3.set_y (jumpForce s) (playerVelocity s)) s in
          set_playerOnGround false s
        else s in
      (* Gravity *)
      let v := playerVelocity s in
      let s :=
        set_playerVelocity (Vector3.set_y (vy v - gravity s * delta) v) s in
      (* Apply velocity *)
      let v := playerVelocity s in
      let pos := player_position p in
      let s :=
        set_player
          (Some (mkPlayer (mkVec3 (vx pos + vx v * delta)
                             (vy pos + vy v * delta)
                             (vz pos + vz v * delta)))) s in
      (* Ground collision *)
      let s := set_playerOnGround false s in
      s ← platform_loop (platforms s) s;
      (* Ground level *)
      p ← player s;
      let pos := player_position p in
      if Qltb (vy pos) 1 then
        let s := set_player (Some (mkPlayer (Vector3.set_y 1 pos))) s in
        let s :=
          set_playerVelocity (Vector3.set_y 0 (playerVelocity s)) s in
        Some (set_playerOnGround true s)
      else Some s
  end.

(** ** Enemies *)

Definition enemyShoot (enemy : Enemy) (direction : Vec3) (now : Q)
  (s : Game) : Game :=
  let pos := enemy_position enemy in
  let projectile :=
    mkProjectile (Vector3.set_y (vy pos + 1.5) pos)
      (Vector3.multiplyScalar direction 20) false true
      (enemy_damage enemy) 3 now in
  set_projectiles (projectiles s ++ [projectile]) s.

(** One turn of the loop of [updateEnemies].  The enemy object is changed
    in place; its new fields are written back at the end of the turn. *)
Definition updateEnemies_turn (delta now : Q) (playerPos : Vec3) (i : nat)
  (s : Game) : option Game :=
  enemy ← enemies s !! i;
  let enemyPos := enemy_position enemy in
  (* Check if dead *)
  if (enemy_health enemy <=? 0)%Z then
    Some (set_enemies (delete i (enemies s)) s)
  else
  let '(enemy, s) :=
    (* Aggro behavior *)
    if Vector3.distanceTo_lt playerPos enemyPos (aggroRange enemy) then
      let direction := normalize (Vector3.subVectors playerPos enemyPos) in
      let enemy :=
        if Vector3.distanceTo_gt playerPos enemyPos (attackRange enemy) then
          set_enemy_position
            (mkVec3 (vx enemyPos + vx direction * enemy_speed enemy * delta)
               (vy enemyPos)
               (vz enemyPos + vz direction * enemy_speed enemy * delta))
            enemy
        else enemy in
      (* Attack *)
      if Vector3.distanceTo_lt playerPos enemyPos (attackRange enemy) then
        match enemy_type enemy with
        | spirit =>
            if canShoot enemy then
              match lastShot enemy with
              | Some t =>
                  if Qgtb (now - t) 2 then
                    (set_lastShot (Some now) enemy,
                     enemyShoot enemy direction now s)
                  else (enemy, s)
              | None => (enemy, s)
              end
            else (enemy, s)
        | wolf =>
            (* Melee attack *)
            if negb (truthy (enemy_lastAttack enemy))
               || match enemy_lastAttack enemy with
                  | Some t => Qgtb (now - t) 1
                  | None => false
                  end then
              (set_enemy_lastAttack (Some now) enemy,
               takeDamage (enemy_damage enemy) s)
            else (enemy, s)
        end
      else (enemy, s)
    else (enemy, s) in
  (* Float animation for spirits *)
  let enemy :=
    match enemy_type enemy with
    | spirit =>
        set_enemy_position
          (Vector3.set_y (2 + Math_sin (now * 2) * 0.3)
             (enemy_position enemy)) enemy
    | wolf => enemy
    end in
  Some (set_enemies (<[i := enemy]> (enemies s)) s).

Definition updateEnemies (delta now : Q) (s : Game) : option Game :=
  p ← player s;
  downward (updateEnemies_turn delta now (player_position p))
    (length (enemies s)) s.

(** ** The boss *)

(** [this.bossHealth / this.bossMaxHealth].  [bossMaxHealth] is 100 from
    the constructor on; the quotient in [Q] is the JavaScript one as long as
    the divisor is not 0. *)
Definition healthPercent (s : Game) : Q :=
  inject_Z (bossHealth s) / inject_Z (bossMaxHealth s).

(** [if (!this.boss.userData.lastAttack) this.boss.userData.lastAttack = 0;]
    and the value read afterwards. *)
Definition lastAttack_or_0 (b : Boss) : Q :=
  match boss_lastAttack b with
  | Some t => if truthy (Some t) then t else 0
  | None => 0
  end.

(** [const attackCooldown = healthPercent > 0.5 ? 2 : 1;] *)
Definition attackCooldown (healthPercent : Q) : Q :=
  if Qgtb healthPercent 0.5 then 2 else 1.

Definition bossGroundSlam (s : Game) : option Game :=
  b ← boss s;
  p ← player s;
  (* Damage player if close *)
  if Vector3.distanceTo_lt (player_position p) (boss_position b) 8
  then Some (takeDamage 20 s)
  else Some s.

Definition bossIceAttack (direction : Vec3) (now : Q) (s : Game)
  : option Game :=
  b ← boss s;
  let pos := boss_position b in
  let shard (i : Z) (s : Game) : Game :=
    let dir := applyAxisAngle direction (mkVec3 0 1 0) (inject_Z i * 0.2) in
    let projectile :=
      mkProjectile (Vector3.set_y (vy pos + 5) pos)
        (Vector3.multiplyScalar dir 25) false true 15 3 now in
    set_projectiles (projectiles s ++ [projectile]) s in
  Some (shard 1%Z (shard 0%Z (shard (-1)%Z s))).

Definition updateBoss (delta now : Q) (s : Game) : option Game :=
  match boss s with
  | None => Some s
  | Some b =>
      if negb (currentLevel s =? 3)%Z then Some s else
      p ← player s;
      let playerPos := player_position p in
      let bossPos := boss_position b in
      (* Boss died *)
      if (bossHealth s <=? 0)%Z then Some (victory (set_boss None s)) else
      (* Face player *)
      let direction := normalize (Vector3.subVectors playerPos bossPos) in
      let dist_gt_8 := Vector3.distanceTo_gt playerPos bossPos 8 in
      let dist_lt_5 := Vector3.distanceTo_lt playerPos bossPos 5 in
      (* Boss behavior phases based on health *)
      let healthPercent := healthPercent s in
      (* Movement *)
      let bossPos :=
        if dist_gt_8 then
          mkVec3 (vx bossPos + vx direction * 3 * delta) (vy bossPos)
            (vz bossPos + vz direction * 3 * delta)
        else bossPos in
      (* Attacks *)
      let lastAttack := lastAttack_or_0 b in
      let s := set_boss (Some (mkBoss bossPos (Some lastAttack))) s in
      let attackCooldown := attackCooldown healthPercent in
      if Qgtb (now - lastAttack) attackCooldown then
        s ← (if dist_lt_5 then bossGroundSlam s
             else bossIceAttack direction now s);
        b ← boss s;
        Some (set_boss (Some (mkBoss (boss_position b) (Some now))) s)
      else Some s
  end.

(** ** The frame *)

Definition gameLoop (rawDelta now : Q) (s : Game) : option Game :=
  match state s with
  | GAME_OVER | VICTORY => Some s
  | _ =>
      let s := requestAnimationFrame cb_gameLoop s in
      let delta := Math_min rawDelta 0.1 in
      let s := set_animationTime (animationTime s + delta) s in
      match state s with
      | PLAYING =>
          s ← updatePlayer delta s;
          s ← updateEnemies delta now s;
          s ← updateBoss delta now s;
          s ← updateProjectiles delta now s;
          s ← updateCollectibles s;
          checkLevelCompletion s
      | _ => Some s
      end
  end.

Definition startGame (rawDelta now : Q) (s : Game) : option Game :=
  let s := set_state PLAYING s in
  let s := set_currentLevel 1 s in
  let s := resetPlayer s in
  let s := loadLevel 1 s in
  gameLoop rawDelta now s.

Definition restartGame (s : Game) : Game :=
  let s := set_health (maxHealth s) s in
  let s := set_ammo (maxAmmo s) s in
  let s := set_inventory [None; None; None] s in
  let s := set_currentLevel 1 s in
  let s := set_state PLAYING s in
  let s := resetPlayer s in
  loadLevel 1 s.

(** ** Input handlers *)

Definition onKeyDown (code : string) (s : Game) : option Game :=
  let s := set_keys (<[code := true]> (keys s)) s in
  s ← (if bool_decide (code = "KeyE") && bool_decide (state s = PLAYING)
       then tryInteract s else Some s);
  if bool_decide (code = "Escape") && bool_decide (state s = PUZZLE)
  then Some (closePuzzle s)
  else Some s.

Definition onKeyUp (code : string) (s : Game) : Game :=
  set_keys (<[code := false]> (keys s)) s.

Definition onMouseDown (button : Z) (now : Q) (s : Game) : option Game :=
  if (button =? 0)%Z then
    let s := set_mouseDown true s in
    if bool_decide (state s = PLAYING) && pointerLocked s
    then shoot now s
    else Some s
  else Some s.

Definition onMouseUp (button : Z) (s : Game) : Game :=
  if (button =? 0)%Z then set_mouseDown false s else s.

Definition onMouseMove (movementX movementY : Q) (s : Game) : Game :=
  if pointerLocked s && bool_decide (state s = PLAYING) then
    let r := cameraRotation s in
    let y := rot_y r - movementX * mouseSensitivity s in
    let x := rot_x r - movementY * mouseSensitivity s in
    let x := Math_max (- Math_PI / 3) (Math_min (Math_PI / 3) x) in
    set_cameraRotation (mkCameraRotation x y) s
  else s.

Definition onPointerLockChange (locked : bool) (s : Game) : Game :=
  set_pointerLocked locked s.

(** ** The browser side *)

(** Running a callback the browser was given. *)
Definition run_callback (cb : Callback) (rawDelta now : Q) (s : Game)
  : option Game :=
  match cb with
  | cb_nextLevel => Some (nextLevel s)
  | cb_animate targetY => animate targetY s
  | cb_closePuzzle => Some (closePuzzle s)
  | cb_gameLoop => gameLoop rawDelta now s
  end.

(** The browser takes entry [n] off its queue and runs it, with the clock
    readings the callback will see. *)
Definition fire (n : nat) (rawDelta now : Q) (s : Game) : option Game :=
  d ← pending s !! n;
  run_callback (deferred_callback d) rawDelta now
    (set_pending (delete n (pending s)) s).

(** Everything that can happen to the page. *)
Inductive Event : Type :=
  | click_start (rawDelta now : Q)
  | click_restart
  | click_puzzle_close
  | click_puzzle_correct
  | keydown (code : string)
  | keyup (code : string)
  | mousedown (button : Z) (now : Q)
  | mouseup (button : Z)
  | mousemove (movementX movementY : Q)
  | pointerlockchange (locked : bool)
  | callback_due (n : nat) (rawDelta now : Q).

Definition handle (e : Event) (s : Game) : option Game :=
  match e with
  | click_start rawDelta now => startGame rawDelta now s
  | click_restart => Some (restartGame s)
  | click_puzzle_close => Some (closePuzzle s)
  | click_puzzle_correct => Some (puzzle_click_correct s)
  | keydown code => onKeyDown code s
  | keyup code => Some (onKeyUp code s)
  | mousedown button now => onMouseDown button now s
  | mouseup button => Some (onMouseUp button s)
  | mousemove mx my => Some (onMouseMove mx my s)
  | pointerlockchange locked => Some (onPointerLockChange locked s)
  | callback_due n rawDelta now => fire n rawDelta now s
  end.

(** States the game can be in: [constructor], and whatever a handler that
    ran to its end leaves. *)
Inductive reachable : Game -> Prop :=
  | reachable_constructor : reachable constructor
  | reachable_handle (s s' : Game) (e : Event) :
      reachable s -> handle e s = Some s' -> reachable s'.

(** A sequence of events, handled one after the other. *)
Fixpoint run (es : list Event) (s : Game) : option Game :=
  match es with
  | [] => Some s
  | e :: es' => s ← handle e s; run es' s
  end.

End WithHost.

(** ** A host to run the model on

    Fixed-point stand-ins for the floating-point functions of the browser,
    rounded to multiples of [2^-40]: Newton's iteration for the square root,
    Taylor polynomials for sine and cosine, Rodrigues' formula for a
    rotation about a unit axis.  They serve to evaluate the model on concrete
    games; the general statements below hold for every host. *)

Module Approx.
(** Rounds down to a multiple of [2^-40]. *)
Definition fix40 (q : Q) : Q :=
  Qfloor (q * inject_Z (2 ^ 40)) # (2 ^ 40).

Fixpoint newton (n : nat) (x g : Q) : Q :=
  match n with
  | O => g
  | S n' => newton n' x (fix40 ((g + x / g) / 2))
  end.

Definition sqrt (x : Q) : Q :=
  let x := fix40 x in
  if Qle_bool x 0 then 0 else newton 60 x (fix40 (x + 1)).

(** [x] brought into [-PI, PI] by whole turns. *)
Definition reduce (x : Q) : Q :=
  let x := fix40 x in
  let turn := 2 * Math_PI in
  x - inject_Z (Qfloor ((x + Math_PI) / turn)) * turn.

(** Sum of [n] Taylor terms, the current one being [term], of degree
    [k]. *)
Fixpoint taylor (n : nat) (x2 term : Q) (k : Z) : Q :=
  match n with
  | O => 0
  | S n' =>
      term + taylor n' x2
               (fix40 (- term * x2 / inject_Z ((k + 1) * (k + 2))))
               (k + 2)
  end.

Definition sin (x : Q) : Q :=
  let r := fix40 (reduce x) in fix40 (taylor 14 (r * r) r 1).

Definition cos (x : Q) : Q :=
  let r := fix40 (reduce x) in fix40 (taylor 14 (r * r) 1 0).

(** [v.divideScalar(v.length() || 1)] *)
Definition fix40_vec (v : Vec3) : Vec3 :=
  mkVec3 (fix40 (vx v)) (fix40 (vy v)) (fix40 (vz v)).

Definition normalize (v : Vec3) : Vec3 :=
  let v := fix40_vec v in
  let len := sqrt (Vector3.lengthSq v) in
  let len := if Qeq_bool len 0 then 1 else len in
  mkVec3 (fix40 (vx v / len)) (fix40 (vy v / len)) (fix40 (vz v / len)).

Definition cross (a b : Vec3) : Vec3 :=
  mkVec3 (vy a * vz b - vz a * vy b)
    (vz a * vx b - vx a * vz b)
    (vx a * vy b - vy a * vx b).

Definition dot (a b : Vec3) : Q := vx a * vx b + vy a * vy b + vz a * vz b.

Definition applyAxisAngle (v axis : Vec3) (angle : Q) : Vec3 :=
  let v := fix40_vec v in
  let c := cos angle in
  let sn := sin angle in
  let w := cross axis v in
  let k := dot axis v * (1 - c) in
  mkVec3 (fix40 (vx v * c + vx w * sn + vx axis * k))
    (fix40 (vy v * c + vy w * sn + vy axis * k))
    (fix40 (vz v * c + vz w * sn + vz axis * k)).

Definition host : Host := mkHost sin cos normalize applyAxisAngle.
End Approx.

(** ** What the statements below observe *)

(** Keys held: slots with an item of type ['key']. *)
Definition count_keys (slots : list (option Item)) : nat :=
  length (List.filter is_key slots).

Definition holds_key (s : Game) : Prop :=
  exists (i : nat) (item : Item),
    inventory s !! i = Some (Some item) /\ item_type item = type_key.

(** A boss attack shows in the state: the ice attack adds three shards, the
    ground slam takes 20 health (the player is within its radius whenever
    the slam is chosen). *)
Definition boss_attacked (s s' : Game) : Prop :=
  length (projectiles s') = (length (projectiles s) + 3)%nat
  \/ health s' = (health s - 20)%Z.

(** The top face of a box platform. *)
Definition platformTop (platform : Platform) (b : Bounds) : Q :=
  vy (platform_position platform) + height b / 2.

(** The landing test of a box platform as [checkPlatformCollision] makes
    it: the player strictly inside the footprint, strictly inside the band
    from [top - 0.5] to [top + 1], and moving down. *)
Definition box_landing (platform : Platform) (b : Bounds) (pos vel : Vec3)
  : Prop :=
  let c := platform_position platform in
  let top := platformTop platform b in
  (vx c - width b / 2 < vx pos /\ vx pos < vx c + width b / 2)
  /\ (vz c - depth b / 2 < vz pos /\ vz pos < vz c + depth b / 2)
  /\ (top - 0.5 < vy pos /\ vy pos < top + 1)
  /\ vy vel < 0.

(** The same test in the words of the specification, which closes the band
    at its lower end: [y] within [[top - 0.5, top + 1)]. *)
Definition box_landing_spec (platform : Platform) (b : Bounds)
  (pos vel : Vec3) : Prop :=
  let c := platform_position platform in
  let top := platformTop platform b in
  (vx c - width b / 2 < vx pos /\ vx pos < vx c + width b / 2)
  /\ (vz c - depth b / 2 < vz pos /\ vz pos < vz c + depth b / 2)
  /\ (top - 0.5 <= vy pos /\ vy pos < top + 1)
  /\ vy vel < 0.

(** ** Concrete situations *)

Module Scene.
(** The first ice platform of level 1; its top face is at [y = 1.75]. *)
Definition ice : Platform :=
  mkPlatform (mkVec3 5 1.5 (-10)) false false (Some (mkBounds 4 0.5 4)).

(** The player over the middle of [ice], falling, at the given height. *)
Definition falling_at (y : Q) : Game :=
  set_playerVelocity (mkVec3 0 (-1) 0)
    (set_player (Some (mkPlayer (mkVec3 5 y (-10)))) constructor).

(** Level 1 as [startGame] loads it. *)
Definition level1 : Game :=
  loadLevel (H := Approx.host) 1
    (resetPlayer (set_currentLevel 1 (set_state PLAYING constructor))).

(** Level 1 with the key picked up (it is the fourth collectible) and the
    player standing at the given spot. *)
Definition level1_with_key (x y z : Q) : Game :=
  set_player (Some (mkPlayer (mkVec3 x y z))) (collectItem 3 level1).

(** The player with 10 health left, and an ice shard of the boss (damage
    15) that reaches him within a tenth of a second. *)
Definition shard_incoming : Game :=
  set_projectiles
    [mkProjectile (mkVec3 0 1 2.5) (mkVec3 0 0 (-25)) false true 15 3 0]
    (set_health 10 (createPlayer (set_state PLAYING constructor))).

(** Level 3 as [nextLevel] loads it, the boss at half of its health. *)
Definition boss_at_half : Game :=
  set_bossHealth 50
    (loadLevel (H := Approx.host) 3
       (set_currentLevel 3 (set_state PLAYING constructor))).

(** The first moments of a game: start, pointer lock, one shot. *)
Definition opening : list Event :=
  [click_start 0 0; pointerlockchange true; mousedown 0 1].

Definition after_opening : Game :=
  default constructor (run (H := Approx.host) opening constructor).

(** A wolf standing next to the boss, a player shot that is about to
    reach both, and a second shot far away from everything. *)
Definition crossfire : Game :=
  set_projectiles
    [mkProjectile (mkVec3 0 1.5 (-4)) (mkVec3 0 0 (-50)) true false 10 2 0;
     mkProjectile (mkVec3 20 1.5 0) (mkVec3 50 0 0) true false 10 2 0]
    (createSnowWolf 0 1 (-9)
       (createBoss
          (createPlayer
             (set_currentLevel 3 (set_state PLAYING constructor))))).
End Scene.

(** ** The invariant *)

(** A projectile as the game makes them: its damage is not negative, and it
    is the player's or an enemy's, not both. *)
Definition projectile_ok (p : Projectile) : Prop :=
  (0 <= damage p)%Z /\ isPlayerProjectile p && isEnemyProjectile p = false.

(** Health is at most its maximum, ammunition is between 0 and its maximum,
    no enemy carries a negative damage, every projectile is as the game
    makes them, and enemies and a boss are never around together. *)
Definition invariant (s : Game) : Prop :=
  (health s <= maxHealth s)%Z
  /\ (0 <= ammo s <= maxAmmo s)%Z
  /\ Forall (fun e => (0 <= enemy_damage e)%Z) (enemies s)
  /\ Forall projectile_ok (projectiles s)
  /\ (boss s = None \/ enemies s = []).

(** A step inside a level: it keeps the invariant and the level number. *)
Definition kept (s s' : Game) : Prop :=
  (invariant s -> invariant s')
  /\ currentLevel s' = currentLevel s
  /\ maxLevels s' = maxLevels s.

(** The test of [checkLevelCompletion]: a gate, open, and the player less
    than 3 away from it. *)
Definition at_open_gate (s : Game) : Prop :=
  exists (gate : Gate) (p : Player),
    exitGate s = Some gate /\ gateOpen s = true /\ player s = Some p
    /\ Vector3.distanceToSquared (player_position p) (gate_position gate)
       < 3 * 3.

(** The events that can change the level number: the start and restart
    buttons, and a due callback that is the gate timer or the game loop. *)
Definition may_change_level (e : Event) (s : Game) : Prop :=
  match e with
  | click_start _ _ | click_restart => True
  | callback_due n _ _ =>
      exists d : Deferred,
        pending s !! n = Some d
        /\ (deferred_callback d = cb_nextLevel
            \/ deferred_callback d = cb_gameLoop)
  | _ => False
  end.

(** What one turn of [updateProjectiles] may do to the projectile at index
    [i], once moved ([l] is the list with the moved projectile in place):
    leave it flying, or take it out for exactly one of four reasons, with
    the damage going to the one target of that reason and to nothing
    else. *)
Inductive turn_outcome (now : Q) (i : nat) (proj : Projectile)
  (l : list Projectile) (s s' : Game) : Prop :=
  | flies_on :
      projectiles s' = l -> enemies s' = enemies s ->
      bossHealth s' = bossHealth s -> health s' = health s ->
      turn_outcome now i proj l s s'
  | expires :
      lifetime proj < now - spawnTime proj ->
      projectiles s' = delete i l -> enemies s' = enemies s ->
      bossHealth s' = bossHealth s -> health s' = health s ->
      turn_outcome now i proj l s s'
  | hits_enemy (j : nat) :
      ~ lifetime proj < now - spawnTime proj ->
      projectiles s' = delete i l ->
      enemies s'
      = alter (fun enemy =>
                 set_enemy_health (enemy_health enemy - damage proj) enemy)
          j (enemies s) ->
      bossHealth s' = bossHealth s -> health s' = health s ->
      turn_outcome now i proj l s s'
  | hits_boss :
      ~ lifetime proj < now - spawnTime proj ->
      projectiles s' = delete i l -> enemies s' = enemies s ->
      bossHealth s' = (bossHealth s - damage proj)%Z -> health s' = health s ->
      turn_outcome now i proj l s s'
  | hits_player :
      ~ lifetime proj < now - spawnTime proj ->
      projectiles s' = delete i l -> enemies s' = enemies s ->
      bossHealth s' = bossHealth s ->
      health s' = (health s - damage proj)%Z ->
      turn_outcome now i proj l s s'.

(** * More of the class *)

(** ** What the loops leave behind *)

(** The projectile after the move at the top of its turn. *)
Definition moved (delta : Q) (proj : Projectile) : Projectile :=
  set_projectile_position
    (Vector3.add (projectile_position proj)
       (Vector3.multiplyScalar (velocity proj) delta)) proj.

(** The lifetime test of [updateProjectiles], negated:
    [now - spawnTime > lifetime] does not hold. *)
Definition in_flight (now : Q) (proj : Projectile) : bool :=
  negb (Qgtb (now - spawnTime proj) (lifetime proj)).

(** The death test of [updateEnemies], negated. *)
Definition alive (h : Z) : bool := negb (h <=? 0)%Z.

(** The pickup test of [updateCollectibles]. *)
Definition in_reach (playerPos : Vec3) (c : Collectible) : bool :=
  Vector3.distanceTo_lt playerPos (collectible_position c) 1.5.

(** What a hit does to an enemy: its health goes down, by the damage of
    the projectile, and everything else about it stays. *)
Definition worn (e e' : Enemy) : Prop :=
  e' = set_enemy_health (enemy_health e') e
  /\ (enemy_health e' <= enemy_health e)%Z.

(** A projectile whose damage is not negative. *)
Definition damaging (proj : Projectile) : Prop := (0 <= damage proj)%Z.

(** [!this.inventory[i]]: the slot holds [null]. *)
Definition is_free (slot : option Item) : bool :=
  match slot with
  | None => true
  | Some _ => false
  end.

(** ** What holds of every game *)

(** The values the constructor sets and no method assigns again. *)
Definition tuning_of (s : Game) : Z * Z * Z * Z * Q * Q * Q * Q * Q * Q :=
  (maxLevels s, maxHealth s, maxAmmo s, bossMaxHealth s, playerSpeed s,
   runMultiplier s, jumpForce s, gravity s, mouseSensitivity s,
   shootCooldown s).

Definition tuned (s : Game) : Prop :=
  tuning_of s = (3%Z, 100%Z, 30%Z, 100%Z, 8, 1.8, 12, 25, 0.002, 0.25).

(** The inventory the HUD shows: three slots, each empty or holding the
    crystal key. *)
Definition inventory_ok (slots : list (option Item)) : Prop :=
  length slots = 3%nat
  /\ Forall (fun slot => slot = None \/ slot = Some (mkItem type_key "K"))
       slots.

(** The player, when there is one, is not below the floor height. *)
Definition above_floor (s : Game) : Prop :=
  match player s with
  | Some p => 1 <= vy (player_position p)
  | None => True
  end.

Definition pitch_ok (s : Game) : Prop :=
  - Math_PI / 3 <= rot_x (cameraRotation s)
  /\ rot_x (cameraRotation s) <= Math_PI / 3.

(** The states the class ever assigns. *)
Definition state_used (st : GameState) : Prop :=
  st <> PAUSED /\ st <> LEVEL_TRANSITION.

(** No frame of the game loop is waiting in the queue. *)
Definition no_loop (queue : list Deferred) : Prop :=
  Forall (fun d => deferred_callback d <> cb_gameLoop) queue.

Definition core (s : Game) : Prop :=
  tuned s /\ inventory_ok (inventory s) /\ above_floor s /\ pitch_ok s
  /\ state_used (state s) /\ (1 <= currentLevel s)%Z.

(** [core], and the game loop only runs once there is a player. *)
Definition settled (s : Game) : Prop :=
  core s /\ (player s = None -> no_loop (pending s)).

(** A step that keeps [core], keeps the player once there, and puts no
    frame of the game loop into the queue. *)
Definition steady (s s' : Game) : Prop :=
  (core s -> core s')
  /\ (is_Some (player s) -> is_Some (player s'))
  /\ (no_loop (pending s) -> no_loop (pending s')).

(** What the player's own frame leaves alone. *)
Definition same_but_player (s s' : Game) : Prop :=
  tuning_of s' = tuning_of s /\ inventory s' = inventory s
  /\ cameraRotation s' = cameraRotation s /\ state s' = state s
  /\ currentLevel s' = currentLevel s /\ pending s' = pending s.

(** The events that run [gameLoop]: the start button, and a frame of the
    loop whose time has come. *)
Definition runs_loop (e : Event) (s : Game) : Prop :=
  match e with
  | click_start _ _ => True
  | callback_due n _ _ =>
      exists d : Deferred,
        pending s !! n = Some d /\ deferred_callback d = cb_gameLoop
  | _ => False
  end.

(** ** The games a frame works on

    [reachable] holds of the games between two events.  A turn of
    [updateProjectiles] runs inside [gameLoop], on a game that the steps
    before it have worked on: [startGame] has loaded level 1 or the browser
    has taken the frame off its queue, [gameLoop] has asked for the next
    frame and moved [animationTime], [updatePlayer], [updateEnemies] and
    [updateBoss] have run, and so have the turns of the projectiles with a
    higher index. *)

Section FrameStates.
Context `{Host}.

End FrameStates.

(** ** Names every object has

    The property names of [Object.prototype].  On the plain object
    [this.keys] a read of one of them that was never set gives a function or
    an object, and an assignment to ['__proto__'] is ignored; the finite
    map [keys] stands for the other names. *)
Definition inherited_names : list string :=
  ["__proto__"; "constructor"; "hasOwnProperty"; "isPrototypeOf";
   "propertyIsEnumerable"; "toLocaleString"; "toString"; "valueOf";
   "__defineGetter__"; "__defineSetter__"; "__lookupGetter__";
   "__lookupSetter__"].

Definition inherited (code : string) : bool :=
  bool_decide (code ∈ inherited_names).

(** ** The rune grid

    [openPuzzle] fills the grid with nine buttons that share the closure
    variable [selectedPattern].  A wrong pattern of three starts a timer of
    half a second that empties the selection; [resets] counts the timers
    of this kind that have been started. *)

Record Grid : Type := mkGrid {
  selectedPattern : list nat;
  resets : nat
}.

Definition correctPattern : list nat := [0; 4; 8]%nat.

(** The first half of the click handler of button [i]: [includes], then
    [filter] or [push]. *)
Definition toggle (i : nat) (selected : list nat) : list nat :=
  if bool_decide (i ∈ selected)
  then List.filter (fun x => negb (x =? i)%nat) selected
  else selected ++ [i].

(** The click handler of button [i].  [sort((a, b) => a - b)] is the
    ascending sort; two arrays of numbers have the same [JSON.stringify]
    exactly when they are equal. *)
Definition puzzle_click (i : nat) (g : Grid) (s : Game) : Grid * Game :=
  let selected := toggle i (selectedPattern g) in
  if (length selected =? 3)%nat then
    let sorted := merge_sort le selected in
    if bool_decide (sorted = correctPattern) then
      (mkGrid selected (resets g),
       setTimeout cb_closePuzzle 1000 (set_puzzleSolved true s))
    else (mkGrid selected (S (resets g)), s)
  else (mkGrid selected (resets g), s).

(** ** More concrete situations *)

Module Stage.
(** Level 1 with the second wolf shot dead. *)
Definition wolf_down : Game :=
  set_enemies (alter (set_enemy_health 0%Z) 1%nat (enemies Scene.level1))
    Scene.level1.

(** Level 1 a tenth of a second into its enemies' update. *)
Definition wolves_moved : Game :=
  default constructor (updateEnemies (H := Approx.host) 0.1 1 Scene.level1).

(** [Scene.crossfire] after its projectiles' update. *)
Definition after_crossfire : Game :=
  default constructor (updateProjectiles 0.1 0 Scene.crossfire).

(** The player of [Scene.falling_at 2.5] a tenth of a second later. *)
Definition after_fall : Game :=
  default constructor
    (updatePlayer (H := Approx.host) 0.1 (Scene.falling_at 2.5)).



(** The game right after the start button. *)
Definition started : Game :=
  default constructor (startGame (H := Approx.host) 0 0 constructor).

(** The same game, lost. *)
Definition lost : Game := gameOver started.

(** Level 2 with the puzzle solved and the gate already opened once. *)
Definition temple_open : Game :=
  set_gateOpen true
    (set_puzzleSolved true
       (loadLevel (H := Approx.host) 2
          (set_currentLevel 2 (set_state PLAYING constructor)))).

(** A wolf and a spirit next to the player; the spirit shot last at
    time 0. *)
Definition close_wolf : Game :=
  createSnowWolf 1 1 0 (createPlayer (set_state PLAYING constructor)).


(** The player with the key at the gate of level 1, after pressing E. *)
Definition gate_used : Game :=
  default constructor (onKeyDown "KeyE" (Scene.level1_with_key 35 1 (-15))).

(** The arena disc of level 3. *)
Definition arena : Platform := mkPlatform Vector3.zero false true None.

(** Level 3 with the boss brought down to no health. *)
Definition boss_down : Game := set_bossHealth 0%Z Scene.boss_at_half.
End Stage.

(** * Properties *)

(** ** Comparisons *)

Lemma Qltb_lt (a b : Q) : Qltb a b = true <-> a < b.
Proof.
  unfold Qltb. rewrite negb_true_iff, <- not_true_iff_false, Qle_bool_iff.
  split; [apply Qnot_le_lt | apply Qlt_not_le].
Qed.

Lemma Qltb_ge (a b : Q) : Qltb a b = false <-> b <= a.
Proof.
  unfold Qltb. rewrite negb_false_iff, Qle_bool_iff. reflexivity.
Qed.

Lemma Qgtb_gt (a b : Q) : Qgtb a b = true <-> b < a.
Proof. apply Qltb_lt. Qed.

Lemma Qgtb_le (a b : Q) : Qgtb a b = false <-> a <= b.
Proof. apply Qltb_ge. Qed.

(** ** Shooting without ammunition, shooting too early *)

Section Shooting.
Context `{Host}.

(** C8.  A call to [shoot] with [ammo = 0] returns with the game object
    exactly as it was: no projectile is added and [ammo] keeps its
    value. *)
Theorem shoot_without_ammo (now : Q) (s : Game) :
  ammo s = 0%Z ->
  shoot now s = Some s.
Proof.
  intros Hammo. unfold shoot.
  destruct (Qltb (now - lastShootTime s) (shootCooldown s)); [done|].
  rewrite Hammo. reflexivity.
Qed.

(** C10.  A call to [shoot] made before the cooldown has passed
    ([now - lastShootTime < shootCooldown]) returns with the game object
    exactly as it was: [ammo], [lastShootTime] and the projectile list
    are untouched, so the cooldown window is not restarted. *)
Theorem shoot_during_cooldown (now : Q) (s : Game) :
  now - lastShootTime s < shootCooldown s ->
  shoot now s = Some s.
Proof.
  intros Hcd. unfold shoot.
  apply Qltb_lt in Hcd. rewrite Hcd. reflexivity.
Qed.
End Shooting.

(** ** Lethal damage *)

(** C9.  When [takeDamage] brings [health] to 0 or below, the same call
    leaves the game in [GAME_OVER]. *)
Theorem takeDamage_lethal (amount : Z) (s : Game) :
  (health s - amount <= 0)%Z ->
  state (takeDamage amount s) = GAME_OVER
  /\ health (takeDamage amount s) = (health s - amount)%Z.
Proof.
  intros Hdead. unfold takeDamage. cbn.
  destruct (Z.leb_spec (health s - amount) 0); [split; reflexivity | lia].
Qed.

(** ** The gate interaction *)

Lemma existsb_is_key_holds (s : Game) :
  existsb is_key (inventory s) = true <-> holds_key s.
Proof.
  unfold holds_key. generalize (inventory s) as slots.
  induction slots as [|slot slots IH]; cbn.
  - split; [discriminate | intros (i & item & Hi & _); destruct i; discriminate].
  - rewrite orb_true_iff, IH. split.
    + intros [Hk | (i & item & Hi & Hty)].
      * destruct slot as [item|]; [|discriminate].
        exists 0%nat, item. split; [reflexivity|].
        cbn in Hk. now apply bool_decide_eq_true in Hk.
      * exists (S i), item. now split.
    + intros (i & item & Hi & Hty). destruct i as [|i]; cbn in Hi.
      * left. injection Hi as ->. cbn. now apply bool_decide_eq_true.
      * right. now exists i, item.
Qed.

Lemma findIndex_existsb {A : Type} (f : A -> bool) (l : list A) :
  existsb f l = true -> exists k, findIndex f l = Some k.
Proof.
  induction l as [|x l IH]; cbn; [discriminate|].
  destruct (f x); [now exists 0%nat|].
  cbn. intros Hl. destruct (IH Hl) as [k ->]. now exists (S k).
Qed.

Lemma count_keys_drop_first (slots : list (option Item)) (k : nat) :
  findIndex is_key slots = Some k ->
  S (count_keys (<[k := None]> slots)) = count_keys slots.
Proof.
  unfold count_keys. revert k.
  induction slots as [|slot slots IH]; intros k; cbn; [discriminate|].
  destruct (is_key slot) eqn:Hslot.
  - intros [= <-]. cbn. reflexivity.
  - destruct (findIndex is_key slots) as [k'|]; cbn; [|discriminate].
    intros [= <-]. cbn. rewrite Hslot. now apply IH.
Qed.

Lemma animate_fields (targetY : Q) (s s' : Game) :
  animate targetY s = Some s' ->
  gateOpen s' = gateOpen s /\ inventory s' = inventory s
  /\ puzzleSolved s' = puzzleSolved s /\ currentLevel s' = currentLevel s.
Proof.
  unfold animate. destruct (exitGate s) as [gate|]; cbn; [|discriminate].
  destruct (Qltb _ _); intros [= <-]; cbn; auto.
Qed.

Lemma openGateAnimation_total (s : Game) :
  exists s', openGateAnimation s = Some s'
    /\ gateOpen s' = gateOpen s /\ inventory s' = inventory s
    /\ puzzleSolved s' = puzzleSolved s /\ currentLevel s' = currentLevel s.
Proof.
  unfold openGateAnimation. destruct (exitGate s) as [gate|] eqn:Hgate.
  - destruct (animate (vy (gate_position gate) + 5) s) as [s1|] eqn:Han.
    + apply animate_fields in Han. cbn. eexists. split; [reflexivity|].
      cbn. exact Han.
    + unfold animate in Han. rewrite Hgate in Han. cbn in Han.
      destruct (Qltb _ _); discriminate.
  - exists s. auto.
Qed.

(** C5.  [tryOpenGate] always returns.  On level 1 a closed gate ends up
    open exactly when the inventory holds a key; a successful call removes
    one key and an unsuccessful one changes nothing.  On level 2 a closed
    gate ends up open exactly when [puzzleSolved] is set, which stays set;
    an unsuccessful call changes nothing.  On a level above 2 the call
    changes nothing, so a closed gate stays closed. *)
Theorem tryOpenGate_unlock (s : Game) :
  exists s', tryOpenGate s = Some s'
    /\ (currentLevel s = 1%Z ->
        (gateOpen s = false -> (gateOpen s' = true <-> holds_key s))
        /\ (holds_key s ->
            gateOpen s' = true
            /\ S (count_keys (inventory s')) = count_keys (inventory s)
            /\ length (inventory s') = length (inventory s))
        /\ (~ holds_key s -> s' = s))
    /\ (currentLevel s = 2%Z ->
        (gateOpen s = false -> (gateOpen s' = true <-> puzzleSolved s = true))
        /\ (puzzleSolved s = true ->
            gateOpen s' = true /\ puzzleSolved s' = true
            /\ inventory s' = inventory s)
        /\ (puzzleSolved s = false -> s' = s))
    /\ ((2 < currentLevel s)%Z -> s' = s).
Proof.
  unfold tryOpenGate.
  destruct (Z.eqb_spec (currentLevel s) 1) as [H1|H1].
  - destruct (existsb is_key (inventory s)) eqn:Hkey.
    + destruct (openGateAnimation_total (set_gateOpen true s))
        as (s1 & -> & Hg & Hinv & _ & _).
      cbn in Hg, Hinv. cbn.
      destruct (findIndex_existsb _ _ Hkey) as [k Hk].
      rewrite Hinv, Hk. eexists. split; [reflexivity|]. cbn.
      apply existsb_is_key_holds in Hkey.
      split; [|split; [intros; lia | intros; lia]].
      intros _. rewrite Hg.
      split; [tauto|]. split; [|tauto].
      intros _. split; [reflexivity|].
      split; [now apply count_keys_drop_first | apply length_insert].
    + exists s. split; [reflexivity|].
      assert (Hno : ~ holds_key s).
      { rewrite <- existsb_is_key_holds, Hkey. discriminate. }
      split; [|split; [intros; lia | intros; lia]].
      intros _. split; [|tauto].
      intros Hclosed. rewrite Hclosed. split; [discriminate | tauto].
  - destruct (Z.eqb_spec (currentLevel s) 2) as [H2|H2].
    + destruct (puzzleSolved s) eqn:Hsolved.
      * destruct (openGateAnimation_total (set_gateOpen true s))
          as (s1 & -> & Hg & Hinv & Hpz & _).
        cbn in Hg, Hinv, Hpz. exists s1. split; [reflexivity|].
        split; [intros; lia|]. split; [|intros; lia].
        intros _. rewrite Hg, Hpz, Hinv, Hsolved.
        split; [tauto|]. split; [tauto | discriminate].
      * exists s. split; [reflexivity|].
        split; [intros; lia|]. split; [|intros; lia].
        intros _. split; [|split; [discriminate | tauto]].
        intros Hclosed. rewrite Hclosed. split; discriminate.
    + exists s. split; [reflexivity|].
      split; [intros; lia|]. split; [intros; lia | tauto].
Qed.

(** ** The boss's attack cooldown *)

Lemma distanceTo_lt_weaken (a b : Vec3) (r r' : Q) :
  0 < r -> r <= r' ->
  Vector3.distanceTo_lt a b r = true -> Vector3.distanceTo_lt a b r' = true.
Proof.
  unfold Vector3.distanceTo_lt. intros Hr Hrr'.
  rewrite !andb_true_iff, !Qltb_lt. intros [_ Hd]. split; [lra|].
  assert (r * r <= r' * r') by nra. lra.
Qed.

Lemma distanceTo_lt_not_gt (a b : Vec3) (r r' : Q) :
  0 < r -> r <= r' ->
  Vector3.distanceTo_lt a b r = true -> Vector3.distanceTo_gt a b r' = false.
Proof.
  unfold Vector3.distanceTo_lt, Vector3.distanceTo_gt. intros Hr Hrr'.
  rewrite andb_true_iff, orb_false_iff, !Qltb_lt, !Qltb_ge. intros [_ Hd].
  split; [lra|]. assert (r * r <= r' * r') by nra. lra.
Qed.

Section Boss.
Context `{Host}.

Lemma attackCooldown_high (f : Q) : 0.5 < f -> attackCooldown f = 2.
Proof. intros Hf. unfold attackCooldown. apply Qgtb_gt in Hf. now rewrite Hf. Qed.

Lemma attackCooldown_low (f : Q) : f <= 0.5 -> attackCooldown f = 1.
Proof. intros Hf. unfold attackCooldown. apply Qgtb_le in Hf. now rewrite Hf. Qed.

(** What [updateBoss] does with a live boss, for a given cooldown. *)
Lemma updateBoss_attack_iff (delta now : Q) (s : Game) (b : Boss)
  (p : Player) :
  boss s = Some b -> currentLevel s = 3%Z -> player s = Some p ->
  (0 < bossHealth s)%Z ->
  exists s', updateBoss delta now s = Some s'
    /\ (boss_attacked s s'
        <-> attackCooldown (healthPercent s) < now - lastAttack_or_0 b).
Proof.
  intros Hboss Hlevel Hplayer Halive. unfold updateBoss.
  rewrite Hboss, Hlevel, Hplayer. cbn.
  destruct (Z.leb_spec (bossHealth s) 0) as [|_]; [lia|].
  destruct (Qgtb (now - lastAttack_or_0 b)
              (attackCooldown (healthPercent s))) eqn:Hdue.
  - apply Qgtb_gt in Hdue.
    destruct (Vector3.distanceTo_lt (player_position p) (boss_position b) 5)
      eqn:Hnear.
    + unfold bossGroundSlam. cbn. rewrite Hplayer. cbn.
      rewrite (distanceTo_lt_not_gt _ _ 5 8) by (lra || assumption).
      rewrite (distanceTo_lt_weaken _ _ 5 8) by (lra || assumption).
      cbn. unfold takeDamage. cbn.
      destruct (health s - 20 <=? 0)%Z; cbn;
        (eexists; split; [reflexivity|]); unfold boss_attacked; cbn;
        tauto.
    + unfold bossIceAttack. cbn.
      eexists. split; [reflexivity|]. unfold boss_attacked. cbn.
      rewrite !length_app. cbn. split; [tauto|]. intros _. left. lia.
  - apply Qgtb_le in Hdue.
    eexists. split; [reflexivity|]. unfold boss_attacked. cbn.
    split; [intros [?|?]; lia | intros ?; lra].
Qed.

(** C6.  In a frame of [updateBoss] with a live boss, the boss attacks
    exactly when more than the cooldown has passed since its last attack,
    and the cooldown is 2 seconds when [bossHealth / bossMaxHealth > 0.5]
    and 1 second otherwise; a fraction of exactly 0.5 takes the 1-second
    cooldown. *)
Theorem boss_attack_cooldown (delta now : Q) (s : Game) (b : Boss)
  (p : Player) :
  boss s = Some b -> currentLevel s = 3%Z -> player s = Some p ->
  (0 < bossHealth s)%Z -> (0 < bossMaxHealth s)%Z ->
  let fraction := inject_Z (bossHealth s) / inject_Z (bossMaxHealth s) in
  let elapsed := now - lastAttack_or_0 b in
  exists s', updateBoss delta now s = Some s'
    /\ (0.5 < fraction -> (boss_attacked s s' <-> 2 < elapsed))
    /\ (fraction <= 0.5 -> (boss_attacked s s' <-> 1 < elapsed))
    /\ (fraction == 0.5 -> (boss_attacked s s' <-> 1 < elapsed)).
Proof.
  intros Hboss Hlevel Hplayer Halive Hmax fraction elapsed.
  destruct (updateBoss_attack_iff delta now s b p Hboss Hlevel Hplayer Halive)
    as (s' & Hrun & Hiff).
  exists s'. split; [exact Hrun|].
  change (healthPercent s) with fraction in Hiff.
  change (now - lastAttack_or_0 b) with elapsed in Hiff.
  split; [|split].
  - intros Hf. now rewrite (attackCooldown_high _ Hf) in Hiff.
  - intros Hf. now rewrite (attackCooldown_low _ Hf) in Hiff.
  - intros Hf. assert (Hle : fraction <= 0.5) by (rewrite Hf; apply Qle_refl).
    now rewrite (attackCooldown_low _ Hle) in Hiff.
Qed.
End Boss.

(** ** Landing on platforms *)

Lemma box_landing_dec (platform : Platform) (b : Bounds) (pos vel : Vec3) :
  let c := platform_position platform in
  let top := vy c + height b / 2 in
  Qgtb (vx pos) (vx c - width b / 2) && Qltb (vx pos) (vx c + width b / 2)
  && Qgtb (vz pos) (vz c - depth b / 2) && Qltb (vz pos) (vz c + depth b / 2)
  && (Qltb (vy pos) (top + 1) && Qgtb (vy pos) (top - 0.5))
  && Qltb (vy vel) 0 = true
  <-> box_landing platform b pos vel.
Proof.
  unfold box_landing, platformTop, Qgtb. cbn zeta.
  rewrite !andb_true_iff, !Qltb_lt. tauto.
Qed.

(** A platform that reports no landing leaves the game as it was. *)
Lemma checkPlatformCollision_miss (platform : Platform) (s s' : Game) :
  checkPlatformCollision platform s = Some (false, s') -> s' = s.
Proof.
  unfold checkPlatformCollision.
  destruct (isGround platform); [now intros [= <-]|].
  destruct (isArena platform).
  - destruct (player s); cbn; [|discriminate].
    repeat match goal with
           | |- context [if ?c then _ else _] => destruct c
           end; intros [= <-]; reflexivity.
  - destruct (bounds platform); [|now intros [= <-]].
    destruct (player s); cbn; [|discriminate].
    repeat match goal with
           | |- context [if ?c then _ else _] => destruct c
           end; intros [= <-]; reflexivity.
Qed.

Lemma platform_loop_first (before after : list Platform) (platform : Platform)
  (s s' : Game) :
  Forall (fun q => checkPlatformCollision q s = Some (false, s)) before ->
  checkPlatformCollision platform s = Some (true, s') ->
  platform_loop (before ++ platform :: after) s = Some s'.
Proof.
  intros Hbefore Hhit. induction Hbefore as [|q before Hq _ IH]; cbn.
  - now rewrite Hhit.
  - now rewrite Hq.
Qed.

(** The box test, decided. *)
Lemma checkPlatformCollision_box (platform : Platform) (b : Bounds) (s : Game)
  (p : Player) :
  player s = Some p ->
  isGround platform = false -> isArena platform = false ->
  bounds platform = Some b ->
  let pos := player_position p in
  (box_landing platform b pos (playerVelocity s) ->
   checkPlatformCollision platform s
   = Some (true,
           set_playerOnGround true
             (set_playerVelocity (Vector3.set_y 0 (playerVelocity s))
                (set_player
                   (Some (mkPlayer
                            (Vector3.set_y (platformTop platform b + 1) pos)))
                   s))))
  /\ (~ box_landing platform b pos (playerVelocity s) ->
      checkPlatformCollision platform s = Some (false, s)).
Proof.
  intros Hplayer Hground Harena Hbounds pos.
  unfold checkPlatformCollision.
  rewrite Hground, Harena, Hbounds, Hplayer. cbn -[Qltb Qgtb].
  fold pos.
  rewrite <- (box_landing_dec platform b pos (playerVelocity s)).
  cbn zeta.
  destruct (Qgtb (vx pos) _ && Qltb (vx pos) _ && Qgtb (vz pos) _
            && Qltb (vz pos) _); cbn -[Qltb Qgtb];
    [|split; [discriminate | reflexivity]].
  destruct (Qltb (vy pos) _ && Qgtb (vy pos) _); cbn -[Qltb Qgtb];
    [|split; [discriminate | reflexivity]].
  destruct (Qltb (vy (playerVelocity s)) 0);
    split; (reflexivity || discriminate || tauto).
Qed.

(** C7.  The platform loop of [updatePlayer] is settled by the first
    platform, in registration order, whose test passes: the platforms after
    it play no part.  A box platform passes exactly when the player's x and z
    lie strictly within half the width and half the depth of its centre, y
    lies strictly between [top - 0.5] and [top + 1], and the vertical
    velocity is negative; the player is then put at [y = top + 1] with
    vertical velocity 0 and [playerOnGround] set. *)
Theorem platform_loop_first_landing (before after : list Platform)
  (platform : Platform) (b : Bounds) (s : Game) (p : Player) :
  player s = Some p ->
  isGround platform = false -> isArena platform = false ->
  bounds platform = Some b ->
  Forall (fun q => checkPlatformCollision q s = Some (false, s)) before ->
  let pos := player_position p in
  let top := platformTop platform b in
  ((exists s', checkPlatformCollision platform s = Some (true, s'))
   <-> box_landing platform b pos (playerVelocity s))
  /\ (box_landing platform b pos (playerVelocity s) ->
      exists s', platform_loop (before ++ platform :: after) s = Some s'
        /\ player s' = Some (mkPlayer (mkVec3 (vx pos) (top + 1) (vz pos)))
        /\ playerVelocity s'
           = mkVec3 (vx (playerVelocity s)) 0 (vz (playerVelocity s))
        /\ playerOnGround s' = true).
Proof.
  intros Hplayer Hground Harena Hbounds Hbefore pos top.
  destruct (checkPlatformCollision_box platform b s p
              Hplayer Hground Harena Hbounds) as [Hyes Hno].
  fold pos in Hyes, Hno. split.
  - split.
    + intros [s' Hhit].
      assert (Hdec : box_landing platform b pos (playerVelocity s)
                     \/ ~ box_landing platform b pos (playerVelocity s)).
      { rewrite <- box_landing_dec.
        destruct (_ && _); [left | right]; congruence. }
      destruct Hdec as [?|Hn]; [assumption|].
      rewrite (Hno Hn) in Hhit. discriminate.
    + intros Hland. eexists. exact (Hyes Hland).
  - intros Hland. eexists. split.
    + apply platform_loop_first; [exact Hbefore | exact (Hyes Hland)].
    + cbn. auto.
Qed.

(** ** Steps that keep the invariant *)

Lemma kept_refl (s : Game) : kept s s.
Proof. unfold kept. auto. Qed.

Lemma kept_trans (s1 s2 s3 : Game) : kept s1 s2 -> kept s2 s3 -> kept s1 s3.
Proof. unfold kept. intros (? & -> & ->) (? & -> & ->). auto. Qed.

(** A step that leaves health, ammunition, enemies, projectiles, the boss
    and the level number alone. *)
Lemma kept_same (s s' : Game) :
  health s' = health s -> maxHealth s' = maxHealth s ->
  ammo s' = ammo s -> maxAmmo s' = maxAmmo s ->
  enemies s' = enemies s -> projectiles s' = projectiles s ->
  boss s' = boss s ->
  currentLevel s' = currentLevel s -> maxLevels s' = maxLevels s ->
  kept s s'.
Proof.
  unfold kept, invariant. intros -> -> -> -> -> -> -> -> ->. auto.
Qed.

Lemma downward_kept (turn : nat -> Game -> option Game) (n : nat) :
  (forall i s s', turn i s = Some s' -> kept s s') ->
  forall s s', downward turn n s = Some s' -> kept s s'.
Proof.
  intros Hturn. induction n as [|n IH]; cbn; intros s s'.
  - intros [= <-]. apply kept_refl.
  - destruct (turn n s) as [s1|] eqn:Hs1; cbn; [|discriminate].
    intros Hrest. eapply kept_trans; eauto.
Qed.

Lemma takeDamage_kept (amount : Z) (s : Game) :
  (0 <= amount)%Z -> kept s (takeDamage amount s).
Proof.
  intros Hpos. unfold takeDamage, kept, invariant. cbn.
  destruct (health s - amount <=? 0)%Z; cbn; (split; [|auto]);
    intros (? & ? & ? & ? & ?); repeat split; auto; lia.
Qed.

Lemma collectItem_kept (idx : nat) (s : Game) : kept s (collectItem idx s).
Proof.
  unfold collectItem. destruct (collectibles s !! idx) as [c|];
    [|apply kept_refl].
  unfold kept, invariant.
  destruct (collectible_type c); cbn; (split; [|auto]);
    intros (? & ? & ? & ? & ?); repeat split; auto; lia.
Qed.

Ltac case_ifs :=
  repeat match goal with
         | |- context [if ?c then _ else _] => destruct c
         end.

(** Splits on the tests inside an equation between pairs, then reads the
    equation off. *)
Ltac pair_paths :=
  repeat match goal with
         | E : context [if ?c then _ else _] |- _ => destruct c eqn:?
         | E : context [match ?x with _ => _ end] |- _ => destruct x eqn:?
         end;
  repeat match goal with
         | E : (_, _) = (_, _) |- _ => injection E as <- <-
         end.

(** Splits on every test and every access that may fail. *)
Ltac all_paths :=
  repeat (match goal with
          | |- context [match ?x with _ => _ end] => destruct x eqn:?
          | |- context [mbind _ ?x] => destruct x eqn:?
          end; cbn).

Lemma checkPlatformCollision_kept (platform : Platform) (s s' : Game)
  (landed : bool) :
  checkPlatformCollision platform s = Some (landed, s') -> kept s s'.
Proof.
  unfold checkPlatformCollision.
  destruct (isGround platform); [intros [= _ <-]; apply kept_refl|].
  destruct (isArena platform).
  - destruct (player s); cbn; [|discriminate].
    case_ifs; intros [= _ <-]; now apply kept_same.
  - destruct (bounds platform); [|intros [= _ <-]; apply kept_refl].
    destruct (player s); cbn; [|discriminate].
    case_ifs; intros [= _ <-]; now apply kept_same.
Qed.

Lemma platform_loop_kept (ps : list Platform) (s s' : Game) :
  platform_loop ps s = Some s' -> kept s s'.
Proof.
  revert s. induction ps as [|platform ps IH]; cbn; intros s.
  - intros [= <-]. apply kept_refl.
  - destruct (checkPlatformCollision platform s) as [[landed s1]|] eqn:Hc;
      [|discriminate].
    apply checkPlatformCollision_kept in Hc.
    destruct landed.
    + now intros [= <-].
    + intros Hrest. eapply kept_trans; eauto.
Qed.

Lemma animate_kept (targetY : Q) (s s' : Game) :
  animate targetY s = Some s' -> kept s s'.
Proof.
  unfold animate. destruct (exitGate s); cbn; [|discriminate].
  case_ifs; intros [= <-]; now apply kept_same.
Qed.

Lemma openGateAnimation_kept (s s' : Game) :
  openGateAnimation s = Some s' -> kept s s'.
Proof.
  unfold openGateAnimation. destruct (exitGate s) as [gate|].
  - destruct (animate _ s) as [s1|] eqn:Han; cbn; [|discriminate].
    apply animate_kept in Han. intros [= <-].
    eapply kept_trans; [exact Han|]. now apply kept_same.
  - intros [= <-]. apply kept_refl.
Qed.

Lemma tryOpenGate_kept (s s' : Game) : tryOpenGate s = Some s' -> kept s s'.
Proof.
  unfold tryOpenGate.
  destruct (currentLevel s =? 1)%Z.
  - destruct (existsb is_key (inventory s)); [|intros [= <-]; apply kept_refl].
    destruct (openGateAnimation (set_gateOpen true s)) as [s1|] eqn:Hop;
      cbn; [|discriminate].
    apply openGateAnimation_kept in Hop. intros [= <-].
    eapply kept_trans; [now apply kept_same|].
    eapply kept_trans; [exact Hop|].
    destruct (findIndex is_key (inventory s1));
      [now apply kept_same | apply kept_refl].
  - destruct (currentLevel s =? 2)%Z; [|intros [= <-]; apply kept_refl].
    destruct (puzzleSolved s); [|intros [= <-]; apply kept_refl].
    intros Hop. apply openGateAnimation_kept in Hop.
    eapply kept_trans; [|exact Hop]. now apply kept_same.
Qed.

Lemma tryInteract_kept (s s' : Game) : tryInteract s = Some s' -> kept s s'.
Proof.
  unfold tryInteract. destruct (player s); cbn; [|discriminate].
  destruct (List.find _ _) as [i|]; [|intros [= <-]; apply kept_refl].
  destruct (action i); cbn.
  - apply tryOpenGate_kept.
  - intros [= <-]. unfold openPuzzle.
    destruct (puzzleSolved s); [apply kept_refl | now apply kept_same].
Qed.

Lemma alter_nil_enemies (f : Enemy -> Enemy) (j : nat) (l : list Enemy) :
  l = [] -> alter f j l = [].
Proof. now intros ->. Qed.

Lemma updateProjectiles_turn_kept (delta now : Q) (i : nat) (s s' : Game) :
  updateProjectiles_turn delta now i s = Some s' -> kept s s'.
Proof.
  unfold updateProjectiles_turn.
  destruct (projectiles s !! i) as [proj|] eqn:Hproj; cbn; [|discriminate].
  intros Hrun. unfold kept. split; [|split].
  - intros (Hh & Ha & He & Hp & Hk).
    assert (Hok : projectile_ok proj).
    { rewrite Forall_lookup in Hp. exact (Hp _ _ Hproj). }
    assert (Hdmg : (0 <= damage proj)%Z) by apply Hok.
    assert (Hp' : Forall projectile_ok
                    (<[i := set_projectile_position
                              (Vector3.add (projectile_position proj)
                                 (Vector3.multiplyScalar (velocity proj) delta))
                              proj]> (projectiles s))).
    { apply Forall_insert; [exact Hp | exact Hok]. }
    revert Hrun.
    all_paths;
      try discriminate; intros [= <-]; unfold invariant, takeDamage; cbn;
      case_ifs; cbn;
      repeat split;
      repeat first [ apply Forall_delete | apply Forall_alter ];
      auto; try lia;
      try (eapply Forall_impl; [exact He|]; cbn; auto);
      try (destruct Hk as [Hk|Hk];
           [left; exact Hk | right; now apply alter_nil_enemies]).
  - revert Hrun.
    all_paths;
      try discriminate; intros [= <-]; unfold takeDamage; cbn;
      case_ifs; reflexivity.
  - revert Hrun.
    all_paths;
      try discriminate; intros [= <-]; unfold takeDamage; cbn;
      case_ifs; reflexivity.
Qed.

Section Frame.
Context `{Host}.

Lemma updateCollectibles_turn_kept (playerPos : Vec3) (i : nat)
  (s s' : Game) :
  updateCollectibles_turn playerPos i s = Some s' -> kept s s'.
Proof.
  unfold updateCollectibles_turn.
  destruct (collectibles s !! i) as [c|]; cbn; [|discriminate].
  destruct (Vector3.distanceTo_lt _ _ _); intros [= <-].
  - eapply kept_trans; [|apply collectItem_kept]. now apply kept_same.
  - now apply kept_same.
Qed.

Lemma updateCollectibles_kept (s s' : Game) :
  updateCollectibles s = Some s' -> kept s s'.
Proof.
  unfold updateCollectibles. destruct (player s); cbn; [|discriminate].
  apply downward_kept. intros i. apply updateCollectibles_turn_kept.
Qed.

Lemma updateProjectiles_kept (delta now : Q) (s s' : Game) :
  updateProjectiles delta now s = Some s' -> kept s s'.
Proof.
  apply downward_kept. intros i. apply updateProjectiles_turn_kept.
Qed.

Lemma updatePlayer_kept (delta : Q) (s s' : Game) :
  updatePlayer delta s = Some s' -> kept s s'.
Proof.
  unfold updatePlayer.
  destruct (player s) as [p|]; [|intros [= <-]; apply kept_refl].
  match goal with
  | |- context [platform_loop ?ps ?s0] =>
      destruct (platform_loop ps s0) as [s1|] eqn:Hloop;
      [apply platform_loop_kept in Hloop | discriminate];
      assert (Hpre : kept s s0)
  end.
  { case_ifs; now apply kept_same. }
  cbn. destruct (player s1); cbn; [|discriminate].
  destruct (Qltb _ _); intros [= <-].
  - eapply kept_trans; [exact Hpre|].
    eapply kept_trans; [exact Hloop|]. now apply kept_same.
  - eapply kept_trans; eauto.
Qed.

Lemma updateEnemies_turn_kept (delta now : Q) (playerPos : Vec3) (i : nat)
  (s s' : Game) :
  updateEnemies_turn delta now playerPos i s = Some s' -> kept s s'.
Proof.
  unfold updateEnemies_turn.
  destruct (enemies s !! i) as [enemy|] eqn:Henemy; cbn; [|discriminate].
  intros Hrun. unfold kept. split; [|split].
  - intros (Hh & Ha & He & Hp & Hk).
    assert (Hdmg : (0 <= enemy_damage enemy)%Z).
    { rewrite Forall_lookup in He. exact (He _ _ Henemy). }
    assert (Hboss : boss s = None).
    { destruct Hk as [Hk|Hk]; [exact Hk|].
      rewrite Hk in Henemy. discriminate. }
    revert Hrun. all_paths; try discriminate.
    all: pair_paths.
    all: intros [= <-]; unfold invariant, enemyShoot, takeDamage; cbn.
    all: case_ifs; cbn.
    all: repeat split;
      repeat first [ apply Forall_delete | apply Forall_insert
                   | apply Forall_app_2 | apply Forall_cons_2
                   | apply Forall_nil_2 ];
      cbn; auto; try lia;
      try (split; cbn; [lia | reflexivity]).
  - revert Hrun. all_paths; try discriminate.
    all: pair_paths.
    all: intros [= <-]; unfold enemyShoot, takeDamage; cbn.
    all: case_ifs; reflexivity.
  - revert Hrun. all_paths; try discriminate.
    all: pair_paths.
    all: intros [= <-]; unfold enemyShoot, takeDamage; cbn.
    all: case_ifs; reflexivity.
Qed.

Lemma updateEnemies_kept (delta now : Q) (s s' : Game) :
  updateEnemies delta now s = Some s' -> kept s s'.
Proof.
  unfold updateEnemies. destruct (player s); cbn; [|discriminate].
  apply downward_kept. intros i. apply updateEnemies_turn_kept.
Qed.

Lemma updateBoss_kept (delta now : Q) (s s' : Game) :
  updateBoss delta now s = Some s' -> kept s s'.
Proof.
  unfold updateBoss, bossGroundSlam, bossIceAttack.
  destruct (boss s) as [b|] eqn:Hb; [|intros [= <-]; apply kept_refl].
  destruct (negb _); [intros [= <-]; apply kept_refl|].
  destruct (player s) as [p|] eqn:Hp; cbn; [|discriminate].
  assert (Hone : forall s0, enemies s0 = enemies s ->
                   invariant s -> boss s0 = None \/ enemies s0 = []).
  { intros s0 -> (_ & _ & _ & _ & [Hk|Hk]); [congruence | now right]. }
  destruct (bossHealth s <=? 0)%Z.
  { intros [= <-]. unfold kept, invariant. cbn. split; [|auto].
    intros (? & ? & ? & ? & ?). repeat split; auto; lia. }
  destruct (Qgtb _ _).
  2:{ intros [= <-]. unfold kept. split; [|auto]. intros Hs.
      pose proof (Hone s eq_refl Hs) as Hk.
      destruct Hs as (? & ? & ? & ? & _). unfold invariant. cbn.
      repeat split; auto; try lia.
      destruct Hk as [Hk|Hk]; [congruence | now right]. }
  destruct (Vector3.distanceTo_lt (player_position p) (boss_position b) 5);
    cbn.
  - unfold takeDamage. rewrite Hp. cbn. case_ifs; cbn; intros [= <-];
      unfold kept; (split; [|auto]); intros Hs;
      pose proof (Hone s eq_refl Hs) as Hk;
      destruct Hs as (? & ? & ? & ? & _); unfold invariant; cbn;
      repeat split; auto; try lia;
      (destruct Hk as [Hk|Hk]; [congruence | now right]).
  - intros [= <-]. unfold kept. split; [|auto]. intros Hs.
    pose proof (Hone s eq_refl Hs) as Hk.
    destruct Hs as (? & ? & ? & ? & _). unfold invariant. cbn.
    repeat split; auto; try lia.
    + repeat (apply Forall_app_2; [|repeat constructor; cbn; lia]).
      assumption.
    + destruct Hk as [Hk|Hk]; [congruence | now right].
Qed.

Lemma loadLevel_invariant (levelNum : Z) (s : Game) :
  invariant s -> invariant (loadLevel levelNum s).
Proof.
  unfold invariant, loadLevel. intros (? & ? & _).
  case_ifs; cbn; repeat split; auto; try lia;
    repeat constructor; cbn; lia.
Qed.

Lemma nextLevel_invariant (s : Game) : invariant s -> invariant (nextLevel s).
Proof.
  intros Hs. unfold nextLevel. cbn.
  destruct (_ >? _)%Z; [exact Hs|].
  apply loadLevel_invariant. exact Hs.
Qed.

Lemma checkLevelCompletion_invariant (s s' : Game) :
  checkLevelCompletion s = Some s' -> invariant s -> invariant s'.
Proof.
  unfold checkLevelCompletion. intros Hrun Hs. revert Hrun.
  all_paths; try discriminate; intros [= <-]; auto.
  now apply nextLevel_invariant.
Qed.

Lemma shoot_invariant (now : Q) (s s' : Game) :
  shoot now s = Some s' -> invariant s -> invariant s'.
Proof.
  unfold shoot. intros Hrun Hs. revert Hrun.
  destruct (Qltb _ _); [now intros [= <-]|].
  destruct (Z.leb_spec (ammo s) 0); [now intros [= <-]|].
  cbn. destruct (player s); cbn; [|discriminate].
  destruct Hs as (? & ? & ? & ? & ?).
  intros [= <-]. unfold invariant. cbn. repeat split; auto; try lia.
  apply Forall_app_2; [assumption|]. repeat constructor; cbn; lia.
Qed.

Lemma gameLoop_invariant (rawDelta now : Q) (s s' : Game) :
  gameLoop rawDelta now s = Some s' -> invariant s -> invariant s'.
Proof.
  unfold gameLoop. intros Hrun Hs.
  assert (Hframe :
    forall s0, invariant s0 ->
      (s1 ← updatePlayer (Math_min rawDelta 0.1) s0;
       s2 ← updateEnemies (Math_min rawDelta 0.1) now s1;
       s3 ← updateBoss (Math_min rawDelta 0.1) now s2;
       s4 ← updateProjectiles (Math_min rawDelta 0.1) now s3;
       s5 ← updateCollectibles s4;
       checkLevelCompletion s5) = Some s' -> invariant s').
  { intros s0 Hs0 Hseq.
    destruct (updatePlayer _ s0) as [s1|] eqn:H1; cbn in Hseq; [|discriminate].
    destruct (updateEnemies _ _ s1) as [s2|] eqn:H2; cbn in Hseq; [|discriminate].
    destruct (updateBoss _ _ s2) as [s3|] eqn:H3; cbn in Hseq; [|discriminate].
    destruct (updateProjectiles _ _ s3) as [s4|] eqn:H4; cbn in Hseq;
      [|discriminate].
    destruct (updateCollectibles s4) as [s5|] eqn:H5; cbn in Hseq;
      [|discriminate].
    apply (checkLevelCompletion_invariant _ _ Hseq).
    apply (updateCollectibles_kept _ _ H5).
    apply (updateProjectiles_kept _ _ _ _ H4).
    apply (updateBoss_kept _ _ _ _ H3).
    apply (updateEnemies_kept _ _ _ _ H2).
    apply (updatePlayer_kept _ _ _ H1). exact Hs0. }
  assert (Hs0 : invariant
                  (set_animationTime
                     (animationTime (requestAnimationFrame cb_gameLoop s)
                      + Math_min rawDelta 0.1)
                     (requestAnimationFrame cb_gameLoop s))).
  { revert Hs. now apply kept_same. }
  destruct (state s) eqn:Hstate; cbn in Hrun; rewrite ?Hstate in Hrun;
    try (injection Hrun as <-; assumption).
  exact (Hframe _ Hs0 Hrun).
Qed.

Lemma restartGame_invariant (s : Game) :
  invariant s -> invariant (restartGame s).
Proof.
  intros (? & ? & ? & ? & ?). unfold restartGame, resetPlayer.
  apply loadLevel_invariant. unfold invariant. cbn.
  repeat split; auto; lia.
Qed.

Lemma startGame_invariant (rawDelta now : Q) (s s' : Game) :
  startGame rawDelta now s = Some s' -> invariant s -> invariant s'.
Proof.
  unfold startGame, resetPlayer. intros Hrun (? & ? & ? & ? & ?).
  apply (gameLoop_invariant _ _ _ _ Hrun).
  apply loadLevel_invariant. unfold invariant. cbn.
  repeat split; auto; lia.
Qed.

Lemma run_callback_invariant (cb : Callback) (rawDelta now : Q)
  (s s' : Game) :
  run_callback cb rawDelta now s = Some s' -> invariant s -> invariant s'.
Proof.
  destruct cb; cbn.
  - intros [= <-]. apply nextLevel_invariant.
  - intros Han. apply (animate_kept _ _ _ Han).
  - intros [= <-]. apply (kept_same s (closePuzzle s)); reflexivity.
  - apply gameLoop_invariant.
Qed.

Lemma handle_invariant (e : Event) (s s' : Game) :
  handle e s = Some s' -> invariant s -> invariant s'.
Proof.
  destruct e; cbn.
  - apply startGame_invariant.
  - intros [= <-]. apply restartGame_invariant.
  - intros [= <-]. apply (kept_same s (closePuzzle s)); reflexivity.
  - intros [= <-]. apply (kept_same s (puzzle_click_correct s)); reflexivity.
  - unfold onKeyDown.
    set (s0 := set_keys _ s).
    assert (H0 : kept s s0) by now apply kept_same.
    destruct (_ && _).
    + destruct (tryInteract s0) as [s1|] eqn:Hti; cbn; [|discriminate].
      apply tryInteract_kept in Hti.
      destruct (_ && _); intros [= <-] Hs.
      * apply (kept_same s1 (closePuzzle s1)); try reflexivity.
        apply Hti, H0, Hs.
      * apply Hti, H0, Hs.
    + cbn. destruct (_ && _); intros [= <-] Hs.
      * apply (kept_same s0 (closePuzzle s0)); try reflexivity.
        apply H0, Hs.
      * apply H0, Hs.
  - intros [= <-]. apply (kept_same s (onKeyUp code s)); reflexivity.
  - unfold onMouseDown. destruct (button =? 0)%Z; [|now intros [= <-]].
    destruct (_ && _).
    + intros Hsh Hs. apply (shoot_invariant _ _ _ Hsh).
      revert Hs. apply (kept_same s (set_mouseDown true s)); reflexivity.
    + intros [= <-].
      apply (kept_same s (set_mouseDown true s)); reflexivity.
  - intros [= <-]. unfold onMouseUp. destruct (button =? 0)%Z; [|auto].
    apply (kept_same s (set_mouseDown false s)); reflexivity.
  - intros [= <-]. unfold onMouseMove. destruct (_ && _); [|auto].
    now apply kept_same.
  - intros [= <-].
    apply (kept_same s (onPointerLockChange locked s)); reflexivity.
  - unfold fire. destruct (pending s !! n) as [d|]; cbn; [|discriminate].
    intros Hcb Hs. apply (run_callback_invariant _ _ _ _ _ Hcb).
    revert Hs. now apply kept_same.
Qed.

Lemma constructor_invariant : invariant constructor.
Proof. unfold invariant. cbn. repeat split; auto; (lia || constructor). Qed.

Lemma reachable_invariant (s : Game) : reachable s -> invariant s.
Proof.
  intros Hreach. induction Hreach as [|s s' e _ IH Hstep].
  - apply constructor_invariant.
  - exact (handle_invariant e s s' Hstep IH).
Qed.

(** C2.  In every state the game can reach, [health <= maxHealth] and
    [0 <= ammo <= maxAmmo]: [collectItem] never takes health above
    [maxHealth] or ammunition above [maxAmmo], and [shoot] never takes
    ammunition below 0.  ([takeDamage] subtracts without a lower bound,
    so nothing is said about health from below.) *)
Theorem resources_in_range (s : Game) :
  reachable s ->
  (health s <= maxHealth s)%Z /\ (0 <= ammo s <= maxAmmo s)%Z.
Proof.
  intros Hreach.
  destruct (reachable_invariant s Hreach) as (? & ? & _). auto.
Qed.

(** The levels of the game never put enemies and the boss side by side. *)
Lemma reachable_one_kind (s : Game) :
  reachable s -> boss s = None \/ enemies s = [].
Proof.
  intros Hreach.
  destruct (reachable_invariant s Hreach) as (_ & _ & _ & _ & Hk). exact Hk.
Qed.
End Frame.

(** ** Level advancement *)

Section Levels.
Context `{Host}.

Lemma loadLevel_currentLevel (levelNum : Z) (s : Game) :
  currentLevel (loadLevel levelNum s) = currentLevel s.
Proof. unfold loadLevel. case_ifs; reflexivity. Qed.

Lemma nextLevel_currentLevel (s : Game) :
  currentLevel (nextLevel s) = (currentLevel s + 1)%Z.
Proof.
  unfold nextLevel. cbn. destruct (_ >? _)%Z; [reflexivity|].
  apply loadLevel_currentLevel.
Qed.

Lemma distanceTo_lt_3 (a b : Vec3) :
  Vector3.distanceTo_lt a b 3 = true
  <-> Vector3.distanceToSquared a b < 3 * 3.
Proof.
  unfold Vector3.distanceTo_lt.
  replace (Qltb 0 3) with true by reflexivity. cbn [andb].
  apply Qltb_lt.
Qed.

Lemma checkLevelCompletion_cases (s : Game) (p : Player) :
  player s = Some p ->
  (at_open_gate s /\ checkLevelCompletion s = Some (nextLevel s))
  \/ (~ at_open_gate s /\ checkLevelCompletion s = Some s).
Proof.
  intros Hplayer. unfold checkLevelCompletion, at_open_gate.
  destruct (exitGate s) as [gate|] eqn:Hgate.
  - destruct (gateOpen s) eqn:Hopen; cbn.
    + rewrite Hplayer. cbn.
      destruct (Vector3.distanceTo_lt _ _ 3) eqn:Hnear.
      * left. split; [|reflexivity].
        exists gate, p. repeat split; auto. now apply distanceTo_lt_3.
      * right. split; [|reflexivity].
        intros (gate' & p' & [= <-] & _ & [= <-] & Hlt).
        apply distanceTo_lt_3 in Hlt. congruence.
    + right. split; [|reflexivity].
      intros (_ & _ & _ & [=] & _).
  - right. split; [|reflexivity].
    intros (_ & _ & [=] & _).
Qed.

Lemma shoot_currentLevel (now : Q) (s s' : Game) :
  shoot now s = Some s' -> currentLevel s' = currentLevel s.
Proof.
  unfold shoot. case_ifs; try (now intros [= <-]).
  cbn. destruct (player s); cbn; [|discriminate]. now intros [= <-].
Qed.

(** An event that changes the level number is one of [may_change_level]. *)
Lemma handle_level (e : Event) (s s' : Game) :
  handle e s = Some s' -> currentLevel s' <> currentLevel s ->
  may_change_level e s.
Proof.
  destruct e; cbn [handle may_change_level].
  - intros _ _. exact I.
  - intros _ _. exact I.
  - intros [= <-]. cbn. congruence.
  - intros [= <-]. cbn. congruence.
  - unfold onKeyDown. set (s0 := set_keys _ s).
    assert (H0 : currentLevel s0 = currentLevel s) by reflexivity.
    destruct (_ && _).
    + destruct (tryInteract s0) as [s1|] eqn:Hti; cbn; [|discriminate].
      apply tryInteract_kept in Hti. destruct Hti as (_ & Hl & _).
      destruct (_ && _); intros [= <-]; cbn; congruence.
    + cbn. destruct (_ && _); intros [= <-]; cbn; congruence.
  - intros [= <-]. cbn. congruence.
  - unfold onMouseDown. destruct (button =? 0)%Z; [|intros [= <-]; congruence].
    destruct (_ && _).
    + intros Hsh. apply shoot_currentLevel in Hsh. cbn in Hsh. congruence.
    + intros [= <-]. cbn. congruence.
  - intros [= <-]. unfold onMouseUp. destruct (button =? 0)%Z; cbn; congruence.
  - intros [= <-]. unfold onMouseMove. destruct (_ && _); cbn; congruence.
  - intros [= <-]. cbn. congruence.
  - unfold fire. destruct (pending s !! n) as [d|]; cbn; [|discriminate].
    intros Hrun Hne. exists d. split; [reflexivity|].
    unfold run_callback in Hrun.
    destruct (deferred_callback d) eqn:Hcb; auto.
    + apply animate_kept in Hrun. destruct Hrun as (_ & Hl & _).
      cbn in Hl. congruence.
    + injection Hrun as <-. cbn in Hne. congruence.
Qed.

(** C3.  The completion check of a frame calls [nextLevel] exactly when
    an exit gate exists, [gateOpen] is set and the player is less than 3
    from the gate, and then the level number grows by one.  The other
    updates of a frame leave the level number alone.  Outside the frame
    the level also advances, with no test at all, when the two-second
    timer set by [openGateAnimation] fires; apart from the start and
    restart buttons no other event changes the level number. *)
Theorem level_advances (s : Game) (p : Player) :
  player s = Some p ->
  (exists s', checkLevelCompletion s = Some s'
     /\ (at_open_gate s -> s' = nextLevel s)
     /\ (~ at_open_gate s -> s' = s)
     /\ (currentLevel s' = (currentLevel s + 1)%Z <-> at_open_gate s))
  /\ (forall (delta now : Q) (s' : Game),
        updatePlayer delta s = Some s' \/ updateEnemies delta now s = Some s'
        \/ updateBoss delta now s = Some s'
        \/ updateProjectiles delta now s = Some s'
        \/ updateCollectibles s = Some s' ->
        currentLevel s' = currentLevel s)
  /\ (forall (n : nat) (ms : Z) (rawDelta now : Q),
        pending s !! n = Some (Timeout cb_nextLevel ms) ->
        exists s', fire n rawDelta now s = Some s'
          /\ currentLevel s' = (currentLevel s + 1)%Z)
  /\ (forall (e : Event) (s' : Game),
        handle e s = Some s' -> currentLevel s' <> currentLevel s ->
        may_change_level e s).
Proof.
  intros Hplayer.
  split; [|split; [|split; [|intros e s'; apply handle_level]]].
  - destruct (checkLevelCompletion_cases s p Hplayer)
      as [[Hat ->] | [Hnot ->]]; eexists; (split; [reflexivity|]).
    + rewrite nextLevel_currentLevel. tauto.
    + split; [tauto|]. split; [tauto|]. split; [lia | tauto].
  - intros delta now s' [Hrun | [Hrun | [Hrun | [Hrun | Hrun]]]].
    + apply (updatePlayer_kept _ _ _ Hrun).
    + apply (updateEnemies_kept _ _ _ _ Hrun).
    + apply (updateBoss_kept _ _ _ _ Hrun).
    + apply (updateProjectiles_kept _ _ _ _ Hrun).
    + apply (updateCollectibles_kept _ _ Hrun).
  - intros n ms rawDelta now Hpending. unfold fire. rewrite Hpending. cbn.
    eexists. split; [reflexivity|]. now rewrite nextLevel_currentLevel.
Qed.

End Levels.

(** ** The statements on concrete games *)

Lemma run_reachable `{Host} (es : list Event) (s s' : Game) :
  reachable s -> run es s = Some s' -> reachable s'.
Proof.
  revert s. induction es as [|e es IH]; cbn; intros s Hs.
  - now intros [= <-].
  - destruct (handle e s) as [s1|] eqn:He; cbn; [|discriminate].
    apply IH. exact (reachable_handle s s1 e Hs He).
Qed.

Lemma shoot_without_ammo_witness :
  ammo (set_ammo 0 Scene.level1) = 0%Z
  /\ shoot (H := Approx.host) 1 (set_ammo 0 Scene.level1)
     = Some (set_ammo 0 Scene.level1).
Proof.
  split; [reflexivity|].
  apply (shoot_without_ammo (H := Approx.host)). reflexivity.
Defined.

Lemma shoot_during_cooldown_witness :
  0.1 - lastShootTime Scene.level1 < shootCooldown Scene.level1
  /\ shoot (H := Approx.host) 0.1 Scene.level1 = Some Scene.level1.
Proof.
  split; [reflexivity|].
  apply (shoot_during_cooldown (H := Approx.host)). reflexivity.
Defined.

Lemma takeDamage_lethal_witness :
  (health Scene.shard_incoming - 15 <= 0)%Z
  /\ state (takeDamage 15 Scene.shard_incoming) = GAME_OVER
  /\ health (takeDamage 15 Scene.shard_incoming)
     = (health Scene.shard_incoming - 15)%Z.
Proof.
  split; [cbn; lia|].
  apply (takeDamage_lethal 15 Scene.shard_incoming). cbn. lia.
Defined.

(** At exactly half health and 1.5 seconds after the last attack the boss
    attacks: the one-second cooldown is in force. *)
Lemma boss_attack_cooldown_witness :
  boss Scene.boss_at_half = Some (mkBoss (mkVec3 0 1 (-10)) None)
  /\ currentLevel Scene.boss_at_half = 3%Z
  /\ player Scene.boss_at_half = Some (mkPlayer (mkVec3 0 1 30))
  /\ (0 < bossHealth Scene.boss_at_half)%Z
  /\ (0 < bossMaxHealth Scene.boss_at_half)%Z
  /\ exists s',
       updateBoss (H := Approx.host) 0.1 1.5 Scene.boss_at_half = Some s'
       /\ boss_attacked Scene.boss_at_half s'.
Proof.
  repeat (split; [reflexivity|]).
  destruct (boss_attack_cooldown (H := Approx.host) 0.1 1.5
              Scene.boss_at_half (mkBoss (mkVec3 0 1 (-10)) None)
              (mkPlayer (mkVec3 0 1 30)))
    as (s' & Hrun & _ & _ & Hhalf); try reflexivity.
  exists s'. split; [exact Hrun|].
  apply Hhalf; reflexivity.
Defined.

Lemma platform_loop_first_landing_witness :
  player (Scene.falling_at 2) = Some (mkPlayer (mkVec3 5 2 (-10)))
  /\ Forall (fun q => checkPlatformCollision q (Scene.falling_at 2)
                      = Some (false, Scene.falling_at 2))
       [mkPlatform Vector3.zero true false None]
  /\ box_landing Scene.ice (mkBounds 4 0.5 4) (mkVec3 5 2 (-10))
       (playerVelocity (Scene.falling_at 2))
  /\ exists s',
       platform_loop
         (mkPlatform Vector3.zero true false None :: Scene.ice
          :: [mkPlatform (mkVec3 5 1 (-10)) false false
                (Some (mkBounds 4 0.5 4))])
         (Scene.falling_at 2) = Some s'
       /\ player s'
          = Some (mkPlayer
                    (mkVec3 5 (platformTop Scene.ice (mkBounds 4 0.5 4) + 1)
                       (-10)))
       /\ playerOnGround s' = true.
Proof.
  assert (Hmiss : Forall (fun q => checkPlatformCollision q (Scene.falling_at 2)
                                   = Some (false, Scene.falling_at 2))
                    [mkPlatform Vector3.zero true false None]).
  { repeat constructor. }
  assert (Hland : box_landing Scene.ice (mkBounds 4 0.5 4) (mkVec3 5 2 (-10))
                    (playerVelocity (Scene.falling_at 2))).
  { repeat split. }
  split; [reflexivity|]. split; [exact Hmiss|]. split; [exact Hland|].
  destruct (platform_loop_first_landing
              [mkPlatform Vector3.zero true false None]
              [mkPlatform (mkVec3 5 1 (-10)) false false
                 (Some (mkBounds 4 0.5 4))]
              Scene.ice (mkBounds 4 0.5 4) (Scene.falling_at 2)
              (mkPlayer (mkVec3 5 2 (-10)))
              eq_refl eq_refl eq_refl eq_refl Hmiss) as [_ Hloop].
  destruct (Hloop Hland) as (s' & Hrun & Hp & _ & Hg).
  exists s'. split; [exact Hrun|]. split; [exact Hp | exact Hg].
Defined.

(** The band stops short of its lower end: at [y = top - 0.5] the test in
    the words of the specification passes and the one of the code does
    not. *)
Lemma landing_band_lower_end :
  box_landing_spec Scene.ice (mkBounds 4 0.5 4) (mkVec3 5 1.25 (-10))
    (playerVelocity (Scene.falling_at 1.25))
  /\ vy (mkVec3 5 1.25 (-10))
     == platformTop Scene.ice (mkBounds 4 0.5 4) - 0.5
  /\ checkPlatformCollision Scene.ice (Scene.falling_at 1.25)
     = Some (false, Scene.falling_at 1.25).
Proof.
  split; [|split; reflexivity].
  unfold box_landing_spec. cbn. repeat split; try reflexivity.
  discriminate.
Qed.

(** The player has 10 health and a shard of damage 15 hits: [takeDamage]
    takes health to -5. *)
Lemma health_below_zero :
  health Scene.shard_incoming = 10%Z
  /\ health (takeDamage 15 Scene.shard_incoming) = (-5)%Z
  /\ exists s',
       updateProjectiles 0.1 1 Scene.shard_incoming = Some s'
       /\ health s' = (-5)%Z /\ state s' = GAME_OVER /\ projectiles s' = [].
Proof.
  split; [reflexivity|]. split; [reflexivity|].
  eexists. split; [vm_compute; reflexivity|].
  repeat split.
Qed.

Lemma resources_in_range_witness :
  reachable (H := Approx.host) Scene.after_opening
  /\ (health Scene.after_opening <= maxHealth Scene.after_opening)%Z
  /\ (0 <= ammo Scene.after_opening <= maxAmmo Scene.after_opening)%Z.
Proof.
  assert (Hreach : reachable (H := Approx.host) Scene.after_opening).
  { apply (run_reachable (H := Approx.host) Scene.opening constructor).
    - apply reachable_constructor.
    - vm_compute. reflexivity. }
  split; [exact Hreach|].
  exact (resources_in_range (H := Approx.host) Scene.after_opening Hreach).
Defined.

(** Level 1, key in hand, gate open and the player right in front of it:
    the completion check advances to level 2. *)
Lemma level_advances_witness :
  player (set_gateOpen true (Scene.level1_with_key 35 1 (-14)))
  = Some (mkPlayer (mkVec3 35 1 (-14)))
  /\ exists s',
       checkLevelCompletion (H := Approx.host)
         (set_gateOpen true (Scene.level1_with_key 35 1 (-14))) = Some s'
       /\ currentLevel s' = 2%Z.
Proof.
  split; [reflexivity|].
  destruct (level_advances (H := Approx.host)
              (set_gateOpen true (Scene.level1_with_key 35 1 (-14)))
              (mkPlayer (mkVec3 35 1 (-14))) eq_refl)
    as [(s' & Hrun & _ & _ & Hiff) _].
  exists s'. split; [exact Hrun|].
  apply Hiff. eexists _, _. repeat split.
Defined.

(** The player opens the gate of level 1 from a spot that is within reach
    of the gate's trigger zone but 3 or more away from the door.  The
    completion check does nothing there, and two seconds later the timer
    advances the level all the same. *)
Lemma gate_timer_advances_away_from_gate :
  exists s1 s2 : Game,
    tryInteract (Scene.level1_with_key 35 1 (-12.3)) = Some s1
    /\ state s1 = PLAYING /\ gateOpen s1 = true
    /\ ~ at_open_gate s1
    /\ checkLevelCompletion (H := Approx.host) s1 = Some s1
    /\ pending s1 !! 1%nat = Some (Timeout cb_nextLevel 2000)
    /\ fire (H := Approx.host) 1 0 2 s1 = Some s2
    /\ currentLevel s1 = 1%Z /\ currentLevel s2 = 2%Z.
Proof.
  eexists. eexists.
  split; [vm_compute; reflexivity|].
  split; [reflexivity|]. split; [reflexivity|].
  split.
  { intros (gate & p & Hgate & _ & Hp & Hnear).
    injection Hgate as <-. injection Hp as <-. revert Hnear.
    vm_compute. discriminate. }
  split; [vm_compute; reflexivity|].
  split; [reflexivity|].
  split; [vm_compute; reflexivity|].
  split; reflexivity.
Qed.



(** ** One shot, two targets *)

(** Off the games a frame works on.  [Scene.crossfire] is built by hand
    with a wolf next to the boss, which no level of the game does: there
    [updateProjectiles] lets one player shot take 10 health off the wolf and
    off the boss, and the second splice takes the other shot out as well.
    The statement on the projectiles' turns below is therefore one about
    the games of [in_frame], not about every record. *)
Example shot_hits_enemy_and_boss :
  map enemy_health (enemies Scene.crossfire) = [30%Z]
  /\ bossHealth Scene.crossfire = 100%Z
  /\ length (projectiles Scene.crossfire) = 2%nat
  /\ exists s',
       updateProjectiles 0.1 1 Scene.crossfire = Some s'
       /\ map enemy_health (enemies s') = [20%Z]
       /\ bossHealth s' = 90%Z
       /\ projectiles s' = [].
Proof.
  repeat (split; [reflexivity|]).
  eexists. split; [vm_compute; reflexivity|]. repeat split.
Qed.

(** A projectile past its lifetime is taken out and touches nothing:
    expiry and a hit never fall into the same turn. *)
Lemma updateProjectiles_turn_expired (delta now : Q) (i : nat) (s : Game)
  (proj : Projectile) :
  projectiles s !! i = Some proj ->
  lifetime proj < now - spawnTime proj ->
  exists s', updateProjectiles_turn delta now i s = Some s'
    /\ length (projectiles s') = (length (projectiles s) - 1)%nat
    /\ enemies s' = enemies s /\ bossHealth s' = bossHealth s
    /\ health s' = health s.
Proof.
  intros Hproj Hold. unfold updateProjectiles_turn. rewrite Hproj. cbn.
  apply Qgtb_gt in Hold. rewrite Hold.
  eexists. split; [reflexivity|]. cbn.
  split; [|auto].
  rewrite length_delete, length_insert; [reflexivity|].
  apply lookup_lt_is_Some. rewrite length_insert.
  apply lookup_lt_is_Some. eauto.
Qed.

(** Where no boss is around, or no enemy is within reach of the moved
    projectile, a turn of [updateProjectiles] takes the projectile out at
    most once and damages at most one target. *)
Lemma updateProjectiles_turn_single_target (delta now : Q) (i : nat)
  (s : Game) (proj : Projectile) (p : Player) :
  projectiles s !! i = Some proj ->
  player s = Some p ->
  isPlayerProjectile proj && isEnemyProjectile proj = false ->
  let moved :=
    set_projectile_position
      (Vector3.add (projectile_position proj)
         (Vector3.multiplyScalar (velocity proj) delta)) proj in
  boss s = None
  \/ findIndex (fun enemy => Vector3.distanceTo_lt (projectile_position moved)
                               (enemy_position enemy) 1.5) (enemies s)
     = None ->
  exists s', updateProjectiles_turn delta now i s = Some s'
    /\ turn_outcome now i proj (<[i := moved]> (projectiles s)) s s'.
Proof.
  intros Hproj Hplayer Hflags moved Hone.
  unfold updateProjectiles_turn. rewrite Hproj. cbn. fold moved.
  destruct (Qgtb (now - spawnTime proj) (lifetime proj)) eqn:Hold.
  { apply Qgtb_gt in Hold. eexists. split; [reflexivity|].
    now apply expires. }
  assert (Hyoung : ~ lifetime proj < now - spawnTime proj).
  { apply Qgtb_le in Hold. now apply Qle_not_lt. }
  destruct (isPlayerProjectile proj) eqn:Hmine.
  - cbn in Hflags. rewrite Hflags.
    destruct (findIndex _ (enemies s)) as [j|] eqn:Hj; cbn.
    + destruct Hone as [Hboss | [=]]. rewrite Hboss.
      eexists. split; [reflexivity|]. now apply (hits_enemy _ _ _ _ _ _ j).
    + destruct (boss s) as [b|]; cbn.
      * destruct (Vector3.distanceTo_lt _ (boss_position b) 3).
        -- eexists. split; [reflexivity|]. now apply hits_boss.
        -- eexists. split; [reflexivity|]. now apply flies_on.
      * eexists. split; [reflexivity|]. now apply flies_on.
  - destruct (isEnemyProjectile proj); cbn.
    + rewrite Hplayer. cbn.
      destruct (Vector3.distanceTo_lt _ (player_position p) 1).
      * eexists. split; [reflexivity|]. unfold takeDamage. cbn.
        destruct (_ <=? _)%Z; now apply hits_player.
      * eexists. split; [reflexivity|]. now apply flies_on.
    + eexists. split; [reflexivity|]. now apply flies_on.
Qed.

Section Shipped.
Context `{Host}.

(** In the game as shipped every turn of [updateProjectiles] is of that
    kind: its levels never hold enemies and the boss together. *)
Lemma reachable_turn_outcome (delta now : Q) (i : nat) (s : Game)
  (proj : Projectile) (p : Player) :
  reachable s ->
  projectiles s !! i = Some proj ->
  player s = Some p ->
  exists s', updateProjectiles_turn delta now i s = Some s'
    /\ turn_outcome now i proj
         (<[i := set_projectile_position
                   (Vector3.add (projectile_position proj)
                      (Vector3.multiplyScalar (velocity proj) delta)) proj]>
            (projectiles s)) s s'.
Proof.
  intros Hreach Hproj Hplayer.
  destruct (reachable_invariant s Hreach) as (_ & _ & _ & Hp & Hk).
  rewrite Forall_lookup in Hp. destruct (Hp _ _ Hproj) as [_ Hflags].
  apply (updateProjectiles_turn_single_target delta now i s proj p);
    auto.
  destruct Hk as [Hk|Hk]; [now left | right; now rewrite Hk].
Qed.


End Shipped.

Lemma after_opening_reachable :
  reachable (H := Approx.host) Scene.after_opening.
Proof.
  apply (run_reachable (H := Approx.host) Scene.opening constructor).
  - apply reachable_constructor.
  - vm_compute. reflexivity.
Qed.


(** ** Every source of damage ends the game on a lethal hit *)

Ltac lethal_paths :=
  unfold takeDamage; cbn;
  repeat match goal with
         | |- context [(?a <=? ?b)%Z] => destruct (Z.leb_spec a b)
         end;
  cbn; intros; (reflexivity || lia).

Lemma projectile_hit_lethal (delta now : Q) (i : nat) (s s' : Game) :
  updateProjectiles_turn delta now i s = Some s' ->
  (health s' < health s)%Z -> (health s' <= 0)%Z ->
  state s' = GAME_OVER.
Proof.
  unfold updateProjectiles_turn.
  all_paths; try discriminate; intros [= <-]; lethal_paths.
Qed.

Section Sources.
Context `{Host}.

Lemma wolf_bite_lethal (delta now : Q) (playerPos : Vec3) (i : nat)
  (s s' : Game) :
  updateEnemies_turn delta now playerPos i s = Some s' ->
  (health s' < health s)%Z -> (health s' <= 0)%Z ->
  state s' = GAME_OVER.
Proof.
  unfold updateEnemies_turn.
  all_paths; try discriminate; pair_paths; intros [= <-];
    unfold enemyShoot; lethal_paths.
Qed.

Lemma ground_slam_lethal (delta now : Q) (s s' : Game) :
  updateBoss delta now s = Some s' ->
  (health s' < health s)%Z -> (health s' <= 0)%Z ->
  state s' = GAME_OVER.
Proof.
  unfold updateBoss, bossGroundSlam, bossIceAttack.
  destruct (boss s) as [b|]; [|intros [= <-]; lia].
  destruct (negb _); [intros [= <-]; lia|].
  destruct (player s) as [p|] eqn:Hp; cbn; [|discriminate].
  destruct (bossHealth s <=? 0)%Z; [intros [= <-]; cbn; lia|].
  destruct (Qgtb _ _); [|intros [= <-]; cbn; lia].
  destruct (Vector3.distanceTo_lt (player_position p) (boss_position b) 5);
    cbn.
  - unfold takeDamage. rewrite Hp. cbn.
    match goal with
    | |- context [if ?c then _ else _] => destruct c
    end; cbn.
    + destruct (Z.leb_spec (health s - 20) 0); cbn; intros [= <-]; cbn;
        (reflexivity || lia).
    + intros [= <-]. cbn. lia.
  - intros [= <-]. cbn. lia.
Qed.
End Sources.

(** ** The gate interaction on concrete games *)

(** Level 1 with the key: the gate opens and the key is gone. *)
Example gate_opens_with_key :
  exists s',
    tryOpenGate (Scene.level1_with_key 35 1 (-12.3)) = Some s'
    /\ inventory (Scene.level1_with_key 35 1 (-12.3))
       = [Some (mkItem type_key "K"); None; None]
    /\ gateOpen s' = true /\ inventory s' = [None; None; None].
Proof.
  eexists. split; [vm_compute; reflexivity|]. repeat split.
Qed.

(** Level 1 without the key: nothing happens. *)
Example gate_stays_shut_without_key :
  tryOpenGate Scene.level1 = Some Scene.level1.
Proof. reflexivity. Qed.

(** Level 3: nothing happens, whatever the inventory and the puzzle flag. *)
Example gate_stays_shut_on_level_3 :
  tryOpenGate
    (set_puzzleSolved true
       (set_inventory [Some (mkItem type_key "K"); None; None]
          Scene.boss_at_half))
  = Some (set_puzzleSolved true
            (set_inventory [Some (mkItem type_key "K"); None; None]
               Scene.boss_at_half)).
Proof. reflexivity. Qed.

(** * More properties *)

(** ** The enemy loop *)

Lemma insert_middle {A : Type} (pre rest : list A) (x y : A) :
  <[length pre := y]> (pre ++ x :: rest) = pre ++ y :: rest.
Proof.
  rewrite insert_app_r_alt by lia. now rewrite Nat.sub_diag.
Qed.

Section EnemyLoop.
Context `{Host}.

(** One turn, on the enemy [x] at the end of the part still to visit. *)
Lemma updateEnemies_turn_shape (delta now : Q) (playerPos : Vec3)
  (pre rest : list Enemy) (x : Enemy) (s : Game) :
  enemies s = pre ++ x :: rest ->
  exists s1,
    updateEnemies_turn delta now playerPos (length pre) s = Some s1
    /\ player s1 = player s
    /\ (enemy_type x = spirit -> health s1 = health s /\ state s1 = state s)
    /\ (enemy_type x = wolf -> projectiles s1 = projectiles s)
    /\ ((alive (enemy_health x) = false /\ enemies s1 = pre ++ rest)
        \/ (alive (enemy_health x) = true
            /\ exists x', enemies s1 = pre ++ x' :: rest
                 /\ enemy_health x' = enemy_health x)).
Proof.
  intros Hl. unfold updateEnemies_turn, alive.
  rewrite Hl, list_lookup_middle by reflexivity. cbn.
  destruct (enemy_health x <=? 0)%Z.
  { eexists. split; [reflexivity|]. cbn. rewrite delete_middle.
    repeat split; auto. }
  match goal with
  | |- context [match ?t with (_, _) => _ end] =>
      destruct t as [e' sm] eqn:Hmid
  end.
  assert (Hmid' :
    enemy_health e' = enemy_health x /\ enemies sm = enemies s
    /\ player sm = player s
    /\ (enemy_type x = spirit -> health sm = health s /\ state sm = state s)
    /\ (enemy_type x = wolf -> projectiles sm = projectiles s)).
  { clear Hl. pair_paths; cbn in *; unfold enemyShoot, takeDamage; cbn;
      case_ifs; cbn; repeat split; (reflexivity || congruence). }
  destruct Hmid' as (Hh & He & Hp & Hs & Hw).
  eexists. split; [reflexivity|]. cbn. rewrite He, Hl, insert_middle.
  split; [exact Hp|]. split; [exact Hs|]. split; [exact Hw|].
  right. split; [reflexivity|]. eexists. split; [reflexivity|].
  destruct (enemy_type e'); cbn; exact Hh.
Qed.

Lemma updateEnemies_loop (delta now : Q) (playerPos : Vec3)
  (pre rest : list Enemy) (s : Game) :
  enemies s = pre ++ rest ->
  exists s',
    downward (updateEnemies_turn delta now playerPos) (length pre) s = Some s'
    /\ player s' = player s
    /\ enemy_health <$> enemies s'
       = List.filter alive (enemy_health <$> pre) ++ (enemy_health <$> rest)
    /\ (Forall (fun e => enemy_type e = spirit) pre ->
        health s' = health s /\ state s' = state s)
    /\ (Forall (fun e => enemy_type e = wolf) pre ->
        projectiles s' = projectiles s).
Proof.
  revert rest s. induction pre as [|x pre IH] using rev_ind; intros rest s Hl.
  - exists s. cbn. split; [reflexivity|]. split; [reflexivity|].
    rewrite Hl. auto.
  - rewrite <- app_assoc in Hl. cbn in Hl.
    rewrite length_app, Nat.add_1_r. cbn [downward].
    destruct (updateEnemies_turn_shape delta now playerPos pre rest x s Hl)
      as (s1 & -> & Hp1 & Hs1 & Hw1 & Hcase). cbn.
    assert (Hkinds :
      (Forall (fun e => enemy_type e = spirit) (pre ++ [x]) ->
       Forall (fun e => enemy_type e = spirit) pre
       /\ health s1 = health s /\ state s1 = state s)
      /\ (Forall (fun e => enemy_type e = wolf) (pre ++ [x]) ->
          Forall (fun e => enemy_type e = wolf) pre
          /\ projectiles s1 = projectiles s)).
    { split; intros Hall; apply Forall_app in Hall as [Hpre Hx];
        rewrite Forall_singleton in Hx; (split; [exact Hpre|]); auto. }
    destruct Hkinds as [Hsp Hwo].
    rewrite fmap_app, List.filter_app. cbn [fmap list_fmap List.filter].
    destruct Hcase as [[Hdead Hl1] | [Hlive (x' & Hl1 & Hx')]].
    + destruct (IH rest s1 Hl1) as (s' & -> & Hp & Hh & Hs & Hw).
      exists s'. split; [reflexivity|]. split; [congruence|].
      rewrite Hdead, app_nil_r. split; [exact Hh|].
      split.
      * intros Hall. destruct (Hsp Hall) as (Hpre & ? & ?).
        destruct (Hs Hpre). split; congruence.
      * intros Hall. destruct (Hwo Hall) as (Hpre & ?).
        rewrite (Hw Hpre). congruence.
    + destruct (IH (x' :: rest) s1 Hl1) as (s' & -> & Hp & Hh & Hs & Hw).
      exists s'. split; [reflexivity|]. split; [congruence|].
      rewrite Hlive, <- app_assoc. cbn. rewrite <- Hx'. split; [exact Hh|].
      split.
      * intros Hall. destruct (Hsp Hall) as (Hpre & ? & ?).
        destruct (Hs Hpre). split; congruence.
      * intros Hall. destruct (Hwo Hall) as (Hpre & ?).
        rewrite (Hw Hpre). congruence.
Qed.

(** X1.  With a player around, [updateEnemies] runs to its end.  The healths
    of the enemies it leaves are the healths it found, in their order,
    without those of 0 or less: the dead are taken out, and no health is
    changed. *)
Theorem updateEnemies_removes_dead (delta now : Q) (s : Game) (p : Player) :
  player s = Some p ->
  exists s', updateEnemies delta now s = Some s'
    /\ player s' = Some p
    /\ enemy_health <$> enemies s'
       = List.filter alive (enemy_health <$> enemies s).
Proof.
  intros Hp. unfold updateEnemies. rewrite Hp. cbn.
  destruct (updateEnemies_loop delta now (player_position p) (enemies s) [] s)
    as (s' & Hrun & Hp' & Hh & _); [now rewrite app_nil_r|].
  exists s'. split; [exact Hrun|]. split; [congruence|].
  now rewrite Hh, app_nil_r.
Qed.

(** X2.  Spirits do no harm by themselves and wolves do not shoot: with
    spirits only, [updateEnemies] leaves the player's health and the game
    state as they are; with wolves only, it leaves the projectile list as it
    is. *)
Theorem updateEnemies_kinds (delta now : Q) (s s' : Game) :
  updateEnemies delta now s = Some s' ->
  (Forall (fun e => enemy_type e = spirit) (enemies s) ->
   health s' = health s /\ state s' = state s)
  /\ (Forall (fun e => enemy_type e = wolf) (enemies s) ->
      projectiles s' = projectiles s).
Proof.
  unfold updateEnemies. destruct (player s) as [p|]; cbn; [|discriminate].
  destruct (updateEnemies_loop delta now (player_position p) (enemies s) [] s)
    as (s1 & Hrun & _ & _ & Hs & Hw); [now rewrite app_nil_r|].
  rewrite Hrun. intros [= <-]. auto.
Qed.
End EnemyLoop.

(** ** The projectile loop *)

Lemma delete_app_length {A : Type} (pre l : list A) :
  delete (length pre) (pre ++ l) = pre ++ tail l.
Proof.
  induction pre as [|a pre IH]; [now destruct l|].
  cbn [length app]. change (a :: delete (length pre) (pre ++ l) = a :: pre ++ tail l).
  now rewrite IH.
Qed.

Lemma sublist_tail {A : Type} (l : list A) : tail l `sublist_of` l.
Proof. destruct l; cbn; [reflexivity | now apply sublist_cons]. Qed.

Lemma in_flight_moved (delta now : Q) (x : Projectile) :
  in_flight now (moved delta x) = in_flight now x.
Proof. reflexivity. Qed.

(** One turn, on the projectile [x] at the end of the part still to
    visit: what is left of [x :: rest] is a part of it, with [x] moved, and
    without [x] when its time is up. *)
Lemma updateProjectiles_turn_shape (delta now : Q)
  (pre rest : list Projectile) (x : Projectile) (s : Game) (p : Player) :
  projectiles s = pre ++ x :: rest ->
  player s = Some p ->
  exists s1 l',
    updateProjectiles_turn delta now (length pre) s = Some s1
    /\ player s1 = Some p
    /\ projectiles s1 = pre ++ l'
    /\ l' `sublist_of`
         (if in_flight now x then [moved delta x] else []) ++ rest
    /\ length (enemies s1) = length (enemies s).
Proof.
  intros Hl Hp. unfold updateProjectiles_turn, in_flight.
  rewrite Hl, list_lookup_middle by reflexivity. cbn.
  fold (moved delta x). rewrite insert_middle.
  destruct (Qgtb (now - spawnTime x) (lifetime x)); cbn.
  { eexists _, rest. split; [reflexivity|]. cbn. rewrite delete_middle.
    repeat split; auto. }
  all_paths; try congruence;
    unfold takeDamage; cbn; case_ifs; cbn;
    (eexists _, _; split; [reflexivity|]; cbn;
     rewrite ?delete_middle, ?delete_app_length, ?length_alter;
     split; [congruence|]; split; [reflexivity|]; split; [|reflexivity];
     repeat first [ reflexivity
                  | apply sublist_cons
                  | (etrans; [apply sublist_tail|]) ]).
Qed.

Lemma updateProjectiles_loop (delta now : Q) (pre rest : list Projectile)
  (s : Game) (p : Player) :
  projectiles s = pre ++ rest ->
  player s = Some p ->
  exists s',
    downward (updateProjectiles_turn delta now) (length pre) s = Some s'
    /\ player s' = Some p
    /\ projectiles s'
       `sublist_of` List.filter (in_flight now) (moved delta <$> pre) ++ rest
    /\ length (enemies s') = length (enemies s).
Proof.
  revert rest s. induction pre as [|x pre IH] using rev_ind;
    intros rest s Hl Hp.
  - exists s. cbn. rewrite Hl. auto.
  - rewrite <- app_assoc in Hl. cbn in Hl.
    rewrite length_app, Nat.add_1_r. cbn [downward].
    destruct (updateProjectiles_turn_shape delta now pre rest x s p Hl Hp)
      as (s1 & l' & -> & Hp1 & Hl1 & Hsub & He1). cbn.
    destruct (IH l' s1 Hl1 Hp1) as (s' & -> & Hp' & Hsub' & He').
    exists s'. split; [reflexivity|]. split; [exact Hp'|].
    split; [|congruence].
    rewrite fmap_app, List.filter_app, <- app_assoc.
    etrans; [exact Hsub'|]. apply sublist_app; [reflexivity|].
    cbn [fmap list_fmap List.filter]. rewrite in_flight_moved.
    destruct (in_flight now x); exact Hsub.
Qed.

(** X3.  With a player around, [updateProjectiles] runs to its end.  The
    projectiles it leaves are some of those it found, each moved on by its
    velocity, in their order; none of them is past its lifetime, and none is
    new. *)
Theorem updateProjectiles_survivors (delta now : Q) (s : Game) (p : Player) :
  player s = Some p ->
  exists s', updateProjectiles delta now s = Some s'
    /\ projectiles s'
       `sublist_of`
       List.filter (in_flight now) (moved delta <$> projectiles s).
Proof.
  intros Hp. unfold updateProjectiles.
  destruct (updateProjectiles_loop delta now (projectiles s) [] s p)
    as (s' & Hrun & _ & Hsub & _); [now rewrite app_nil_r | exact Hp |].
  exists s'. split; [exact Hrun|]. now rewrite app_nil_r in Hsub.
Qed.

(** *** Who pays for a hit *)

Lemma worn_refl (e : Enemy) : worn e e.
Proof. split; [now destruct e | lia]. Qed.

Lemma worn_trans (e1 e2 e3 : Enemy) : worn e1 e2 -> worn e2 e3 -> worn e1 e3.
Proof.
  intros [H12 Hle12] [H23 Hle23]. split; [|lia].
  rewrite H23 at 1. rewrite H12. reflexivity.
Qed.

Lemma Forall2_worn_refl (l : list Enemy) : Forall2 worn l l.
Proof. induction l; constructor; auto using worn_refl. Qed.

Lemma Forall2_worn_trans (l1 l2 l3 : list Enemy) :
  Forall2 worn l1 l2 -> Forall2 worn l2 l3 -> Forall2 worn l1 l3.
Proof.
  intros H12. revert l3. induction H12 as [|e1 e2 l1 l2 He _ IH];
    intros l3 H23; inversion H23; subst; constructor;
    eauto using worn_trans.
Qed.

Lemma Forall2_worn_hit (d : Z) (j : nat) (l : list Enemy) :
  (0 <= d)%Z ->
  Forall2 worn l
    (alter (fun enemy => set_enemy_health (enemy_health enemy - d) enemy) j l).
Proof.
  intros Hd. apply Forall2_alter_r; [apply Forall2_worn_refl|].
  intros e e' He He'. rewrite He in He'. injection He' as <-.
  split; [reflexivity | cbn; lia].
Qed.

(** What a sequence of turns may do to the targets when no projectile
    carries a negative damage. *)
Lemma updateProjectiles_turn_wear (delta now : Q) (i : nat) (s s' : Game) :
  Forall damaging (projectiles s) ->
  updateProjectiles_turn delta now i s = Some s' ->
  Forall damaging (projectiles s')
  /\ (health s' <= health s)%Z /\ (bossHealth s' <= bossHealth s)%Z
  /\ Forall2 worn (enemies s) (enemies s').
Proof.
  intros Hall. unfold updateProjectiles_turn.
  destruct (projectiles s !! i) as [proj|] eqn:Hproj; cbn; [|discriminate].
  assert (Hd : (0 <= damage proj)%Z).
  { rewrite Forall_lookup in Hall. exact (Hall _ _ Hproj). }
  assert (Hall' : Forall damaging
                    (<[i := set_projectile_position
                              (Vector3.add (projectile_position proj)
                                 (Vector3.multiplyScalar (velocity proj) delta))
                              proj]> (projectiles s))).
  { apply Forall_insert; [exact Hall | exact Hd]. }
  all_paths; try discriminate; intros [= <-]; unfold takeDamage; cbn;
    case_ifs; cbn;
    (split; [repeat apply Forall_delete; exact Hall'|]);
    (split; [lia|]); (split; [lia|]);
    first [ apply Forall2_worn_refl | now apply Forall2_worn_hit ].
Qed.

(** X4.  Projectiles only take: with no negative damage among them,
    [updateProjectiles] raises neither the player's health nor the boss's,
    and every enemy is still there afterwards, in its place, the same but
    for a health that is at most what it was. *)
Theorem updateProjectiles_wear (delta now : Q) (s s' : Game) :
  Forall damaging (projectiles s) ->
  updateProjectiles delta now s = Some s' ->
  (health s' <= health s)%Z /\ (bossHealth s' <= bossHealth s)%Z
  /\ Forall2 worn (enemies s) (enemies s').
Proof.
  unfold updateProjectiles. generalize (length (projectiles s)) as n.
  intros n. revert s. induction n as [|n IH]; cbn; intros s Hall.
  - intros [= <-]. split; [lia|]. split; [lia|]. apply Forall2_worn_refl.
  - destruct (updateProjectiles_turn delta now n s) as [s1|] eqn:Hs1; cbn;
      [|discriminate].
    destruct (updateProjectiles_turn_wear _ _ _ _ _ Hall Hs1)
      as (Hall1 & Hh1 & Hb1 & He1).
    intros Hrest. destruct (IH s1 Hall1 Hrest) as (Hh & Hb & He).
    split; [lia|]. split; [lia|]. eapply Forall2_worn_trans; eauto.
Qed.

(** ** Pickups *)

Section Pickups.
Context `{Host}.

(** One turn, on the collectible [x] at the end of the part still to
    visit: it is picked up, or it stays, bobbed, and is then out of
    reach. *)
Lemma updateCollectibles_turn_shape (playerPos : Vec3)
  (pre rest : list Collectible) (x : Collectible) (s : Game) :
  collectibles s = pre ++ x :: rest ->
  exists s1,
    updateCollectibles_turn playerPos (length pre) s = Some s1
    /\ player s1 = player s
    /\ (collectibles s1 = pre ++ rest
        \/ exists x', collectibles s1 = pre ++ x' :: rest
             /\ collectible_type x' = collectible_type x
             /\ in_reach playerPos x' = false).
Proof.
  intros Hl. unfold updateCollectibles_turn, in_reach.
  rewrite Hl, list_lookup_middle by reflexivity. cbn.
  rewrite insert_middle.
  match goal with
  | |- context [if ?c then _ else _] => destruct c eqn:Hreach
  end.
  - eexists. split; [reflexivity|]. unfold collectItem. cbn.
    rewrite list_lookup_middle by reflexivity. cbn.
    destruct (collectible_type x); cbn; rewrite delete_middle; auto.
  - eexists. split; [reflexivity|]. cbn. split; [reflexivity|].
    right. eexists. split; [reflexivity|]. split; [reflexivity|].
    exact Hreach.
Qed.

Lemma updateCollectibles_loop (playerPos : Vec3)
  (pre rest : list Collectible) (s : Game) :
  collectibles s = pre ++ rest ->
  Forall (fun c => in_reach playerPos c = false) rest ->
  exists s',
    downward (updateCollectibles_turn playerPos) (length pre) s = Some s'
    /\ player s' = player s
    /\ Forall (fun c => in_reach playerPos c = false) (collectibles s')
    /\ collectible_type <$> collectibles s'
       `sublist_of` collectible_type <$> pre ++ rest.
Proof.
  revert rest s. induction pre as [|x pre IH] using rev_ind;
    intros rest s Hl Hrest.
  - exists s. cbn. rewrite Hl. auto.
  - rewrite <- app_assoc in Hl. cbn in Hl.
    rewrite length_app, Nat.add_1_r. cbn [downward].
    destruct (updateCollectibles_turn_shape playerPos pre rest x s Hl)
      as (s1 & -> & Hp1 & Hcase). cbn.
    rewrite <- app_assoc. cbn [app].
    destruct Hcase as [Hl1 | (x' & Hl1 & Hty & Hout)].
    + destruct (IH rest s1 Hl1 Hrest) as (s' & -> & Hp & Hall & Hsub).
      exists s'. split; [reflexivity|]. split; [congruence|].
      split; [exact Hall|]. etrans; [exact Hsub|].
      rewrite !fmap_app. apply sublist_app; [reflexivity|].
      cbn. now apply sublist_cons.
    + destruct (IH (x' :: rest) s1 Hl1) as (s' & -> & Hp & Hall & Hsub);
        [now constructor|].
      exists s'. split; [reflexivity|]. split; [congruence|].
      split; [exact Hall|].
      rewrite !fmap_app in *. cbn in *. now rewrite <- Hty.
Qed.

(** X5.  With a player around, [updateCollectibles] runs to its end, and
    leaves no collectible within 1.5 of the player: whatever was in reach
    has been picked up.  What is left is, by type and order, a part of what
    was there. *)
Theorem updateCollectibles_clears_reach (s : Game) (p : Player) :
  player s = Some p ->
  exists s', updateCollectibles s = Some s'
    /\ player s' = Some p
    /\ Forall (fun c => in_reach (player_position p) c = false)
         (collectibles s')
    /\ collectible_type <$> collectibles s'
       `sublist_of` collectible_type <$> collectibles s.
Proof.
  intros Hp. unfold updateCollectibles. rewrite Hp. cbn.
  destruct (updateCollectibles_loop (player_position p) (collectibles s) []
              s) as (s' & Hrun & Hp' & Hall & Hsub);
    [now rewrite app_nil_r | constructor |].
  exists s'. split; [exact Hrun|]. split; [congruence|].
  split; [exact Hall|]. now rewrite app_nil_r in Hsub.
Qed.
End Pickups.

(** *** Keys *)

Lemma store_key_free (slots : list (option Item)) :
  In None slots -> count_keys (store_key slots) = S (count_keys slots).
Proof.
  unfold count_keys. induction slots as [|[item|] slots IH]; cbn.
  - intros [].
  - intros [[=] | Hin]. destruct (bool_decide _); cbn; now rewrite IH.
  - reflexivity.
Qed.

Lemma store_key_first (slots : list (option Item)) (k : nat) :
  findIndex is_free slots = Some k ->
  store_key slots = <[k := Some (mkItem type_key "K")]> slots.
Proof.
  revert k. induction slots as [|[item|] slots IH]; intros k; cbn.
  - discriminate.
  - destruct (findIndex is_free slots) as [k'|]; cbn; [|discriminate].
    intros [= <-]. now rewrite (IH k').
  - now intros [= <-].
Qed.

Lemma findIndex_is_free_None (slots : list (option Item)) :
  findIndex is_free slots = None -> store_key slots = slots.
Proof.
  induction slots as [|[item|] slots IH]; cbn; [reflexivity| |discriminate].
  destruct (findIndex is_free slots); cbn; [discriminate|].
  intros _. now rewrite IH.
Qed.

(** X6.  Picking up a key.  The collectible is always used up.  The key goes
    into the first empty slot of the inventory and no other slot changes;
    with no empty slot the inventory stays as it is and the key is lost.
    Health and ammunition are not touched. *)
Theorem collectItem_key (idx : nat) (s : Game) (c : Collectible) :
  collectibles s !! idx = Some c ->
  collectible_type c = type_key ->
  collectibles (collectItem idx s) = delete idx (collectibles s)
  /\ inventory (collectItem idx s)
     = match findIndex is_free (inventory s) with
       | Some k => <[k := Some (mkItem type_key "K")]> (inventory s)
       | None => inventory s
       end
  /\ (In None (inventory s) ->
      count_keys (inventory (collectItem idx s))
      = S (count_keys (inventory s)))
  /\ health (collectItem idx s) = health s
  /\ ammo (collectItem idx s) = ammo s.
Proof.
  intros Hc Hty. unfold collectItem. rewrite Hc, Hty. cbn.
  split; [reflexivity|]. split; [|split; [|auto]].
  - destruct (findIndex is_free (inventory s)) as [k|] eqn:Hk.
    + now apply store_key_first.
    + now apply findIndex_is_free_None.
  - apply store_key_free.
Qed.

(** *** From the pickup to the gate *)

Lemma store_key_round_trip (slots : list (option Item)) :
  existsb is_key slots = false ->
  In None slots ->
  exists k, findIndex is_key (store_key slots) = Some k
    /\ <[k := None]> (store_key slots) = slots.
Proof.
  induction slots as [|[item|] slots IH]; cbn.
  - intros _ [].
  - intros Hno [[=] | Hin]. apply orb_false_iff in Hno as [Hitem Hno].
    destruct (IH Hno Hin) as (k & Hk & Hback).
    rewrite Hitem, Hk. cbn. exists (S k). split; [reflexivity|].
    change (<[S k := None]> (Some item :: store_key slots))
      with (Some item :: <[k := None]> (store_key slots)).
    now rewrite Hback.
  - intros _ _. exists 0%nat. split; reflexivity.
Qed.

Lemma store_key_holds (slots : list (option Item)) :
  In None slots -> existsb is_key (store_key slots) = true.
Proof.
  induction slots as [|[item|] slots IH]; cbn.
  - intros [].
  - intros [[=] | Hin]. rewrite (IH Hin). apply orb_true_r.
  - reflexivity.
Qed.

(** X7.  The key of level 1, from the pickup to the gate.  A player without
    a key and with an empty slot picks the key up and uses the gate: the
    gate is open, and the inventory is again what it was before the pickup. *)
Theorem key_round_trip (idx : nat) (s : Game) (c : Collectible) :
  currentLevel s = 1%Z ->
  collectibles s !! idx = Some c ->
  collectible_type c = type_key ->
  existsb is_key (inventory s) = false ->
  In None (inventory s) ->
  exists s', tryOpenGate (collectItem idx s) = Some s'
    /\ gateOpen s' = true
    /\ inventory s' = inventory s.
Proof.
  intros Hlevel Hc Hty Hno Hfree.
  unfold collectItem. rewrite Hc, Hty. cbn.
  unfold tryOpenGate. cbn. rewrite Hlevel. cbn.
  rewrite (store_key_holds _ Hfree).
  match goal with
  | |- context [openGateAnimation ?t] =>
      destruct (openGateAnimation_total t) as (s1 & -> & Hopen & Hinv & _)
  end.
  cbn in Hopen, Hinv. cbn. rewrite Hinv.
  destruct (store_key_round_trip _ Hno Hfree) as (k & -> & Hback).
  eexists. split; [reflexivity|]. cbn. now rewrite Hback.
Qed.

(** ** The player's frame *)

(** A platform test with a player around: no landing and nothing changed,
    or a landing, which touches the height only. *)
Lemma checkPlatformCollision_shape (platform : Platform) (s : Game)
  (p : Player) :
  player s = Some p ->
  checkPlatformCollision platform s = Some (false, s)
  \/ exists s' y,
       checkPlatformCollision platform s = Some (true, s')
       /\ player s' = Some (mkPlayer (Vector3.set_y y (player_position p)))
       /\ playerVelocity s' = Vector3.set_y 0 (playerVelocity s)
       /\ playerOnGround s' = true.
Proof.
  intros Hp. unfold checkPlatformCollision. rewrite Hp. cbn.
  case_ifs; auto; try (destruct (bounds platform); auto); case_ifs; auto;
    right; eexists _, _; (split; [reflexivity|]); cbn; auto.
Qed.

Lemma platform_loop_shape (ps : list Platform) (s : Game) (p : Player) :
  player s = Some p ->
  platform_loop ps s = Some s
  \/ exists s' y,
       platform_loop ps s = Some s'
       /\ player s' = Some (mkPlayer (Vector3.set_y y (player_position p)))
       /\ playerVelocity s' = Vector3.set_y 0 (playerVelocity s)
       /\ playerOnGround s' = true.
Proof.
  intros Hp. induction ps as [|platform ps IH]; cbn; [now left|].
  destruct (checkPlatformCollision_shape platform s p Hp)
    as [-> | (s' & y & -> & Hs')]; [exact IH|].
  right. now exists s', y.
Qed.

Lemma same_but_player_refl (s : Game) : same_but_player s s.
Proof. unfold same_but_player. auto 10. Qed.

Lemma same_but_player_trans (s1 s2 s3 : Game) :
  same_but_player s1 s2 -> same_but_player s2 s3 -> same_but_player s1 s3.
Proof.
  unfold same_but_player.
  intros (? & ? & ? & ? & ? & ?) (? & ? & ? & ? & ? & ?).
  repeat split; congruence.
Qed.

Lemma checkPlatformCollision_rest (platform : Platform) (s s' : Game)
  (landed : bool) :
  checkPlatformCollision platform s = Some (landed, s') ->
  same_but_player s s'.
Proof.
  unfold checkPlatformCollision, same_but_player.
  all_paths; try discriminate; intros [= <- <-]; cbn; auto 10.
Qed.

Lemma platform_loop_rest (ps : list Platform) (s s' : Game) :
  platform_loop ps s = Some s' -> same_but_player s s'.
Proof.
  revert s. induction ps as [|platform ps IH]; cbn; intros s.
  - intros [= <-]. apply same_but_player_refl.
  - destruct (checkPlatformCollision platform s) as [[landed s1]|] eqn:Hc;
      [|discriminate].
    apply checkPlatformCollision_rest in Hc.
    destruct landed; [now intros [= <-]|].
    intros Hrest. eapply same_but_player_trans; eauto.
Qed.

Section PlayerFrame.
Context `{Host}.

(** The state [updatePlayer] hands to the platform loop. *)
Lemma updatePlayer_shape (delta : Q) (s : Game) (p : Player) :
  player s = Some p ->
  exists t v,
    updatePlayer delta s
    = (s ← platform_loop (platforms t) t;
       p ← player s;
       let pos := player_position p in
       if Qltb (vy pos) 1 then
         let s := set_player (Some (mkPlayer (Vector3.set_y 1 pos))) s in
         let s :=
           set_playerVelocity (Vector3.set_y 0 (playerVelocity s)) s in
         Some (set_playerOnGround true s)
       else Some s)
    /\ playerVelocity t = v
    /\ vy v = (if key_down "Space" s && playerOnGround s then jumpForce s
               else vy (playerVelocity s)) - gravity s * delta
    /\ player t
       = Some (mkPlayer
                 (mkVec3 (vx (player_position p) + vx v * delta)
                    (vy (player_position p) + vy v * delta)
                    (vz (player_position p) + vz v * delta)))
    /\ playerOnGround t = false
    /\ same_but_player s t.
Proof.
  intros Hp. unfold updatePlayer. rewrite Hp.
  eexists _, _. split; [reflexivity|].
  split; [reflexivity|].
  destruct (Vector3.length_pos _); cbn;
    unfold key_down, same_but_player; cbn;
    destruct (keys s !! "Space") as [[|]|]; cbn;
    destruct (playerOnGround s); cbn; auto 10.
Qed.

(** X8.  The frame of a player that is there runs to its end.  Afterwards
    the player is never below the floor height 1, has moved in x and in z by
    the new velocity times [delta], and, when on the ground, has no vertical
    velocity. *)
Theorem updatePlayer_floor (delta : Q) (s : Game) (p : Player) :
  player s = Some p ->
  exists s' p',
    updatePlayer delta s = Some s'
    /\ player s' = Some p'
    /\ 1 <= vy (player_position p')
    /\ vx (player_position p')
       = vx (player_position p) + vx (playerVelocity s') * delta
    /\ vz (player_position p')
       = vz (player_position p) + vz (playerVelocity s') * delta
    /\ (playerOnGround s' = true -> vy (playerVelocity s') = 0).
Proof.
  intros Hp.
  destruct (updatePlayer_shape delta s p Hp)
    as (t & v & -> & Hv & _ & Ht & Hair & _).
  destruct (platform_loop_shape (platforms t) t _ Ht)
    as [-> | (s1 & y & -> & Hp1 & Hv1 & Hg1)]; cbn.
  - rewrite Ht. cbn.
    destruct (Qltb _ 1) eqn:Hlow.
    + eexists _, _. split; [reflexivity|]. cbn. rewrite Hv.
      split; [reflexivity|]. cbn. split; [apply Qle_refl | auto].
    + eexists _, _. split; [reflexivity|]. rewrite Ht, Hv, Hair.
      split; [reflexivity|]. cbn. apply Qltb_ge in Hlow.
      split; [exact Hlow|]. repeat split. discriminate.
  - rewrite Hp1. cbn.
    destruct (Qltb _ 1) eqn:Hlow.
    + eexists _, _. split; [reflexivity|]. cbn. rewrite Hv1, Hv.
      split; [reflexivity|]. cbn. split; [apply Qle_refl | auto].
    + eexists _, _. split; [reflexivity|]. rewrite Hp1, Hv1, Hv.
      split; [reflexivity|]. cbn. apply Qltb_ge in Hlow.
      split; [exact Hlow | auto].
Qed.

(** X9.  The vertical velocity after the frame of a player that is there.
    On the ground it is 0.  In the air it is the velocity before, or
    [jumpForce] when Space is down and the player was on the ground, less
    [gravity * delta]: there is no jump off the air. *)
Theorem updatePlayer_vertical (delta : Q) (s s' : Game) (p : Player) :
  player s = Some p ->
  updatePlayer delta s = Some s' ->
  vy (playerVelocity s')
  = if playerOnGround s' then 0
    else (if key_down "Space" s && playerOnGround s then jumpForce s
          else vy (playerVelocity s)) - gravity s * delta.
Proof.
  intros Hp.
  destruct (updatePlayer_shape delta s p Hp)
    as (t & v & -> & Hv & Hvy & Ht & Hair & _).
  destruct (platform_loop_shape (platforms t) t _ Ht)
    as [-> | (s1 & y & -> & Hp1 & Hv1 & Hg1)]; cbn.
  - rewrite Ht. cbn.
    destruct (Qltb _ 1); intros [= <-]; cbn; [reflexivity|].
    now rewrite Hair, Hv, Hvy.
  - rewrite Hp1. cbn.
    destruct (Qltb _ 1); intros [= <-]; cbn; [reflexivity|].
    now rewrite Hg1, Hv1.
Qed.
End PlayerFrame.

(** ** Input *)

Lemma Math_min_le_l (a b : Q) : Math_min a b <= a.
Proof.
  unfold Math_min. destruct (Qle_bool a b) eqn:Hab; [apply Qle_refl|].
  apply Qlt_le_weak, Qnot_le_lt. intros Hle.
  apply Qle_bool_iff in Hle. congruence.
Qed.

Lemma Math_max_ge_l (a b : Q) : a <= Math_max a b.
Proof.
  unfold Math_max. destruct (Qle_bool a b) eqn:Hab; [|apply Qle_refl].
  now apply Qle_bool_iff.
Qed.

Lemma Math_max_le (a b c : Q) : a <= c -> b <= c -> Math_max a b <= c.
Proof. unfold Math_max. now destruct (Qle_bool a b). Qed.

(** X10.  The pitch limit.  A mouse move that is taken (pointer locked, game
    playing) turns the camera about the vertical axis by the horizontal
    movement times the sensitivity, and leaves the pitch between [-PI / 3]
    and [PI / 3], whatever it was before; any other mouse move changes
    nothing. *)
Theorem onMouseMove_pitch (movementX movementY : Q) (s : Game) :
  let s' := onMouseMove movementX movementY s in
  (pointerLocked s = true -> state s = PLAYING ->
   - Math_PI / 3 <= rot_x (cameraRotation s')
   /\ rot_x (cameraRotation s') <= Math_PI / 3
   /\ rot_y (cameraRotation s')
      = rot_y (cameraRotation s) - movementX * mouseSensitivity s)
  /\ (pointerLocked s = false \/ state s <> PLAYING -> s' = s).
Proof.
  unfold onMouseMove. cbn zeta. split.
  - intros -> ->. cbn -[Math_max Math_min Math_PI].
    split; [apply Math_max_ge_l|]. split; [|reflexivity].
    apply Math_max_le; [now apply Qle_bool_iff | apply Math_min_le_l].
  - intros [-> | Hstate]; [reflexivity|].
    destruct (pointerLocked s); [|reflexivity]. cbn.
    rewrite bool_decide_eq_false_2; [reflexivity | exact Hstate].
Qed.

Lemma tryOpenGate_keys (s s' : Game) :
  tryOpenGate s = Some s' -> keys s' = keys s.
Proof.
  unfold tryOpenGate, openGateAnimation, animate, setTimeout,
    requestAnimationFrame.
  all_paths; try discriminate; intros [= <-]; reflexivity.
Qed.

Lemma tryInteract_keys (s s' : Game) :
  tryInteract s = Some s' -> keys s' = keys s.
Proof.
  unfold tryInteract. destruct (player s); cbn; [|discriminate].
  destruct (List.find _ _) as [i|]; [|now intros [= <-]].
  destruct (action i); cbn; [apply tryOpenGate_keys|].
  intros [= <-]. unfold openPuzzle. now destruct (puzzleSolved s).
Qed.

(** X11.  The keyboard state, for the codes that are not property names of
    [Object.prototype].  A key-down that is handled leaves its key down,
    whatever else it sets off; the key-up of the same key leaves it up;
    neither touches any other such key. *)
Theorem keys_round_trip (code : string) (s s' : Game) :
  inherited code = false ->
  onKeyDown code s = Some s' ->
  key_down code s' = true
  /\ key_down code (onKeyUp code s') = false
  /\ forall other,
       inherited other = false ->
       other <> code ->
       key_down other s' = key_down other s
       /\ key_down other (onKeyUp code s') = key_down other s.
Proof.
  intros _ Hrun.
  assert (Hkeys : keys s' = <[code := true]> (keys s)).
  { revert Hrun. unfold onKeyDown.
    destruct (_ && _).
    - destruct (tryInteract _) as [s1|] eqn:Hti; cbn; [|discriminate].
      apply tryInteract_keys in Hti. cbn in Hti.
      destruct (_ && _); intros [= <-]; exact Hti.
    - cbn. destruct (_ && _); intros [= <-]; reflexivity. }
  unfold key_down, onKeyUp. cbn. rewrite Hkeys.
  rewrite !lookup_insert_eq. split; [reflexivity|]. split; [reflexivity|].
  intros other _ Hother. now rewrite !lookup_insert_ne by congruence.
Qed.

Section Rate.
Context `{Host}.

(** X12.  A shot that goes off, and what follows.  With a player, ammunition
    left and the cooldown over, [shoot] takes one round and adds one
    projectile of the player's (damage 10, lifetime 2, spawned now) at the
    end of the list; any further [shoot] less than the cooldown later does
    nothing at all. *)
Theorem shoot_rate (now : Q) (s : Game) (p : Player) :
  player s = Some p ->
  (0 < ammo s)%Z ->
  shootCooldown s <= now - lastShootTime s ->
  exists s' proj,
    shoot now s = Some s'
    /\ ammo s' = (ammo s - 1)%Z
    /\ projectiles s' = projectiles s ++ [proj]
    /\ isPlayerProjectile proj = true /\ isEnemyProjectile proj = false
    /\ damage proj = 10%Z /\ lifetime proj = 2 /\ spawnTime proj = now
    /\ forall now', now' - now < shootCooldown s -> shoot now' s' = Some s'.
Proof.
  intros Hp Hammo Hcool. unfold shoot at 1.
  apply Qltb_ge in Hcool. rewrite Hcool.
  destruct (Z.leb_spec (ammo s) 0); [lia|].
  cbn. rewrite Hp. cbn.
  eexists _, _. split; [reflexivity|]. cbn.
  repeat (split; [reflexivity|]).
  intros now' Hsoon. unfold shoot. cbn.
  apply Qltb_lt in Hsoon. now rewrite Hsoon.
Qed.
End Rate.

(** ** What holds of every game *)

Lemma steady_refl (s : Game) : steady s s.
Proof. unfold steady. auto. Qed.

Lemma steady_trans (s1 s2 s3 : Game) :
  steady s1 s2 -> steady s2 s3 -> steady s1 s3.
Proof. unfold steady. intros (? & ? & ?) (? & ? & ?). auto. Qed.

Lemma steady_fields (s s' : Game) :
  tuning_of s' = tuning_of s ->
  (inventory_ok (inventory s) -> inventory_ok (inventory s')) ->
  (is_Some (player s) -> is_Some (player s')) ->
  (above_floor s -> above_floor s') ->
  rot_x (cameraRotation s') = rot_x (cameraRotation s) ->
  (state_used (state s) -> state_used (state s')) ->
  (1 <= currentLevel s -> 1 <= currentLevel s')%Z ->
  (no_loop (pending s) -> no_loop (pending s')) ->
  steady s s'.
Proof.
  unfold steady, core, tuned, pitch_ok. intros -> ? ? ? -> ? ? ?. tauto.
Qed.

Lemma state_used_PLAYING : state_used PLAYING.
Proof. split; discriminate. Qed.

Lemma state_used_PUZZLE : state_used PUZZLE.
Proof. split; discriminate. Qed.

Lemma state_used_GAME_OVER : state_used GAME_OVER.
Proof. split; discriminate. Qed.

Lemma state_used_VICTORY : state_used VICTORY.
Proof. split; discriminate. Qed.

Lemma state_used_MENU : state_used MENU.
Proof. split; discriminate. Qed.

Create HintDb steady discriminated.
#[local] Hint Resolve state_used_PLAYING state_used_PUZZLE
  state_used_GAME_OVER state_used_VICTORY state_used_MENU : steady.

(** A step that may only change what [steady] does not look at, and the
    state into one of the states in use. *)
Ltac steady_step :=
  apply steady_fields; unfold above_floor; cbn;
  auto with steady; try lia.

Lemma downward_steady (turn : nat -> Game -> option Game) (n : nat) :
  (forall i s s', turn i s = Some s' -> steady s s') ->
  forall s s', downward turn n s = Some s' -> steady s s'.
Proof.
  intros Hturn. induction n as [|n IH]; cbn; intros s s'.
  - intros [= <-]. apply steady_refl.
  - destruct (turn n s) as [s1|] eqn:Hs1; cbn; [|discriminate].
    intros Hrest. eapply steady_trans; eauto.
Qed.

Lemma takeDamage_steady (amount : Z) (s : Game) :
  steady s (takeDamage amount s).
Proof. unfold takeDamage. cbn. case_ifs; steady_step. Qed.

Lemma store_key_ok (slots : list (option Item)) :
  inventory_ok slots -> inventory_ok (store_key slots).
Proof.
  unfold inventory_ok. intros [Hlen Hall]. split.
  - rewrite <- Hlen. clear. induction slots as [|[item|] slots IH]; cbn;
      congruence.
  - clear Hlen. induction Hall as [|slot slots Hslot Hslots IH]; cbn;
      [constructor|].
    destruct slot; constructor; auto.
Qed.

Lemma drop_key_ok (slots : list (option Item)) (k : nat) :
  inventory_ok slots -> inventory_ok (<[k := None]> slots).
Proof.
  unfold inventory_ok. intros [Hlen Hall]. split.
  - now rewrite length_insert.
  - apply Forall_insert; auto.
Qed.

Lemma collectItem_steady (idx : nat) (s : Game) : steady s (collectItem idx s).
Proof.
  unfold collectItem. destruct (collectibles s !! idx) as [c|];
    [|apply steady_refl].
  destruct (collectible_type c); steady_step. apply store_key_ok.
Qed.

Lemma no_loop_app (queue : list Deferred) (d : Deferred) :
  deferred_callback d <> cb_gameLoop ->
  no_loop queue -> no_loop (queue ++ [d]).
Proof. intros Hd Hq. apply Forall_app_2; [exact Hq | now constructor]. Qed.

Lemma no_loop_delete (queue : list Deferred) (n : nat) :
  no_loop queue -> no_loop (delete n queue).
Proof. apply Forall_delete. Qed.

Lemma is_Some_Some {A : Type} (x : A) : is_Some (Some x).
Proof. now exists x. Qed.

#[local] Hint Resolve no_loop_app no_loop_delete is_Some_Some Qle_refl
  store_key_ok drop_key_ok : steady.

Section Settled.
Context `{Host}.

Lemma updatePlayer_rest (delta : Q) (s s' : Game) :
  updatePlayer delta s = Some s' -> same_but_player s s'.
Proof.
  destruct (player s) as [p|] eqn:Hp.
  2:{ unfold updatePlayer. rewrite Hp. intros [= <-].
      apply same_but_player_refl. }
  destruct (updatePlayer_shape delta s p Hp)
    as (t & v & -> & _ & _ & _ & _ & Hpre).
  destruct (platform_loop (platforms t) t) as [s1|] eqn:Hloop; cbn;
    [apply platform_loop_rest in Hloop | discriminate].
  destruct (player s1); cbn; [|discriminate].
  destruct (Qltb _ _); intros [= <-].
  - eapply same_but_player_trans; [exact Hpre|].
    eapply same_but_player_trans; [exact Hloop|].
    unfold same_but_player. cbn. auto 10.
  - eapply same_but_player_trans; eauto.
Qed.

Lemma updatePlayer_steady (delta : Q) (s s' : Game) :
  updatePlayer delta s = Some s' -> steady s s'.
Proof.
  intros Hrun.
  destruct (updatePlayer_rest _ _ _ Hrun) as (Ht & Hi & Hc & Hst & Hl & Hq).
  apply steady_fields; try congruence.
  - destruct (player s) as [p|] eqn:Hp; [|now intros []].
    intros _. revert Hrun.
    destruct (updatePlayer_shape delta s p Hp)
      as (t & v & -> & _ & _ & Hpt & _ & _).
    destruct (platform_loop_shape (platforms t) t _ Hpt)
      as [-> | (s1 & y & -> & Hp1 & _)]; cbn.
    + rewrite Hpt. cbn. destruct (Qltb _ 1); intros [= <-]; cbn;
        [auto with steady | rewrite Hpt; auto with steady].
    + rewrite Hp1. cbn. destruct (Qltb _ 1); intros [= <-]; cbn;
        [auto with steady | rewrite Hp1; auto with steady].
  - intros _. unfold above_floor.
    destruct (player s) as [p|] eqn:Hp.
    2:{ unfold updatePlayer in Hrun. rewrite Hp in Hrun.
        injection Hrun as <-. now rewrite Hp. }
    revert Hrun.
    destruct (updatePlayer_shape delta s p Hp)
      as (t & v & -> & _ & _ & Hpt & _ & _).
    destruct (platform_loop_shape (platforms t) t _ Hpt)
      as [-> | (s1 & y & -> & Hp1 & _)]; cbn.
    + rewrite Hpt. cbn. destruct (Qltb _ 1) eqn:Hlow; intros [= <-]; cbn;
        [apply Qle_refl | rewrite Hpt; now apply Qltb_ge in Hlow].
    + rewrite Hp1. cbn. destruct (Qltb _ 1) eqn:Hlow; intros [= <-]; cbn;
        [apply Qle_refl | rewrite Hp1; now apply Qltb_ge in Hlow].
Qed.

Lemma updateEnemies_turn_steady (delta now : Q) (playerPos : Vec3) (i : nat)
  (s s' : Game) :
  updateEnemies_turn delta now playerPos i s = Some s' -> steady s s'.
Proof.
  unfold updateEnemies_turn.
  destruct (enemies s !! i) as [enemy|]; cbn; [|discriminate].
  all_paths; try discriminate.
  all: pair_paths.
  all: intros [= <-]; unfold enemyShoot, takeDamage; cbn.
  all: case_ifs; steady_step.
Qed.

Lemma updateEnemies_steady (delta now : Q) (s s' : Game) :
  updateEnemies delta now s = Some s' -> steady s s'.
Proof.
  unfold updateEnemies. destruct (player s); cbn; [|discriminate].
  apply downward_steady. intros i. apply updateEnemies_turn_steady.
Qed.

Lemma updateBoss_steady (delta now : Q) (s s' : Game) :
  updateBoss delta now s = Some s' -> steady s s'.
Proof.
  unfold updateBoss, bossGroundSlam, bossIceAttack.
  destruct (boss s) as [b|] eqn:Hb; [|intros [= <-]; apply steady_refl].
  destruct (negb _); [intros [= <-]; apply steady_refl|].
  destruct (player s) as [p|] eqn:Hp; cbn; [|discriminate].
  destruct (bossHealth s <=? 0)%Z; [intros [= <-]; steady_step|].
  destruct (Qgtb _ _); [|intros [= <-]; steady_step].
  destruct (Vector3.distanceTo_lt (player_position p) (boss_position b) 5);
    cbn.
  - unfold takeDamage. rewrite Hp. cbn. case_ifs; cbn; intros [= <-];
      steady_step.
  - intros [= <-]. steady_step.
Qed.

Lemma updateProjectiles_turn_steady (delta now : Q) (i : nat) (s s' : Game) :
  updateProjectiles_turn delta now i s = Some s' -> steady s s'.
Proof.
  unfold updateProjectiles_turn.
  destruct (projectiles s !! i) as [proj|]; cbn; [|discriminate].
  all_paths; try discriminate; intros [= <-]; unfold takeDamage; cbn;
    case_ifs; steady_step.
Qed.

Lemma updateProjectiles_steady (delta now : Q) (s s' : Game) :
  updateProjectiles delta now s = Some s' -> steady s s'.
Proof.
  apply downward_steady. intros i. apply updateProjectiles_turn_steady.
Qed.

Lemma updateCollectibles_turn_steady (playerPos : Vec3) (i : nat)
  (s s' : Game) :
  updateCollectibles_turn playerPos i s = Some s' -> steady s s'.
Proof.
  unfold updateCollectibles_turn.
  destruct (collectibles s !! i) as [c|]; cbn; [|discriminate].
  destruct (Vector3.distanceTo_lt _ _ _); intros [= <-].
  - eapply steady_trans; [|apply collectItem_steady]. steady_step.
  - steady_step.
Qed.

Lemma updateCollectibles_steady (s s' : Game) :
  updateCollectibles s = Some s' -> steady s s'.
Proof.
  unfold updateCollectibles. destruct (player s); cbn; [|discriminate].
  apply downward_steady. intros i. apply updateCollectibles_turn_steady.
Qed.

Lemma loadLevel_steady (levelNum : Z) (s : Game) :
  steady s (loadLevel levelNum s).
Proof. unfold loadLevel. case_ifs; steady_step. Qed.

Lemma loadLevel_player (levelNum : Z) (s : Game) :
  is_Some (player (loadLevel levelNum s)).
Proof. unfold loadLevel. case_ifs; cbn; auto with steady. Qed.

Lemma nextLevel_steady (s : Game) : steady s (nextLevel s).
Proof.
  unfold nextLevel. cbn. destruct (_ >? _)%Z.
  - steady_step.
  - eapply steady_trans; [|apply loadLevel_steady]. steady_step.
Qed.

Lemma checkLevelCompletion_steady (s s' : Game) :
  checkLevelCompletion s = Some s' -> steady s s'.
Proof.
  unfold checkLevelCompletion.
  all_paths; try discriminate; intros [= <-];
    first [ apply steady_refl | apply nextLevel_steady ].
Qed.

Lemma animate_steady (targetY : Q) (s s' : Game) :
  animate targetY s = Some s' -> steady s s'.
Proof.
  unfold animate, requestAnimationFrame.
  destruct (exitGate s); cbn; [|discriminate].
  destruct (Qltb _ _); intros [= <-]; steady_step.
Qed.

Lemma openGateAnimation_steady (s s' : Game) :
  openGateAnimation s = Some s' -> steady s s'.
Proof.
  unfold openGateAnimation.
  destruct (exitGate s) as [gate|]; [|intros [= <-]; apply steady_refl].
  destruct (animate _ s) as [s1|] eqn:Han; cbn; [|discriminate].
  apply animate_steady in Han. intros [= <-].
  eapply steady_trans; [exact Han|]. unfold setTimeout. steady_step.
Qed.

Lemma tryOpenGate_steady (s s' : Game) : tryOpenGate s = Some s' -> steady s s'.
Proof.
  unfold tryOpenGate.
  destruct (currentLevel s =? 1)%Z.
  - destruct (existsb is_key (inventory s)); [|intros [= <-]; apply steady_refl].
    destruct (openGateAnimation _) as [s1|] eqn:Hopen; cbn; [|discriminate].
    apply openGateAnimation_steady in Hopen.
    intros [= <-]. eapply steady_trans; [|eapply steady_trans; [exact Hopen|]].
    + steady_step.
    + destruct (findIndex is_key (inventory s1)); steady_step.
  - destruct (currentLevel s =? 2)%Z; [|intros [= <-]; apply steady_refl].
    destruct (puzzleSolved s); [|intros [= <-]; apply steady_refl].
    intros Hopen. apply openGateAnimation_steady in Hopen.
    eapply steady_trans; [|exact Hopen]. steady_step.
Qed.

Lemma tryInteract_steady (s s' : Game) : tryInteract s = Some s' -> steady s s'.
Proof.
  unfold tryInteract. destruct (player s); cbn; [|discriminate].
  destruct (List.find _ _) as [i|]; [|intros [= <-]; apply steady_refl].
  destruct (action i); cbn.
  - apply tryOpenGate_steady.
  - intros [= <-]. unfold openPuzzle.
    destruct (puzzleSolved s); [apply steady_refl | steady_step].
Qed.

Lemma shoot_steady (now : Q) (s s' : Game) :
  shoot now s = Some s' -> steady s s'.
Proof.
  unfold shoot.
  destruct (Qltb _ _); [intros [= <-]; apply steady_refl|].
  destruct (ammo s <=? 0)%Z; [intros [= <-]; apply steady_refl|].
  cbn. destruct (player s); cbn; [|discriminate].
  intros [= <-]. steady_step.
Qed.

(** The six updates of a frame, in their order. *)
Lemma frame_steady (delta now : Q) (s s' : Game) :
  (s1 ← updatePlayer delta s;
   s2 ← updateEnemies delta now s1;
   s3 ← updateBoss delta now s2;
   s4 ← updateProjectiles delta now s3;
   s5 ← updateCollectibles s4;
   checkLevelCompletion s5) = Some s' ->
  steady s s'.
Proof.
  intros Hseq.
  destruct (updatePlayer _ s) as [s1|] eqn:H1; cbn in Hseq; [|discriminate].
  destruct (updateEnemies _ _ s1) as [s2|] eqn:H2; cbn in Hseq; [|discriminate].
  destruct (updateBoss _ _ s2) as [s3|] eqn:H3; cbn in Hseq; [|discriminate].
  destruct (updateProjectiles _ _ s3) as [s4|] eqn:H4; cbn in Hseq;
    [|discriminate].
  destruct (updateCollectibles s4) as [s5|] eqn:H5; cbn in Hseq;
    [|discriminate].
  apply updatePlayer_steady in H1. apply updateEnemies_steady in H2.
  apply updateBoss_steady in H3. apply updateProjectiles_steady in H4.
  apply updateCollectibles_steady in H5.
  apply checkLevelCompletion_steady in Hseq.
  repeat (eapply steady_trans; [eassumption|]). apply steady_refl.
Qed.

Lemma gameLoop_core (rawDelta now : Q) (s s' : Game) :
  gameLoop rawDelta now s = Some s' ->
  (core s -> core s') /\ (is_Some (player s) -> is_Some (player s')).
Proof.
  unfold gameLoop. intros Hrun.
  assert (Hpre : steady s (set_pending (pending s) s)
                 -> (core s ->
                     core (set_animationTime
                             (animationTime (requestAnimationFrame cb_gameLoop s)
                              + Math_min rawDelta 0.1)
                             (requestAnimationFrame cb_gameLoop s)))).
  { intros _. unfold core, tuned, above_floor, pitch_ok. cbn. auto. }
  specialize (Hpre (steady_refl _)).
  destruct (state s) eqn:Hstate; cbn in Hrun; rewrite ?Hstate in Hrun;
    try (injection Hrun as <-; split; [exact Hpre | auto]); auto.
  apply frame_steady in Hrun as (Hcore & Hplayer & _).
  split; [auto|]. intros Hp. apply Hplayer. exact Hp.
Qed.

Lemma steady_settled (s s' : Game) : steady s s' -> settled s -> settled s'.
Proof.
  unfold steady, settled. intros (Hcore & Hplayer & Hloop) [Hs Hnone].
  split; [auto|]. intros Hp'. apply Hloop, Hnone.
  destruct (player s) as [p|]; [|reflexivity].
  destruct (Hplayer (is_Some_Some p)) as [p' Hp'']. congruence.
Qed.

Lemma with_player_settled (s : Game) :
  core s -> is_Some (player s) -> settled s.
Proof. intros Hcore [p Hp]. split; [exact Hcore | congruence]. Qed.

Lemma empty_inventory_ok : inventory_ok [None; None; None].
Proof. split; [reflexivity|]. repeat constructor; auto. Qed.

(** Every event that does not run [gameLoop] is a steady step. *)
Lemma handle_steady (e : Event) (s s' : Game) :
  handle e s = Some s' -> ~ runs_loop e s -> steady s s'.
Proof.
  destruct e; cbn [handle runs_loop].
  - tauto.
  - intros [= <-] _. unfold restartGame, resetPlayer.
    eapply steady_trans; [|apply loadLevel_steady].
    steady_step. intros _. apply empty_inventory_ok.
  - intros [= <-] _. unfold closePuzzle. steady_step.
  - intros [= <-] _. unfold puzzle_click_correct, setTimeout. steady_step.
  - intros Hrun _. revert Hrun. unfold onKeyDown.
    set (s0 := set_keys _ s).
    assert (H0 : steady s s0) by (subst s0; steady_step).
    destruct (_ && _).
    + destruct (tryInteract s0) as [s1|] eqn:Hti; cbn; [|discriminate].
      apply tryInteract_steady in Hti.
      destruct (_ && _); intros [= <-].
      * eapply steady_trans; [exact H0|].
        eapply steady_trans; [exact Hti|]. unfold closePuzzle. steady_step.
      * exact (steady_trans _ _ _ H0 Hti).
    + cbn. destruct (_ && _); intros [= <-]; [|exact H0].
      eapply steady_trans; [exact H0|]. unfold closePuzzle. steady_step.
  - intros [= <-] _. unfold onKeyUp. steady_step.
  - intros Hrun _. revert Hrun.
    unfold onMouseDown. destruct (button =? 0)%Z;
      [|intros [= <-]; apply steady_refl].
    destruct (_ && _).
    + intros Hsh. apply shoot_steady in Hsh.
      eapply steady_trans; [|exact Hsh]. steady_step.
    + intros [= <-]. steady_step.
  - intros [= <-] _. unfold onMouseUp. destruct (button =? 0)%Z;
      [steady_step | apply steady_refl].
  - intros [= <-] _. unfold onMouseMove. destruct (_ && _);
      [|apply steady_refl].
    unfold steady. split; [|auto].
    unfold core, tuned, above_floor, pitch_ok.
    cbn -[Math_max Math_min Math_PI]. intros (? & ? & ? & _ & ? & ?).
    do 3 (split; [assumption|]). split; [split | auto].
    + apply Math_max_ge_l.
    + apply Math_max_le; [now apply Qle_bool_iff | apply Math_min_le_l].
  - intros [= <-] _. unfold onPointerLockChange. steady_step.
  - unfold fire. destruct (pending s !! n) as [d|] eqn:Hd; cbn;
      [|discriminate].
    assert (H0 : steady s (set_pending (delete n (pending s)) s))
      by steady_step.
    destruct (deferred_callback d) eqn:Hcb; cbn [run_callback].
    + intros [= <-] _. eapply steady_trans; [exact H0|].
      apply nextLevel_steady.
    + intros Han _. eapply steady_trans; [exact H0|].
      exact (animate_steady _ _ _ Han).
    + intros [= <-] _. eapply steady_trans; [exact H0|].
      unfold closePuzzle. steady_step.
    + intros _ Hno. destruct Hno. now exists d.
Qed.

Lemma fire_lookup (n : nat) (d : Deferred) (rawDelta now : Q) (s : Game) :
  pending s !! n = Some d ->
  fire n rawDelta now s
  = run_callback (deferred_callback d) rawDelta now
      (set_pending (delete n (pending s)) s).
Proof. intros Hd. unfold fire. now rewrite Hd. Qed.

Lemma runs_loop_dec (e : Event) (s : Game) : runs_loop e s \/ ~ runs_loop e s.
Proof.
  destruct e; cbn; auto.
  destruct (pending s !! n) as [d|]; [|right; now intros (d & [=] & _)].
  destruct (deferred_callback d) eqn:Hd;
    [right | right | right | left; now exists d];
    intros (d' & [= <-] & Hd'); congruence.
Qed.

Lemma handle_settled (e : Event) (s s' : Game) :
  handle e s = Some s' -> settled s -> settled s'.
Proof.
  destruct (runs_loop_dec e s) as [Hloop|Hloop].
  2:{ intros Hrun.
      exact (steady_settled s s' (handle_steady e s s' Hrun Hloop)). }
  destruct e; cbn [runs_loop] in Hloop; try contradiction; cbn [handle].
  - unfold startGame, resetPlayer. intros Hrun [Hs _].
    apply gameLoop_core in Hrun as [Hcore Hplayer].
    apply with_player_settled.
    + apply Hcore. apply loadLevel_steady.
      revert Hs. unfold core, tuned, above_floor, pitch_ok. cbn.
      intuition auto with steady. lia.
    + apply Hplayer, loadLevel_player.
  - destruct Hloop as (d & Hd & Hcb).
    rewrite (fire_lookup _ _ _ _ _ Hd), Hcb. cbn [run_callback].
    intros Hrun [Hs Hnone].
    apply gameLoop_core in Hrun as [Hcore Hplayer].
    apply with_player_settled.
    + apply Hcore.
      assert (H0 : steady s (set_pending (delete n (pending s)) s))
        by steady_step.
      now apply H0.
    + apply Hplayer. cbn.
      destruct (player s) as [p|]; [apply is_Some_Some|].
      specialize (Hnone eq_refl). unfold no_loop in Hnone.
      rewrite Forall_lookup in Hnone. now destruct (Hnone _ _ Hd).
Qed.

Lemma constructor_settled : settled constructor.
Proof.
  unfold settled, core, tuned, inventory_ok, above_floor, pitch_ok,
    state_used, no_loop.
  cbn. repeat split; auto; try discriminate; try lia;
    try (now apply Qle_bool_iff); repeat constructor; auto.
Qed.

Lemma reachable_settled (s : Game) : reachable s -> settled s.
Proof.
  intros Hreach. induction Hreach as [|s s' e _ IH Hstep].
  - apply constructor_settled.
  - exact (handle_settled e s s' Hstep IH).
Qed.
End Settled.

(** ** The frame *)

Section Frames.
Context `{Host}.

Lemma updatePlayer_runs (delta : Q) (s : Game) (p : Player) :
  player s = Some p ->
  exists s1 p1, updatePlayer delta s = Some s1 /\ player s1 = Some p1.
Proof.
  intros Hp.
  destruct (updatePlayer_shape delta s p Hp)
    as (t & v & -> & _ & _ & Ht & _ & _).
  destruct (platform_loop_shape (platforms t) t _ Ht)
    as [-> | (s1 & y & -> & Hp1 & _)]; cbn.
  - rewrite Ht. cbn. destruct (Qltb _ 1); eexists _, _;
      (split; [reflexivity|]); [reflexivity | exact Ht].
  - rewrite Hp1. cbn. destruct (Qltb _ 1); eexists _, _;
      (split; [reflexivity|]); [reflexivity | exact Hp1].
Qed.

Lemma updateBoss_runs (delta now : Q) (s : Game) (p : Player) :
  player s = Some p ->
  exists s', updateBoss delta now s = Some s' /\ player s' = Some p.
Proof.
  intros Hp. unfold updateBoss, bossGroundSlam, bossIceAttack.
  destruct (boss s) as [b|]; [|now exists s].
  destruct (negb _); [now exists s|].
  rewrite Hp. cbn.
  destruct (bossHealth s <=? 0)%Z; [now eexists|].
  destruct (Qgtb _ _); [|now eexists].
  destruct (Vector3.distanceTo_lt (player_position p) (boss_position b) 5);
    cbn; [|now eexists].
  rewrite Hp. cbn. unfold takeDamage. cbn.
  case_ifs; cbn; now eexists.
Qed.

Lemma checkLevelCompletion_runs (s : Game) (p : Player) :
  player s = Some p -> exists s', checkLevelCompletion s = Some s'.
Proof.
  intros Hp. unfold checkLevelCompletion. rewrite Hp. cbn.
  all_paths; now eexists.
Qed.

Lemma frame_runs (delta now : Q) (s : Game) (p : Player) :
  player s = Some p ->
  exists s',
    (s1 ← updatePlayer delta s;
     s2 ← updateEnemies delta now s1;
     s3 ← updateBoss delta now s2;
     s4 ← updateProjectiles delta now s3;
     s5 ← updateCollectibles s4;
     checkLevelCompletion s5) = Some s'.
Proof.
  intros Hp.
  destruct (updatePlayer_runs delta s p Hp) as (s1 & p1 & -> & Hp1). cbn.
  unfold updateEnemies. rewrite Hp1. cbn.
  destruct (updateEnemies_loop delta now (player_position p1) (enemies s1) []
              s1) as (s2 & -> & Hp2 & _); [now rewrite app_nil_r|].
  rewrite Hp1 in Hp2. cbn.
  destruct (updateBoss_runs delta now s2 p1 Hp2) as (s3 & -> & Hp3). cbn.
  unfold updateProjectiles.
  destruct (updateProjectiles_loop delta now (projectiles s3) [] s3 p1)
    as (s4 & -> & Hp4 & _); [now rewrite app_nil_r | exact Hp3 |].
  cbn. unfold updateCollectibles. rewrite Hp4. cbn.
  destruct (updateCollectibles_loop (player_position p1) (collectibles s4) []
              s4) as (s5 & -> & Hp5 & _);
    [now rewrite app_nil_r | constructor |].
  rewrite Hp4 in Hp5. cbn.
  exact (checkLevelCompletion_runs s5 p1 Hp5).
Qed.

Lemma gameLoop_runs (rawDelta now : Q) (s : Game) (p : Player) :
  player s = Some p -> exists s', gameLoop rawDelta now s = Some s'.
Proof.
  intros Hp. unfold gameLoop.
  destruct (state s) eqn:Hstate; cbn; rewrite ?Hstate; try now eexists.
  eapply frame_runs. cbn. exact Hp.
Qed.

(** X13.  When a frame throws.  [gameLoop] runs to its end unless the game
    is playing and there is no player: with a player none of the six updates
    throws, and without one the frame of a playing game does. *)
Theorem gameLoop_runs_iff (rawDelta now : Q) (s : Game) :
  is_Some (gameLoop rawDelta now s)
  <-> (state s = PLAYING -> is_Some (player s)).
Proof.
  split.
  - intros [s' Hrun] Hstate. destruct (player s) as [p|] eqn:Hp;
      [apply is_Some_Some|].
    revert Hrun. unfold gameLoop. rewrite Hstate. cbn. rewrite Hstate.
    unfold updatePlayer. cbn. rewrite Hp. cbn.
    unfold updateEnemies. cbn. rewrite Hp. discriminate.
  - intros Hplayer. destruct (player s) as [p|] eqn:Hp.
    + destruct (gameLoop_runs rawDelta now s p Hp) as [s' ->].
      apply is_Some_Some.
    + unfold gameLoop.
      destruct (state s) eqn:Hstate; cbn; rewrite ?Hstate;
        try apply is_Some_Some.
      now destruct (Hplayer eq_refl).
Qed.

(** X14.  The game loop does not crash.  In a game that can be reached,
    every frame of the game loop that waits in the browser's queue runs to
    its end when its time comes. *)
Theorem frame_never_throws (n : nat) (d : Deferred) (rawDelta now : Q)
  (s : Game) :
  reachable s ->
  pending s !! n = Some d ->
  deferred_callback d = cb_gameLoop ->
  is_Some (fire n rawDelta now s).
Proof.
  intros Hreach Hd Hcb. unfold fire. rewrite Hd. cbn. rewrite Hcb. cbn.
  destruct (reachable_settled s Hreach) as [_ Hnone].
  destruct (player s) as [p|] eqn:Hp.
  - destruct (gameLoop_runs rawDelta now
                (set_pending (delete n (pending s)) s) p Hp) as [s' ->].
    apply is_Some_Some.
  - specialize (Hnone eq_refl). unfold no_loop in Hnone.
    rewrite Forall_lookup in Hnone. now destruct (Hnone _ _ Hd).
Qed.

(** X15.  What no game that can be reached departs from: the tuning values
    of the constructor, a state among MENU, PLAYING, PUZZLE, GAME_OVER and
    VICTORY (the game is never paused or in transition), a level number of
    at least 1, and an inventory of three slots, each empty or holding the
    crystal key. *)
Theorem reachable_core (s : Game) :
  reachable s ->
  tuned s /\ state_used (state s) /\ (1 <= currentLevel s)%Z
  /\ inventory_ok (inventory s).
Proof.
  intros Hreach.
  destruct (reachable_settled s Hreach) as [(? & ? & _ & _ & ? & ?) _].
  auto.
Qed.

(** X16.  In a game that can be reached the player is never below the floor
    height 1, and the camera pitch is within [PI / 3] of level. *)
Theorem reachable_player_bounds (s : Game) :
  reachable s -> above_floor s /\ pitch_ok s.
Proof.
  intros Hreach.
  destruct (reachable_settled s Hreach) as [(_ & _ & ? & ? & _) _]. auto.
Qed.

(** X17.  Only the start button starts the game loop.  With no frame of the
    loop waiting in the queue, no event but a click on the start button puts
    one there; the restart button in particular does not. *)
Theorem loop_stays_dead (e : Event) (s s' : Game) :
  no_loop (pending s) ->
  (forall rawDelta now, e <> click_start rawDelta now) ->
  handle e s = Some s' ->
  no_loop (pending s').
Proof.
  intros Hno Hstart Hrun.
  assert (Hloop : ~ runs_loop e s).
  { destruct e; cbn; auto.
    - exfalso. now eapply Hstart.
    - intros (d & Hd & Hcb). unfold no_loop in Hno.
      rewrite Forall_lookup in Hno. exact (Hno _ _ Hd Hcb). }
  now apply (handle_steady e s s' Hrun Hloop).
Qed.

(** X18.  How the loop ends.  Once the game is over or won, a frame of the
    loop that comes due changes nothing and asks for no further frame: it is
    gone from the queue and that is all.  [restartGame] after it sets the
    game playing again, on the queue as the frame left it. *)
Theorem loop_ends_with_game (n : nat) (d : Deferred) (rawDelta now : Q)
  (s : Game) :
  state s = GAME_OVER \/ state s = VICTORY ->
  pending s !! n = Some d ->
  deferred_callback d = cb_gameLoop ->
  let s1 := set_pending (delete n (pending s)) s in
  fire n rawDelta now s = Some s1
  /\ state (restartGame s1) = PLAYING
  /\ pending (restartGame s1) = delete n (pending s).
Proof.
  intros Hend Hd Hcb s1. rewrite (fire_lookup _ _ _ _ _ Hd), Hcb.
  cbn [run_callback]. split.
  - unfold gameLoop. subst s1. cbn. now destruct Hend as [-> | ->].
  - unfold restartGame, resetPlayer, loadLevel. subst s1. cbn. auto.
Qed.
End Frames.

(** ** The rune grid *)

Lemma sorted_correct (selected : list nat) :
  merge_sort le selected = correctPattern <-> selected ≡ₚ correctPattern.
Proof.
  split.
  - intros <-. symmetry. apply merge_sort_Permutation.
  - intros Hperm. apply (Sorted_unique le).
    + apply Sorted_merge_sort. apply _.
    + unfold correctPattern. repeat constructor; lia.
    + now rewrite merge_sort_Permutation.
Qed.

(** X19.  A click on button [i] flips whether [i] is selected and nothing
    else; a selection without repetitions stays without. *)
Theorem toggle_flips (i : nat) (selected : list nat) :
  (i ∈ toggle i selected <-> i ∉ selected)
  /\ (forall j, j <> i -> j ∈ toggle i selected <-> j ∈ selected)
  /\ (NoDup selected -> NoDup (toggle i selected)).
Proof.
  unfold toggle. case_bool_decide as Hin.
  - split; [|split].
    + rewrite list_elem_of_In, filter_In, Nat.eqb_refl. cbn.
      split; [intros [_ [=]] | contradiction].
    + intros j Hj. rewrite !list_elem_of_In, filter_In.
      apply Nat.eqb_neq in Hj. rewrite Hj. cbn. tauto.
    + intros Hnd. apply NoDup_ListNoDup, List.NoDup_filter.
      now apply NoDup_ListNoDup.
  - split; [|split].
    + rewrite elem_of_app, list_elem_of_singleton. tauto.
    + intros j Hj. rewrite elem_of_app, list_elem_of_singleton. tauto.
    + intros Hnd. apply NoDup_app. split; [exact Hnd|].
      split; [|apply NoDup_singleton].
      intros j Hj ->%list_elem_of_singleton. contradiction.
Qed.

(** X20.  What a click on the grid means for the game.  The click solves the
    puzzle exactly when the selection it leaves is the cells 0, 4 and 8, in
    whatever order they were clicked: the game then has [puzzleSolved] set
    and [closePuzzle] due in a second.  Any other click leaves the game as
    it is, and starts a reset timer when it leaves three cells selected. *)
Theorem puzzle_click_solves (i : nat) (g : Grid) (s : Game) :
  let selected := toggle i (selectedPattern g) in
  let after := puzzle_click i g s in
  selectedPattern after.1 = selected
  /\ (selected ≡ₚ correctPattern ->
      after.2 = puzzle_click_correct s /\ resets after.1 = resets g)
  /\ (~ selected ≡ₚ correctPattern ->
      after.2 = s
      /\ resets after.1
         = if (length selected =? 3)%nat then S (resets g) else resets g).
Proof.
  cbn zeta. unfold puzzle_click.
  destruct (length (toggle i (selectedPattern g)) =? 3)%nat eqn:Hlen.
  - case_bool_decide as Hsorted; rewrite sorted_correct in Hsorted; cbn;
      (split; [reflexivity|]); split; intros Hperm; try contradiction;
      auto.
  - cbn. split; [reflexivity|]. split; [|auto].
    intros Hperm. apply Permutation_length in Hperm.
    apply Nat.eqb_neq in Hlen. contradiction.
Qed.

(** ** Gates and levels *)

(** X21.  The gate of level 2 can be used again and again.  [tryOpenGate]
    does not look at [gateOpen]: with the puzzle solved and a gate there,
    every call sets the gate open, starts another rise of the door by 5 from
    where it is now, and sets another two-second timer for [nextLevel]; the
    game it leaves meets the same conditions again. *)
Theorem tryOpenGate_again (s : Game) (gate : Gate) :
  currentLevel s = 2%Z ->
  puzzleSolved s = true ->
  exitGate s = Some gate ->
  exists s',
    tryOpenGate s = Some s'
    /\ gateOpen s' = true
    /\ pending s'
       = pending s
         ++ [AnimationFrame (cb_animate (vy (gate_position gate) + 5));
             Timeout cb_nextLevel 2000]
    /\ exitGate s'
       = Some (mkGate (Vector3.set_y (vy (gate_position gate) + 0.1)
                         (gate_position gate)))
    /\ currentLevel s' = 2%Z /\ puzzleSolved s' = true.
Proof.
  intros Hlevel Hsolved Hgate.
  unfold tryOpenGate, openGateAnimation, animate. rewrite Hlevel, Hsolved.
  cbn. rewrite Hgate. cbn.
  assert (Hlow : Qltb (vy (gate_position gate)) (vy (gate_position gate) + 5)
                 = true).
  { apply Qltb_lt. lra. }
  rewrite Hlow. cbn. eexists. split; [reflexivity|]. cbn.
  rewrite <- app_assoc. auto 10.
Qed.

Section Levels2.
Context `{Host}.

(** X22.  What [loadLevel] carries over and what it resets.  Health,
    ammunition, the inventory, the game state, the level number and the
    browser's queue are not touched; the gate is shut, the puzzle unsolved,
    no projectile is left, and there is a player at height 1.  Only level 3
    has a boss, only levels 1 and 2 have a gate, and a level number other
    than 1, 2 and 3 gives the bare snow ground. *)
Theorem loadLevel_carries (levelNum : Z) (s : Game) :
  let s' := loadLevel levelNum s in
  (health s' = health s /\ ammo s' = ammo s /\ inventory s' = inventory s
   /\ state s' = state s /\ currentLevel s' = currentLevel s
   /\ pending s' = pending s)
  /\ (gateOpen s' = false /\ puzzleSolved s' = false /\ projectiles s' = [])
  /\ (exists p, player s' = Some p /\ vy (player_position p) = 1)
  /\ (is_Some (boss s') <-> levelNum = 3%Z)
  /\ (is_Some (exitGate s') <-> levelNum = 1%Z \/ levelNum = 2%Z)
  /\ (levelNum <> 1%Z -> levelNum <> 2%Z -> levelNum <> 3%Z ->
      platforms s' = [mkPlatform Vector3.zero true false None]
      /\ collectibles s' = [] /\ enemies s' = [] /\ interactables s' = []).
Proof.
  cbn zeta. unfold loadLevel.
  destruct (Z.eqb_spec levelNum 1) as [->|H1];
    [|destruct (Z.eqb_spec levelNum 2) as [->|H2];
      [|destruct (Z.eqb_spec levelNum 3) as [->|H3]]];
    cbn; (split; [auto 10|]); (split; [auto|]);
    (split; [eexists; split; reflexivity|]);
    (split; [split; [intros [b Hb]; (discriminate || reflexivity)
                    | intros Hn; (discriminate || lia
                                  || apply is_Some_Some)]|]);
    (split; [split; [intros [g Hg]; (discriminate || auto)
                    | intros [Hn|Hn]; (discriminate || lia
                                       || apply is_Some_Some)]|]);
    intros; (lia || auto).
Qed.

(** *** The cadence of the enemies *)

Lemma takeDamage_fields (amount : Z) (s : Game) :
  enemies (takeDamage amount s) = enemies s
  /\ health (takeDamage amount s) = (health s - amount)%Z
  /\ projectiles (takeDamage amount s) = projectiles s.
Proof. unfold takeDamage. cbn. case_ifs; cbn; auto. Qed.

(** X23.  A wolf within its attack range bites when it has not bitten
    before, when its last bite is more than a second ago, or when the time
    of its last bite is 0, which the test reads as never; the bite takes the
    wolf's damage off the player's health and is timed [now].  Otherwise the
    wolf does nothing to the player. *)
Theorem wolf_bite_cadence (delta now : Q) (playerPos : Vec3) (i : nat)
  (s : Game) (e : Enemy) :
  enemies s !! i = Some e ->
  enemy_type e = wolf ->
  (0 < enemy_health e)%Z ->
  Vector3.distanceTo_lt playerPos (enemy_position e) (aggroRange e) = true ->
  Vector3.distanceTo_lt playerPos (enemy_position e) (attackRange e) = true ->
  let ready :=
    match enemy_lastAttack e with
    | None => True
    | Some t => t == 0 \/ 1 < now - t
    end in
  exists s' e',
    updateEnemies_turn delta now playerPos i s = Some s'
    /\ enemies s' !! i = Some e'
    /\ enemy_position e' = enemy_position e
    /\ (ready ->
        health s' = (health s - enemy_damage e)%Z
        /\ enemy_lastAttack e' = Some now)
    /\ (~ ready ->
        health s' = health s /\ enemy_lastAttack e' = enemy_lastAttack e).
Proof.
  intros He Hty Halive Haggro Hclose ready.
  assert (Hi : (i < length (enemies s))%nat).
  { apply lookup_lt_is_Some. eauto. }
  unfold updateEnemies_turn. rewrite He. cbn.
  destruct (Z.leb_spec (enemy_health e) 0); [lia|].
  rewrite Haggro.
  assert (Hpos : 0 < attackRange e).
  { unfold Vector3.distanceTo_lt in Hclose.
    apply andb_true_iff in Hclose as [Hpos _]. now apply Qltb_lt. }
  rewrite (distanceTo_lt_not_gt _ _ _ _ Hpos (Qle_refl _) Hclose).
  rewrite Hclose, Hty.
  destruct (takeDamage_fields (enemy_damage e) s) as (Hte & Hth & _).
  destruct (enemy_lastAttack e) as [t|] eqn:Hlast; cbn -[Qeq_bool].
  - destruct (Qeq_bool t 0) eqn:Hzero; cbn.
    + apply Qeq_bool_iff in Hzero.
      eexists _, _. split; [reflexivity|]. cbn.
      rewrite Hte, Hth, list_lookup_insert_eq by exact Hi. rewrite Hty.
      split; [reflexivity|]. split; [reflexivity|].
      split; [auto|]. intros Hno. destruct Hno. subst ready. auto.
    + destruct (Qgtb (now - t) 1) eqn:Hlate.
      * apply Qgtb_gt in Hlate.
        eexists _, _. split; [reflexivity|]. cbn.
        rewrite Hte, Hth, list_lookup_insert_eq by exact Hi. rewrite Hty.
        split; [reflexivity|]. split; [reflexivity|].
        split; [auto|]. intros Hno. destruct Hno. subst ready. auto.
      * apply Qgtb_le in Hlate.
        eexists _, _. split; [reflexivity|]. cbn.
        rewrite list_lookup_insert_eq by exact Hi. rewrite Hty.
        split; [reflexivity|]. split; [reflexivity|].
        split; [|auto].
        intros [Hz | Hl].
        -- apply Qeq_bool_iff in Hz. congruence.
        -- exfalso. apply (Qlt_not_le _ _ Hl Hlate).
  - eexists _, _. split; [reflexivity|]. cbn.
    rewrite Hte, Hth, list_lookup_insert_eq by exact Hi. rewrite Hty.
    split; [reflexivity|]. split; [reflexivity|].
    split; [auto|]. intros Hno. now destruct Hno.
Qed.


(** X25.  No attack from beyond the attack range.  An enemy that is not
    within its attack range of the player, whatever its kind and whenever it
    last attacked, takes nothing off the player's health and fires nothing. *)
Theorem enemy_keeps_off (delta now : Q) (playerPos : Vec3) (i : nat)
  (s : Game) (e : Enemy) :
  enemies s !! i = Some e ->
  Vector3.distanceTo_lt playerPos (enemy_position e) (attackRange e) = false ->
  exists s',
    updateEnemies_turn delta now playerPos i s = Some s'
    /\ health s' = health s /\ state s' = state s
    /\ projectiles s' = projectiles s.
Proof.
  intros He Hfar. unfold updateEnemies_turn. rewrite He. cbn.
  destruct (enemy_health e <=? 0)%Z; [now eexists|].
  destruct (Vector3.distanceTo_lt playerPos (enemy_position e)
              (aggroRange e)); [|now eexists].
  destruct (Vector3.distanceTo_gt playerPos (enemy_position e)
              (attackRange e)); cbn; rewrite Hfar; now eexists.
Qed.
End Levels2.

(** ** The arena floor *)

(** X26.  The arena of level 3 catches a falling player inside its radius of
    25 whose height is strictly between 0 and 2, and puts it at height 2
    with no vertical velocity, on the ground; any other player it leaves
    alone. *)
Theorem arena_landing (platform : Platform) (s : Game) (p : Player) :
  player s = Some p ->
  isGround platform = false ->
  isArena platform = true ->
  let pos := player_position p in
  let falls_in :=
    vx pos * vx pos + vz pos * vz pos < 25 * 25
    /\ 0 < vy pos /\ vy pos < 2
    /\ vy (playerVelocity s) < 0 in
  (falls_in ->
   checkPlatformCollision platform s
   = Some (true,
           set_playerOnGround true
             (set_playerVelocity (Vector3.set_y 0 (playerVelocity s))
                (set_player (Some (mkPlayer (Vector3.set_y 2 pos))) s))))
  /\ (~ falls_in -> checkPlatformCollision platform s = Some (false, s)).
Proof.
  intros Hp Hground Harena pos falls_in. subst falls_in.
  unfold checkPlatformCollision. rewrite Hground, Harena, Hp.
  cbn -[Qltb Qgtb]. fold pos.
  destruct (Qltb (vx pos * vx pos + vz pos * vz pos) (25 * 25)) eqn:Hr;
    [apply Qltb_lt in Hr | apply Qltb_ge in Hr];
    (destruct (Qltb (vy pos) 2) eqn:Hhi;
     [apply Qltb_lt in Hhi | apply Qltb_ge in Hhi]);
    (destruct (Qgtb (vy pos) 0) eqn:Hlo;
     [apply Qgtb_gt in Hlo | apply Qgtb_le in Hlo]);
    cbn -[Qltb];
    try (destruct (Qltb (vy (playerVelocity s)) 0) eqn:Hv;
         [apply Qltb_lt in Hv | apply Qltb_ge in Hv]);
    (split; [intros (? & ? & ? & ?) | intros Hno]);
    try reflexivity; lra.
Qed.

(** ** The end of the boss *)

Section BossFate.
Context `{Host}.

(** X27.  The boss on level 3, with a player around.  A boss whose health is
    0 or less is taken away and the game is won, before it moves or attacks:
    the player's health and the projectiles stay as they are.  A boss with
    health left stays, at its height, and where it is unless the player is
    more than 8 away; the game is not won by this update. *)
Theorem updateBoss_fate (delta now : Q) (s : Game) (b : Boss) (p : Player) :
  boss s = Some b ->
  currentLevel s = 3%Z ->
  player s = Some p ->
  exists s',
    updateBoss delta now s = Some s'
    /\ ((bossHealth s <= 0)%Z ->
        boss s' = None /\ state s' = VICTORY
        /\ health s' = health s /\ projectiles s' = projectiles s)
    /\ ((0 < bossHealth s)%Z ->
        (exists b', boss s' = Some b'
           /\ vy (boss_position b') = vy (boss_position b)
           /\ (Vector3.distanceTo_gt (player_position p) (boss_position b) 8
               = false ->
               boss_position b' = boss_position b))
        /\ (state s' = VICTORY -> state s = VICTORY)).
Proof.
  intros Hb Hlevel Hp. unfold updateBoss, bossGroundSlam, bossIceAttack.
  rewrite Hb, Hlevel, Hp. cbn.
  destruct (Z.leb_spec (bossHealth s) 0).
  { eexists. split; [reflexivity|]. split; [cbn; auto | lia]. }
  destruct (Vector3.distanceTo_gt (player_position p) (boss_position b) 8);
    (destruct (Qgtb _ _); cbn;
     [destruct (Vector3.distanceTo_lt (player_position p) (boss_position b)
                  5);
      cbn; [rewrite Hp; cbn; unfold takeDamage; cbn; case_ifs; cbn|]|]);
    (eexists; split; [reflexivity|]; split; [lia|]; intros _; cbn;
     split;
     [eexists; split; [reflexivity|]; cbn; split; [reflexivity|];
      first [discriminate | reflexivity]
     | first [discriminate | exact (fun E => E)]]).
Qed.

(** X28.  Which attack the boss makes.  A live boss whose cooldown is over
    attacks and times the attack [now].  With the player less than 5 away it
    slams the ground: 20 off the player's health and no projectile.
    Otherwise it throws ice: three projectiles of the enemies' with damage
    15 and lifetime 3 are added at the end of the list, and the player's
    health stays.  [bossMaxHealth] is positive, as it is in every game. *)
Theorem boss_attack_kind (delta now : Q) (s : Game) (b : Boss) (p : Player) :
  boss s = Some b ->
  currentLevel s = 3%Z ->
  player s = Some p ->
  (0 < bossHealth s)%Z ->
  (0 < bossMaxHealth s)%Z ->
  attackCooldown (healthPercent s) < now - lastAttack_or_0 b ->
  exists s' b',
    updateBoss delta now s = Some s'
    /\ boss s' = Some b' /\ boss_lastAttack b' = Some now
    /\ (Vector3.distanceTo_lt (player_position p) (boss_position b) 5 = true ->
        health s' = (health s - 20)%Z /\ projectiles s' = projectiles s)
    /\ (Vector3.distanceTo_lt (player_position p) (boss_position b) 5 = false ->
        health s' = health s
        /\ exists shards,
             projectiles s' = projectiles s ++ shards
             /\ length shards = 3%nat
             /\ Forall (fun proj =>
                          isEnemyProjectile proj = true
                          /\ isPlayerProjectile proj = false
                          /\ damage proj = 15%Z /\ lifetime proj = 3)
                 shards).
Proof.
  intros Hb Hlevel Hp Halive _ Hdue. unfold updateBoss.
  rewrite Hb, Hlevel, Hp. cbn.
  destruct (Z.leb_spec (bossHealth s) 0) as [|_]; [lia|].
  apply Qgtb_gt in Hdue. rewrite Hdue.
  destruct (Vector3.distanceTo_lt (player_position p) (boss_position b) 5)
    eqn:Hnear.
  - unfold bossGroundSlam. cbn. rewrite Hp. cbn.
    rewrite (distanceTo_lt_not_gt _ _ 5 8) by (lra || assumption).
    rewrite (distanceTo_lt_weaken _ _ 5 8) by (lra || assumption).
    cbn. unfold takeDamage. cbn.
    destruct (health s - 20 <=? 0)%Z; cbn;
      (eexists _, _; split; [reflexivity|]); cbn;
      (split; [reflexivity|]); (split; [reflexivity|]);
      (split; [auto | discriminate]).
  - unfold bossIceAttack. cbn.
    eexists _, _. split; [reflexivity|]. cbn.
    split; [reflexivity|]. split; [reflexivity|].
    split; [discriminate|]. intros _. split; [reflexivity|].
    eexists. rewrite <- !app_assoc. split; [reflexivity|].
    split; [reflexivity|]. repeat constructor.
Qed.
End BossFate.

(** ** The further statements on concrete games *)

Lemma updateEnemies_removes_dead_witness :
  player Stage.wolf_down = Some (mkPlayer (mkVec3 0 1 0))
  /\ exists s',
       updateEnemies (H := Approx.host) 0.1 1 Stage.wolf_down = Some s'
       /\ player s' = Some (mkPlayer (mkVec3 0 1 0))
       /\ enemy_health <$> enemies s'
          = List.filter alive (enemy_health <$> enemies Stage.wolf_down).
Proof.
  split; [reflexivity|].
  apply (updateEnemies_removes_dead (H := Approx.host) 0.1 1 Stage.wolf_down).
  reflexivity.
Defined.

(** Level 1 holds wolves only: its enemies' update adds no projectile. *)
Lemma updateEnemies_kinds_witness :
  updateEnemies (H := Approx.host) 0.1 1 Scene.level1
  = Some Stage.wolves_moved
  /\ Forall (fun e => enemy_type e = wolf) (enemies Scene.level1)
  /\ projectiles Stage.wolves_moved = projectiles Scene.level1.
Proof.
  assert (Hrun : updateEnemies (H := Approx.host) 0.1 1 Scene.level1
                 = Some Stage.wolves_moved) by (vm_compute; reflexivity).
  assert (Hwolves : Forall (fun e => enemy_type e = wolf)
                      (enemies Scene.level1))
    by (repeat constructor).
  split; [exact Hrun|]. split; [exact Hwolves|].
  exact (proj2 (updateEnemies_kinds (H := Approx.host) 0.1 1 Scene.level1
                  Stage.wolves_moved Hrun) Hwolves).
Defined.

Lemma updateProjectiles_survivors_witness :
  player Scene.crossfire = Some (mkPlayer (mkVec3 0 1 0))
  /\ exists s',
       updateProjectiles 0.1 0 Scene.crossfire = Some s'
       /\ projectiles s'
          `sublist_of`
          List.filter (in_flight 0)
            (moved 0.1 <$> projectiles Scene.crossfire).
Proof.
  split; [reflexivity|].
  apply (updateProjectiles_survivors 0.1 0 Scene.crossfire
           (mkPlayer (mkVec3 0 1 0))).
  reflexivity.
Defined.

Lemma updateProjectiles_wear_witness :
  Forall damaging (projectiles Scene.crossfire)
  /\ updateProjectiles 0.1 0 Scene.crossfire = Some Stage.after_crossfire
  /\ (health Stage.after_crossfire <= health Scene.crossfire)%Z
  /\ (bossHealth Stage.after_crossfire <= bossHealth Scene.crossfire)%Z
  /\ Forall2 worn (enemies Scene.crossfire) (enemies Stage.after_crossfire).
Proof.
  assert (Hall : Forall damaging (projectiles Scene.crossfire))
    by (repeat constructor; unfold damaging; cbn; lia).
  assert (Hrun : updateProjectiles 0.1 0 Scene.crossfire
                 = Some Stage.after_crossfire) by (vm_compute; reflexivity).
  split; [exact Hall|]. split; [exact Hrun|].
  exact (updateProjectiles_wear 0.1 0 Scene.crossfire Stage.after_crossfire
           Hall Hrun).
Defined.

(** The player on the first ice platform of level 1, next to the
    ammunition that lies there. *)
Lemma updateCollectibles_clears_reach_witness :
  player (Scene.level1_with_key 5 3 (-10))
  = Some (mkPlayer (mkVec3 5 3 (-10)))
  /\ exists s',
       updateCollectibles (H := Approx.host) (Scene.level1_with_key 5 3 (-10))
       = Some s'
       /\ player s' = Some (mkPlayer (mkVec3 5 3 (-10)))
       /\ Forall (fun c => in_reach (mkVec3 5 3 (-10)) c = false)
            (collectibles s')
       /\ collectible_type <$> collectibles s'
          `sublist_of`
          collectible_type <$> collectibles (Scene.level1_with_key 5 3 (-10)).
Proof.
  split; [reflexivity|].
  apply (updateCollectibles_clears_reach (H := Approx.host)
           (Scene.level1_with_key 5 3 (-10)) (mkPlayer (mkVec3 5 3 (-10)))).
  reflexivity.
Defined.

(** The key of level 1 is its fourth collectible. *)
Lemma collectItem_key_witness :
  collectibles Scene.level1 !! 3%nat
  = Some (mkCollectible (mkVec3 (-25) 6.5 5) type_key)
  /\ count_keys (inventory (collectItem 3 Scene.level1)) = 1%nat
  /\ length (collectibles (collectItem 3 Scene.level1)) = 3%nat.
Proof.
  assert (Hc : collectibles Scene.level1 !! 3%nat
               = Some (mkCollectible (mkVec3 (-25) 6.5 5) type_key))
    by reflexivity.
  destruct (collectItem_key 3 Scene.level1 _ Hc eq_refl)
    as (Hrest & _ & Hfree & _).
  split; [exact Hc|]. split.
  - rewrite Hfree; [reflexivity | now left].
  - rewrite Hrest. reflexivity.
Defined.

Lemma key_round_trip_witness :
  currentLevel Scene.level1 = 1%Z
  /\ collectibles Scene.level1 !! 3%nat
     = Some (mkCollectible (mkVec3 (-25) 6.5 5) type_key)
  /\ existsb is_key (inventory Scene.level1) = false
  /\ exists s',
       tryOpenGate (collectItem 3 Scene.level1) = Some s'
       /\ gateOpen s' = true
       /\ inventory s' = inventory Scene.level1.
Proof.
  repeat (split; [reflexivity|]).
  apply (key_round_trip 3 Scene.level1
           (mkCollectible (mkVec3 (-25) 6.5 5) type_key));
    try reflexivity.
  now left.
Defined.

Lemma updatePlayer_floor_witness :
  player (Scene.falling_at 2.5) = Some (mkPlayer (mkVec3 5 2.5 (-10)))
  /\ exists s' p',
       updatePlayer (H := Approx.host) 0.1 (Scene.falling_at 2.5) = Some s'
       /\ player s' = Some p'
       /\ 1 <= vy (player_position p')
       /\ vx (player_position p') = 5 + vx (playerVelocity s') * 0.1
       /\ vz (player_position p') = (-10) + vz (playerVelocity s') * 0.1
       /\ (playerOnGround s' = true -> vy (playerVelocity s') = 0).
Proof.
  split; [reflexivity|].
  apply (updatePlayer_floor (H := Approx.host) 0.1 (Scene.falling_at 2.5)
           (mkPlayer (mkVec3 5 2.5 (-10)))).
  reflexivity.
Defined.

(** A fall of a tenth of a second from a vertical velocity of -1: the
    velocity is then -1 less 25 * 0.1. *)
Lemma updatePlayer_vertical_witness :
  updatePlayer (H := Approx.host) 0.1 (Scene.falling_at 2.5)
  = Some Stage.after_fall
  /\ playerOnGround Stage.after_fall = false
  /\ vy (playerVelocity Stage.after_fall) = - (1) - 25 * 0.1.
Proof.
  assert (Hrun : updatePlayer (H := Approx.host) 0.1 (Scene.falling_at 2.5)
                 = Some Stage.after_fall) by (vm_compute; reflexivity).
  assert (Hair : playerOnGround Stage.after_fall = false)
    by (vm_compute; reflexivity).
  split; [exact Hrun|]. split; [exact Hair|].
  rewrite (updatePlayer_vertical (H := Approx.host) 0.1
             (Scene.falling_at 2.5) Stage.after_fall
             (mkPlayer (mkVec3 5 2.5 (-10))) eq_refl Hrun).
  rewrite Hair. reflexivity.
Defined.

Lemma shoot_rate_witness :
  player Scene.level1 = Some (mkPlayer (mkVec3 0 1 0))
  /\ (0 < ammo Scene.level1)%Z
  /\ shootCooldown Scene.level1 <= 1 - lastShootTime Scene.level1
  /\ exists s' proj,
       shoot (H := Approx.host) 1 Scene.level1 = Some s'
       /\ ammo s' = (ammo Scene.level1 - 1)%Z
       /\ projectiles s' = projectiles Scene.level1 ++ [proj]
       /\ isPlayerProjectile proj = true /\ isEnemyProjectile proj = false
       /\ damage proj = 10%Z /\ lifetime proj = 2 /\ spawnTime proj = 1
       /\ forall now',
            now' - 1 < shootCooldown Scene.level1 ->
            shoot (H := Approx.host) now' s' = Some s'.
Proof.
  split; [reflexivity|]. split; [cbn; lia|].
  split; [now apply Qle_bool_iff|].
  apply (shoot_rate (H := Approx.host) 1 Scene.level1
           (mkPlayer (mkVec3 0 1 0))).
  - reflexivity.
  - cbn. lia.
  - now apply Qle_bool_iff.
Defined.

(** E at the gate of level 1, with the key: the gate opens, and E is
    down until it is released. *)
Lemma keys_round_trip_witness :
  inherited "KeyE" = false
  /\ onKeyDown "KeyE" (Scene.level1_with_key 35 1 (-15))
     = Some Stage.gate_used
  /\ gateOpen Stage.gate_used = true
  /\ key_down "KeyE" Stage.gate_used = true
  /\ key_down "KeyE" (onKeyUp "KeyE" Stage.gate_used) = false.
Proof.
  assert (Hrun : onKeyDown "KeyE" (Scene.level1_with_key 35 1 (-15))
                 = Some Stage.gate_used) by (vm_compute; reflexivity).
  assert (Hown : inherited "KeyE" = false) by (vm_compute; reflexivity).
  split; [exact Hown|].
  split; [exact Hrun|]. split; [vm_compute; reflexivity|].
  destruct (keys_round_trip "KeyE" (Scene.level1_with_key 35 1 (-15))
              Stage.gate_used Hown Hrun) as (Hdown & Hup & _).
  split; [exact Hdown | exact Hup].
Defined.

Lemma started_reachable : reachable (H := Approx.host) Stage.started.
Proof.
  apply (reachable_handle (H := Approx.host) constructor Stage.started
           (click_start 0 0)).
  - apply reachable_constructor.
  - vm_compute. reflexivity.
Qed.

(** The first frame after the start button. *)
Lemma frame_never_throws_witness :
  reachable (H := Approx.host) Stage.started
  /\ pending Stage.started !! 0%nat = Some (AnimationFrame cb_gameLoop)
  /\ is_Some (fire (H := Approx.host) 0 0.1 0.1 Stage.started).
Proof.
  split; [exact started_reachable|].
  assert (Hd : pending Stage.started !! 0%nat
               = Some (AnimationFrame cb_gameLoop))
    by (vm_compute; reflexivity).
  split; [exact Hd|].
  exact (frame_never_throws (H := Approx.host) 0 (AnimationFrame cb_gameLoop)
           0.1 0.1 Stage.started started_reachable Hd eq_refl).
Defined.

Lemma reachable_core_witness :
  reachable (H := Approx.host) Scene.after_opening
  /\ tuned Scene.after_opening
  /\ state_used (state Scene.after_opening)
  /\ (1 <= currentLevel Scene.after_opening)%Z
  /\ inventory_ok (inventory Scene.after_opening).
Proof.
  split; [exact after_opening_reachable|].
  exact (reachable_core (H := Approx.host) Scene.after_opening
           after_opening_reachable).
Defined.

Lemma reachable_player_bounds_witness :
  reachable (H := Approx.host) Scene.after_opening
  /\ above_floor Scene.after_opening /\ pitch_ok Scene.after_opening.
Proof.
  split; [exact after_opening_reachable|].
  exact (reachable_player_bounds (H := Approx.host) Scene.after_opening
           after_opening_reachable).
Defined.

(** A lost game whose last frame has run: the restart button brings no
    frame back. *)
Lemma loop_stays_dead_witness :
  no_loop (pending (set_pending [] Stage.lost))
  /\ handle (H := Approx.host) click_restart (set_pending [] Stage.lost)
     = Some (restartGame (H := Approx.host) (set_pending [] Stage.lost))
  /\ no_loop
       (pending (restartGame (H := Approx.host) (set_pending [] Stage.lost))).
Proof.
  assert (Hno : no_loop (pending (set_pending [] Stage.lost)))
    by constructor.
  split; [exact Hno|]. split; [reflexivity|].
  apply (loop_stays_dead (H := Approx.host) click_restart
           (set_pending [] Stage.lost)).
  - exact Hno.
  - discriminate.
  - reflexivity.
Defined.

Lemma loop_ends_with_game_witness :
  state Stage.lost = GAME_OVER
  /\ pending Stage.lost !! 0%nat = Some (AnimationFrame cb_gameLoop)
  /\ fire (H := Approx.host) 0 0.1 0.1 Stage.lost
     = Some (set_pending (delete 0%nat (pending Stage.lost)) Stage.lost)
  /\ state (restartGame (H := Approx.host)
              (set_pending (delete 0%nat (pending Stage.lost)) Stage.lost))
     = PLAYING
  /\ pending (restartGame (H := Approx.host)
                (set_pending (delete 0%nat (pending Stage.lost)) Stage.lost))
     = delete 0%nat (pending Stage.lost).
Proof.
  assert (Hd : pending Stage.lost !! 0%nat
               = Some (AnimationFrame cb_gameLoop))
    by (vm_compute; reflexivity).
  split; [reflexivity|]. split; [exact Hd|].
  exact (loop_ends_with_game (H := Approx.host) 0 (AnimationFrame cb_gameLoop)
           0.1 0.1 Stage.lost (or_introl eq_refl) Hd eq_refl).
Defined.

Lemma tryOpenGate_again_witness :
  currentLevel Stage.temple_open = 2%Z
  /\ puzzleSolved Stage.temple_open = true
  /\ gateOpen Stage.temple_open = true
  /\ exitGate Stage.temple_open = Some (mkGate (mkVec3 0 (4 + 2.5) (-40)))
  /\ exists s',
       tryOpenGate Stage.temple_open = Some s'
       /\ gateOpen s' = true
       /\ pending s'
          = pending Stage.temple_open
            ++ [AnimationFrame (cb_animate (4 + 2.5 + 5));
                Timeout cb_nextLevel 2000]
       /\ exitGate s'
          = Some (mkGate (Vector3.set_y (4 + 2.5 + 0.1) (mkVec3 0 (4 + 2.5) (-40))))
       /\ currentLevel s' = 2%Z /\ puzzleSolved s' = true.
Proof.
  repeat (split; [reflexivity|]).
  apply (tryOpenGate_again Stage.temple_open
           (mkGate (mkVec3 0 (4 + 2.5) (-40)))); reflexivity.
Defined.

(** A wolf one step from the player, before its first bite. *)
Lemma wolf_bite_cadence_witness :
  enemies Stage.close_wolf !! 0%nat
  = Some (mkEnemy (mkVec3 1 1 0) 30 30 4 10 2 15 wolf false None None)
  /\ exists s' e',
       updateEnemies_turn (H := Approx.host) 0.1 1 (mkVec3 0 1 0) 0
         Stage.close_wolf = Some s'
       /\ enemies s' !! 0%nat = Some e'
       /\ health s' = (health Stage.close_wolf - 10)%Z
       /\ enemy_lastAttack e' = Some 1.
Proof.
  split; [reflexivity|].
  destruct (wolf_bite_cadence (H := Approx.host) 0.1 1 (mkVec3 0 1 0) 0
              Stage.close_wolf
              (mkEnemy (mkVec3 1 1 0) 30 30 4 10 2 15 wolf false None None))
    as (s' & e' & Hrun & He' & _ & Hready & _);
    try reflexivity.
  exists s', e'. split; [exact Hrun|]. split; [exact He'|].
  exact (Hready I).
Defined.


Lemma arena_landing_witness :
  player (Scene.falling_at 1.5) = Some (mkPlayer (mkVec3 5 1.5 (-10)))
  /\ checkPlatformCollision Stage.arena (Scene.falling_at 1.5)
     = Some (true,
             set_playerOnGround true
               (set_playerVelocity
                  (Vector3.set_y 0 (playerVelocity (Scene.falling_at 1.5)))
                  (set_player
                     (Some (mkPlayer (Vector3.set_y 2 (mkVec3 5 1.5 (-10)))))
                     (Scene.falling_at 1.5)))).
Proof.
  split; [reflexivity|].
  apply (arena_landing Stage.arena (Scene.falling_at 1.5)
           (mkPlayer (mkVec3 5 1.5 (-10))) eq_refl eq_refl eq_refl).
  repeat split.
Defined.

Lemma updateBoss_fate_witness :
  boss Stage.boss_down = Some (mkBoss (mkVec3 0 1 (-10)) None)
  /\ currentLevel Stage.boss_down = 3%Z
  /\ player Stage.boss_down = Some (mkPlayer (mkVec3 0 1 30))
  /\ exists s',
       updateBoss (H := Approx.host) 0.1 1 Stage.boss_down = Some s'
       /\ boss s' = None /\ state s' = VICTORY
       /\ health s' = health Stage.boss_down
       /\ projectiles s' = projectiles Stage.boss_down.
Proof.
  repeat (split; [reflexivity|]).
  destruct (updateBoss_fate (H := Approx.host) 0.1 1 Stage.boss_down
              (mkBoss (mkVec3 0 1 (-10)) None) (mkPlayer (mkVec3 0 1 30)))
    as (s' & Hrun & Hdead & _); try reflexivity.
  exists s'. split; [exact Hrun|]. apply Hdead. cbn. lia.
Defined.

(** A spirit twelve steps from the player: inside its aggro range, beyond
    its attack range. *)
Lemma enemy_keeps_off_witness :
  enemies (createIceSpirit 12 2 0 Stage.close_wolf) !! 1%nat
  = Some (mkEnemy (mkVec3 12 2 0) 20 20 3 15 8 20 spirit true (Some 0) None)
  /\ exists s',
       updateEnemies_turn (H := Approx.host) 0.1 3 (mkVec3 0 1 0) 1
         (createIceSpirit 12 2 0 Stage.close_wolf) = Some s'
       /\ health s' = health Stage.close_wolf
       /\ state s' = state Stage.close_wolf
       /\ projectiles s' = projectiles Stage.close_wolf.
Proof.
  split; [reflexivity|].
  apply (enemy_keeps_off (H := Approx.host) 0.1 3 (mkVec3 0 1 0) 1
           (createIceSpirit 12 2 0 Stage.close_wolf)
           (mkEnemy (mkVec3 12 2 0) 20 20 3 15 8 20 spirit true (Some 0)
              None));
    reflexivity.
Defined.

(** The boss at half health, 1.5 seconds after its last attack, the player
    forty steps away: it throws ice. *)
Lemma boss_attack_kind_witness :
  boss Scene.boss_at_half = Some (mkBoss (mkVec3 0 1 (-10)) None)
  /\ player Scene.boss_at_half = Some (mkPlayer (mkVec3 0 1 30))
  /\ (0 < bossMaxHealth Scene.boss_at_half)%Z
  /\ exists s',
       updateBoss (H := Approx.host) 0.1 1.5 Scene.boss_at_half = Some s'
       /\ health s' = health Scene.boss_at_half
       /\ length (projectiles s')
          = (length (projectiles Scene.boss_at_half) + 3)%nat.
Proof.
  repeat (split; [reflexivity|]).
  destruct (boss_attack_kind (H := Approx.host) 0.1 1.5 Scene.boss_at_half
              (mkBoss (mkVec3 0 1 (-10)) None) (mkPlayer (mkVec3 0 1 30)))
    as (s' & b' & Hrun & _ & _ & _ & Hice);
    try reflexivity; try (vm_compute; reflexivity).
  destruct Hice as (Hh & shards & Hproj & Hlen & _); [reflexivity|].
  exists s'. split; [exact Hrun|]. split; [exact Hh|].
  rewrite Hproj, length_app, Hlen. reflexivity.
Defined.
